(** * Headplane configuration: schema validation, secret files and
      environment overrides

    A shallow embedding of [app/server/config/schema.ts] and
    [app/server/config/loader.ts].

    - [Js]: the JavaScript values the loader handles (the JSON view of the
      YAML document, environment strings), with the handful of language
      operations the two files use ([typeof], truthiness, property access,
      object spread, [String.prototype] methods).
    - [Ark]: the fragment of the arktype type language that [schema.ts]
      is written in, as a syntax of types with a validator.
    - [Schema]: the types of [schema.ts], one definition per [const].
    - [Loader]: the functions of [loader.ts].
    - [Shapes]: predicates on documents, types and computations that
      the later properties are stated with.

    The theorems follow the definitions. *)

From Stdlib Require Import List String Ascii ZArith Bool Arith Lia.
From Stdlib Require Import DecimalString.
From Stdlib Require DecimalFacts DecimalNat.
Import ListNotations.
Open Scope string_scope.
Open Scope list_scope.

Set Warnings "-register-all".

(* ================================================================= *)
(** ** JavaScript values *)

Module Js.

(** A JavaScript number, as far as the loader can tell numbers apart:
    an integer, [NaN], or some other number (a fraction or an infinity,
    kept by its literal). *)
Inductive number : Type :=
| Int (z : Z)
| NaN
| NonInt (literal : string).

(** Values. An object is the list of its own enumerable properties in
    enumeration order; property names are unique in a well-formed
    object ([wf_obj] below). Of what an object inherits from
    [Object.prototype] the names are known ([inherited] below), as the
    operator [in] sees them. A string is a sequence of UTF-16 code
    units; the strings here are those of code units below 256, one
    8-bit character for each. *)
Inductive value : Type :=
| VUndef
| VNull
| VBool (b : bool)
| VNum (n : number)
| VStr (s : string)
| VArr (items : list value)
| VObj (props : list (string * value)).

Definition obj : Type := list (string * value).

(** [typeof v === 'object']: true of objects, arrays and [null]. *)
Definition typeof_object (v : value) : bool :=
  match v with
  | VNull | VArr _ | VObj _ => true
  | _ => false
  end.

(** [Boolean(v)], also the test of [if (v)] and [!v]. *)
Definition truthy (v : value) : bool :=
  match v with
  | VUndef | VNull => false
  | VBool b => b
  | VNum (Int z) => negb (Z.eqb z 0)
  | VNum NaN => false
  | VNum (NonInt _) => true
  | VStr s => negb (String.eqb s "")
  | VArr _ | VObj _ => true
  end.

(** [v == null]: true of [null] and [undefined] only. *)
Definition loose_null (v : value) : bool :=
  match v with
  | VUndef | VNull => true
  | _ => false
  end.

(** Own-property lookup. *)
Fixpoint lookup (k : string) (o : obj) : option value :=
  match o with
  | [] => None
  | (k', v) :: rest => if String.eqb k k' then Some v else lookup k rest
  end.

(** The names of the properties of [Object.prototype], which every
    object literal inherits. *)
Definition inherited : list string :=
  ["constructor"; "hasOwnProperty"; "isPrototypeOf";
   "propertyIsEnumerable"; "toLocaleString"; "toString"; "valueOf";
   "__defineGetter__"; "__defineSetter__"; "__lookupGetter__";
   "__lookupSetter__"; "__proto__"].

Definition inherits (k : string) : bool :=
  existsb (String.eqb k) inherited.

(** [k in o]: true of the own properties of [o] and of the inherited
    ones. *)
Definition has (k : string) (o : obj) : bool :=
  match lookup k o with Some _ => true | None => inherits k end.

(** [o[k]]: [undefined] when the property is absent. *)
Definition get (k : string) (o : obj) : value :=
  match lookup k o with Some v => v | None => VUndef end.

(** [o[k] = v]: an existing property keeps its place, a new one goes
    last. *)
Fixpoint set (k : string) (v : value) (o : obj) : obj :=
  match o with
  | [] => [(k, v)]
  | (k', v') :: rest =>
      if String.eqb k k' then (k', v) :: rest else (k', v') :: set k v rest
  end.

(** [delete o[k]]. *)
Fixpoint remove (k : string) (o : obj) : obj :=
  match o with
  | [] => []
  | (k', v') :: rest =>
      if String.eqb k k' then remove k rest else (k', v') :: remove k rest
  end.

Definition keys (o : obj) : list string := map fst o.

(** Property names are pairwise distinct. *)
Definition wf_obj (o : obj) : Prop := NoDup (keys o).

(** The decimal name of an array index. *)
Definition index_key (i : nat) : string :=
  NilEmpty.string_of_uint (Nat.to_uint i).

(** The own enumerable properties of an array: its indices. *)
Fixpoint indexed (from : nat) (items : list value) : obj :=
  match items with
  | [] => []
  | v :: rest => (index_key from, v) :: indexed (S from) rest
  end.

(** The one-character strings of a string, by index. *)
Fixpoint chars (from : nat) (s : string) : obj :=
  match s with
  | EmptyString => []
  | String c rest =>
      (index_key from, VStr (String c EmptyString)) :: chars (S from) rest
  end.

(** The properties [for (const key in v)] enumerates and [{ ...v }]
    copies. *)
Definition own_props (v : value) : obj :=
  match v with
  | VObj o => o
  | VArr items => indexed 0 items
  | VStr s => chars 0 s
  | _ => []
  end.

(** [{ ...v }]. *)
Definition spread (v : value) : obj := own_props v.

Definition same_number (m n : number) : bool :=
  match m, n with
  | Int a, Int b => Z.eqb a b
  | NaN, NaN => true
  | NonInt a, NonInt b => String.eqb a b
  | _, _ => false
  end.

(** Two values are written alike. *)
Fixpoint same (v w : value) {struct v} : bool :=
  match v, w with
  | VUndef, VUndef => true
  | VNull, VNull => true
  | VBool a, VBool b => Bool.eqb a b
  | VNum m, VNum n => same_number m n
  | VStr a, VStr b => String.eqb a b
  | VArr xs, VArr ys =>
      (fix all (xs ys : list value) {struct xs} : bool :=
         match xs, ys with
         | [], [] => true
         | x :: xs', y :: ys' => andb (same x y) (all xs' ys')
         | _, _ => false
         end) xs ys
  | VObj o, VObj o' =>
      (fix all (o o' : list (string * value)) {struct o} : bool :=
         match o, o' with
         | [], [] => true
         | (k, x) :: rest, (k', y) :: rest' =>
             andb (String.eqb k k') (andb (same x y) (all rest rest'))
         | _, _ => false
         end) o o'
  | _, _ => false
  end.

(** [v.k] and [v?.k] on a value that is an object or [undefined]. *)
Definition prop (v : value) (k : string) : value :=
  match v with
  | VObj o => get k o
  | _ => VUndef
  end.

(** [v.k1.k2...]: the value at the end of a path of property names,
    if the path leads through objects. *)
Fixpoint at_path (path : list string) (v : value) : option value :=
  match path with
  | [] => Some v
  | k :: rest =>
      match v with
      | VObj o =>
          match lookup k o with
          | Some x => at_path rest x
          | None => None
          end
      | _ => None
      end
  end.

(** *** Strings *)

(** [s.length]. *)
Definition length (s : string) : nat := String.length s.

(** [s.startsWith(p)]. *)
Definition startsWith (p s : string) : bool := String.prefix p s.

(** The last character of a string. *)
Fixpoint last (s : string) : option ascii :=
  match s with
  | EmptyString => None
  | String c EmptyString => Some c
  | String _ rest => last rest
  end.

(** [s.endsWith(c)] for a one-character [c]. *)
Definition endsWith (c : ascii) (s : string) : bool :=
  match last s with
  | Some d => Ascii.eqb d c
  | None => false
  end.

(** [s.slice(0, -1)]: all but the last character. *)
Fixpoint slice_0_m1 (s : string) : string :=
  match s with
  | EmptyString => EmptyString
  | String _ EmptyString => EmptyString
  | String c rest => String c (slice_0_m1 rest)
  end.

(** [s.slice(2, -1)]. *)
Definition slice_2_m1 (s : string) : string :=
  match s with
  | String _ (String _ rest) => slice_0_m1 rest
  | _ => EmptyString
  end.

(** [c.toLowerCase()] on one character: the letters A to Z and the
    capital letters of Latin-1, U+00C0 to U+00DE without the
    multiplication sign U+00D7. *)
Definition lower_char (c : ascii) : ascii :=
  let n := nat_of_ascii c in
  if orb (andb (Nat.leb 65 n) (Nat.leb n 90))
         (andb (andb (Nat.leb 192 n) (Nat.leb n 222))
               (negb (Nat.eqb n 215)))
  then ascii_of_nat (n + 32) else c.

(** [s.toLowerCase()]. *)
Fixpoint toLowerCase (s : string) : string :=
  match s with
  | EmptyString => EmptyString
  | String c rest => String (lower_char c) (toLowerCase rest)
  end.

(** Drop the first [n] characters. *)
Fixpoint drop (n : nat) (s : string) : string :=
  match n, s with
  | O, _ => s
  | S n', String _ rest => drop n' rest
  | S _, EmptyString => EmptyString
  end.

(** White space and line terminators, as [trim] strips them: of the
    code units below 256 these are U+0009 to U+000D, the space U+0020
    and the no-break space U+00A0. (The others, U+FEFF, U+2028 and the
    like, are code units from 256 on.) *)
Definition is_space (c : ascii) : bool :=
  let n := nat_of_ascii c in
  orb (orb (Nat.eqb n 32) (Nat.eqb n 160))
      (andb (Nat.leb 9 n) (Nat.leb n 13)).

Fixpoint trimStart (s : string) : string :=
  match s with
  | EmptyString => EmptyString
  | String c rest => if is_space c then trimStart rest else s
  end.

(** Drop trailing white space: [None] stands for a suffix that is all
    white space. *)
Fixpoint trimEnd_aux (s : string) : option string :=
  match s with
  | EmptyString => None
  | String c rest =>
      match trimEnd_aux rest with
      | Some rest' => Some (String c rest')
      | None => if is_space c then None else Some (String c EmptyString)
      end
  end.

Definition trimEnd (s : string) : string :=
  match trimEnd_aux s with Some s' => s' | None => EmptyString end.

(** [s.trim()]. *)
Definition trim (s : string) : string := trimEnd (trimStart s).

(** The first occurrence of [pat] in [s]: what stands before it and
    after it. *)
Fixpoint split_at_first (pat s : string) : option (string * string) :=
  if String.prefix pat s then Some (EmptyString, drop (String.length pat) s)
  else
    match s with
    | EmptyString => None
    | String c rest =>
        match split_at_first pat rest with
        | Some (before, after) => Some (String c before, after)
        | None => None
        end
    end.

(** The replacement text of [replace] for a string pattern: [$$] is a
    dollar sign, [$&] the matched text, [$`] the text before the match
    and [$'] the text after it; with no capture groups every other
    character stands for itself. *)
Fixpoint getSubstitution (matched before after repl : string) : string :=
  match repl with
  | EmptyString => EmptyString
  | String a r =>
      if Ascii.eqb a "$" then
        match r with
        | String c rest =>
            if Ascii.eqb c "$" then
              String "$" (getSubstitution matched before after rest)
            else if Ascii.eqb c "&" then
              (matched ++ getSubstitution matched before after rest)%string
            else if Ascii.eqb c "`" then
              (before ++ getSubstitution matched before after rest)%string
            else if Ascii.eqb c "'" then
              (after ++ getSubstitution matched before after rest)%string
            else String a (getSubstitution matched before after r)
        | EmptyString => String a EmptyString
        end
      else String a (getSubstitution matched before after r)
  end.

(** [s.replace(pat, repl)] for a string [pat]: the first occurrence
    only. *)
Definition replace (pat repl s : string) : string :=
  match split_at_first pat s with
  | Some (before, after) =>
      (before ++ getSubstitution pat before after repl ++ after)%string
  | None => s
  end.

Definition cons_char (c : ascii) (parts : list string) : list string :=
  match parts with
  | part :: rest => String c part :: rest
  | [] => [String c EmptyString]
  end.

(** [s.split('__')]. *)
Fixpoint split_dunder (s : string) : list string :=
  match s with
  | EmptyString => [EmptyString]
  | String c rest =>
      match rest with
      | String d rest' =>
          if andb (Ascii.eqb c "_") (Ascii.eqb d "_")
          then EmptyString :: split_dunder rest'
          else cons_char c (split_dunder rest)
      | EmptyString => cons_char c (split_dunder rest)
      end
  end.

(** Line terminators, which [.] of a regular expression does not
    match. *)
Definition is_line_terminator (c : ascii) : bool :=
  let n := nat_of_ascii c in orb (Nat.eqb n 10) (Nat.eqb n 13).

(** After [${]: the shortest run of characters other than line
    terminators that a [}] ends, as [(.*?)}] matches it. *)
Fixpoint closing (s : string) : option string :=
  match s with
  | EmptyString => None
  | String c rest =>
      if Ascii.eqb c "}" then Some EmptyString
      else if is_line_terminator c then None
      else
        match closing rest with
        | Some name => Some (String c name)
        | None => None
        end
  end.

(** The name of the marker that starts at the head of [s], if one
    does. *)
Definition marker_at (s : string) : option string :=
  match s with
  | String c (String d rest) =>
      if andb (Ascii.eqb c "$") (Ascii.eqb d "{") then closing rest
      else None
  | _ => None
  end.

Definition marker (name : string) : string :=
  String "$" (String "{" (name ++ "}"))%string.

(** [s.match(/\${(.*?)}/g)]: the matches from left to right, each
    search resuming after the previous match ([skip] characters of it
    are still to be passed). No match is the empty list. *)
Fixpoint matches_from (skip : nat) (s : string) : list string :=
  match s with
  | EmptyString => []
  | String _ rest =>
      match skip with
      | S k => matches_from k rest
      | O =>
          match marker_at s with
          | Some name =>
              marker name :: matches_from (String.length name + 2) rest
          | None => matches_from 0 rest
          end
      end
  end.

Definition match_markers (s : string) : list string := matches_from 0 s.

(** Every character is white space. *)
Fixpoint all_space (s : string) : bool :=
  match s with
  | EmptyString => true
  | String c rest => andb (is_space c) (all_space rest)
  end.

(** The first character of a string. *)
Definition first (s : string) : option ascii :=
  match s with
  | EmptyString => None
  | String c _ => Some c
  end.

End Js.

(* ================================================================= *)
(** ** The arktype fragment of [schema.ts] *)

(** arktype is the validation library [schema.ts] is written with. A
    type is called on a value in two passes: the value is first checked
    against the shape of the type and every error is collected; then
    defaults are filled in, the morphs given to [.pipe] run from the
    inside out, and undeclared keys are removed where the type says so.
    When the first pass has found errors the morphs still run at the
    paths that no error touches, and the errors are the result unless
    one of these morphs throws. *)

Module Ark.
Import Js.

(** What arktype decides outside this repository: the keywords
    [string.ip] and [string.url] (the latter by the platform URL
    parser), and the conversion [Number(s)] of a string. *)
Record Keywords : Type := {
  string_ip : string -> bool;
  string_url : string -> bool;
  string_to_number : string -> number
}.

(** The rule of an object type for keys it does not declare: keep
    them (the default), report them, or drop them from the output. *)
Inductive undeclared : Type := ignore | reject | delete.

(** A declared key is required ([k]), optional (['k?'] or
    [.optional()]), or defaultable ([= d] or [.default(d)]). *)
Inductive presence : Type :=
| required
| optional
| defaultable (d : value).

(** What a morph (the function given to [.pipe]) does: return a value
    or throw. [.pipe] does not catch. *)
Inductive morph_result : Type :=
| Returned (v : value)
| Thrown (msg : string).

Definition morph : Type := value -> morph_result.

(** Types. [t_object u props] is [type({ ... })] with its rule for
    undeclared keys; [t_pipe t f] is [t.pipe(f)]. *)
Inductive type : Type :=
| t_string
| t_string_ip
| t_string_url
| t_integer
| t_boolean
| t_null
| t_unit (literal : string)
| t_union (a b : type)
| t_object (u : undeclared) (props : list (string * (presence * type)))
| t_pipe (t : type) (f : morph).

Definition property : Type := (string * (presence * type))%type.

(** [type({ ... })]: undeclared keys are ignored until a rule is set. *)
Definition type_ (props : list property) : type := t_object ignore props.

(** A required key, [t.optional()] and [t.default(d)]. *)
Definition req (t : type) : presence * type := (required, t).
Definition opt (t : type) : presence * type := (optional, t).
Definition default (t : type) (d : value) : presence * type :=
  (defaultable d, t).

(** [t.onDeepUndeclaredKey(rule)]: the rule is written into every
    object type of [t], nested ones and ones that already carry a rule
    included. *)
Fixpoint onDeepUndeclaredKey (rule : undeclared) (t : type) : type :=
  match t with
  | t_union a b =>
      t_union (onDeepUndeclaredKey rule a) (onDeepUndeclaredKey rule b)
  | t_object _ props =>
      t_object rule
        (map (fun p => (fst p, (fst (snd p),
                                onDeepUndeclaredKey rule (snd (snd p)))))
             props)
  | t_pipe t' f => t_pipe (onDeepUndeclaredKey rule t') f
  | _ => t
  end.

(** Errors: where, and what was wrong. *)
Inductive problem : Type :=
| Missing
| Expected (what : string)
| Undeclared.

Definition error : Type := (list string * problem)%type.

(** The result of calling a type on a value: the morphed value, the
    list of errors ([type.errors]), or an exception out of a morph. *)
Inductive result : Type :=
| Valid (out : value)
| Errors (errs : list error)
| Throws (msg : string).

Definition is_valid (r : result) : bool :=
  match r with Valid _ => true | _ => false end.

Definition declares (props : list property) (k : string) : bool :=
  existsb (fun p => String.eqb k (fst p)) props.

(** The rules for undeclared keys of the object types of [t], outermost
    first. *)
Fixpoint rules (t : type) : list undeclared :=
  match t with
  | t_union a b => rules a ++ rules b
  | t_object u props => u :: flat_map (fun p => rules (snd (snd p))) props
  | t_pipe t' _ => rules t'
  | _ => []
  end.

Fixpoint find_property (k : string) (props : list property)
  : option (presence * type) :=
  match props with
  | [] => None
  | (k', d) :: rest => if String.eqb k k' then Some d else find_property k rest
  end.

(** A key that is not the name of an array index: it does not start
    with a digit. *)
Definition named (k : string) : bool :=
  match k with
  | EmptyString => true
  | String c _ =>
      let n := nat_of_ascii c in negb (andb (Nat.leb 48 n) (Nat.leb n 57))
  end.

(** An object type that requires a key with such a name: no array
    passes it. *)
Definition anchored (props : list property) : bool :=
  existsb (fun p => match fst (snd p) with
                    | required => named (fst p)
                    | _ => false
                    end) props.

(** The declared keys of a type: those of the object type under its
    morphs. *)
Fixpoint properties (t : type) : list property :=
  match t with
  | t_object _ props => props
  | t_pipe t' _ => properties t'
  | _ => []
  end.

(** The type a path of keys leads to. *)
Fixpoint field_type (path : list string) (t : type) : option type :=
  match path with
  | [] => Some t
  | k :: rest =>
      match find_property k (properties t) with
      | Some (_, t') => field_type rest t'
      | None => None
      end
  end.

Section Validation.
Variable K : Keywords.

Definition expect (path : list string) (what : string) (ok : bool)
  : list error :=
  if ok then [] else [(path, Expected what)].

(** The declared keys of an object type against the properties of
    [o]: a present key is checked against its type, an absent one
    is an error when it is required. *)
Section CheckProps.
Variable check : type -> list string -> value -> list error.
Variable path : list string.
Variable o : obj.

Fixpoint check_props (ps : list property) : list error :=
  match ps with
  | [] => []
  | (k, (pr, t')) :: ps' =>
      match lookup k o with
      | Some x => check t' (path ++ [k]) x
      | None =>
          match pr with
          | required => [(path ++ [k], Missing)]
          | _ => []
          end
      end ++ check_props ps'
  end.
End CheckProps.

(** The keys of [o] that an object type with the rule [reject]
    reports. *)
Definition check_undeclared (u : undeclared) (props : list property)
    (path : list string) (o : obj) : list error :=
  match u with
  | reject =>
      map (fun k => (path ++ [k], Undeclared))
        (filter (fun k => negb (declares props k)) (keys o))
  | _ => []
  end.

(** First pass: the errors of [v] against [t], morphs aside. An object
    type takes any object, an array too: its declared keys are looked
    up among the own properties of the array, which are its indices.
    (arktype looks a declared key up with [in]; [schema.ts] declares
    no key that an object inherits or that an array has besides its
    indices, such as [constructor] or [length].) *)
Fixpoint check (t : type) (path : list string) (v : value)
  : list error :=
  match t with
  | t_string =>
      expect path "a string" match v with VStr _ => true | _ => false end
  | t_string_ip =>
      expect path "an IP address"
        match v with VStr s => string_ip K s | _ => false end
  | t_string_url =>
      expect path "a URL"
        match v with VStr s => string_url K s | _ => false end
  | t_integer =>
      expect path "an integer"
        match v with VNum (Int _) => true | _ => false end
  | t_boolean =>
      expect path "boolean"
        match v with VBool _ => true | _ => false end
  | t_null =>
      expect path "null" match v with VNull => true | _ => false end
  | t_unit lit =>
      expect path lit
        match v with VStr s => String.eqb s lit | _ => false end
  | t_union a b =>
      match check a path v with
      | [] => []
      | _ :: _ =>
          match check b path v with
          | [] => []
          | _ :: _ => [(path, Expected "one of the branches")]
          end
      end
  | t_object u props =>
      match v with
      | VObj o =>
          check_props check path o props ++ check_undeclared u props path o
      | VArr items =>
          check_props check path (indexed 0 items) props
          ++ check_undeclared u props path (indexed 0 items)
      | _ => [(path, Expected "an object")]
      end
  | t_pipe t' _ => check t' path v
  end.

(** [t.allows(v)]. *)
Definition allows (t : type) (v : value) : bool :=
  match check t [] v with [] => true | _ :: _ => false end.

Definition bind (r : morph_result) (f : morph) : morph_result :=
  match r with
  | Returned v => f v
  | Thrown msg => Thrown msg
  end.

(** The declared keys of an object type, in order, over the
    properties [acc]: the morphs of a present key run on its value,
    an absent key gets its default. [inr] is an exception out of a
    morph. *)
Section RunProps.
Variable run : type -> value -> morph_result.

Fixpoint run_props (ps : list property) (acc : obj) : obj + string :=
  match ps with
  | [] => inl acc
  | (k, (pr, t')) :: ps' =>
      match lookup k acc with
      | Some x =>
          match run t' x with
          | Returned x' => run_props ps' (set k x' acc)
          | Thrown msg => inr msg
          end
      | None =>
          match pr with
          | defaultable d => run_props ps' (set k d acc)
          | _ => run_props ps' acc
          end
      end
  end.
End RunProps.

(** The properties an object type lets through. *)
Definition keep (u : undeclared) (props : list property) (o : obj) : obj :=
  match u with
  | delete => filter (fun kv => declares props (fst kv)) o
  | _ => o
  end.

(** What an object type makes of an array whose own properties the
    second pass has turned into [o']: the array itself when none of
    them has changed. An array that has lost elements (they are
    undeclared keys, which the rule [delete] removes and leaves holes
    for) or has been given properties (defaults) is written as the
    object of the own properties it is left with: that is all the
    loader can tell of it, by [typeof], by spreading it, by [for in] and
    by reading properties. *)
Definition array_output (items : list value) (o' : obj) : value :=
  if same (VObj o') (VObj (indexed 0 items)) then VArr items else VObj o'.

(** Second pass, on a value without errors: defaults are filled in,
    morphs run innermost first, undeclared keys are dropped where the
    rule is [delete]. *)
Fixpoint run (t : type) (v : value) : morph_result :=
  match t with
  | t_union a b => if allows a v then run a v else run b v
  | t_object u props =>
      match v with
      | VObj o =>
          match run_props run props o with
          | inl o' => Returned (VObj (keep u props o'))
          | inr msg => Thrown msg
          end
      | VArr items =>
          match run_props run props (indexed 0 items) with
          | inl o' => Returned (array_output items (keep u props o'))
          | inr msg => Thrown msg
          end
      | _ => Returned v
      end
  | t_pipe t' f => bind (run t' v) f
  | _ => Returned v
  end.

(** [a] is a prefix of [b]. *)
Fixpoint prefix_of (a b : list string) : bool :=
  match a, b with
  | [], _ => true
  | x :: a', y :: b' => andb (String.eqb x y) (prefix_of a' b')
  | _ :: _, [] => false
  end.

(** An error touches a path when it lies at the path, above it or
    below it. *)
Definition touches (errs : list error) (path : list string) : bool :=
  existsb (fun e => orb (prefix_of (fst e) path) (prefix_of path (fst e)))
    errs.

(** [run_props] with the path of the object, for the second pass
    beside errors. *)
Section RunPropsAt.
Variable run_at : type -> list string -> value -> morph_result.
Variable path : list string.

Fixpoint run_props_at (ps : list property) (acc : obj) : obj + string :=
  match ps with
  | [] => inl acc
  | (k, (pr, t')) :: ps' =>
      match lookup k acc with
      | Some x =>
          match run_at t' (path ++ [k]) x with
          | Returned x' => run_props_at ps' (set k x' acc)
          | Thrown msg => inr msg
          end
      | None =>
          match pr with
          | defaultable d => run_props_at ps' (set k d acc)
          | _ => run_props_at ps' acc
          end
      end
  end.
End RunPropsAt.

(** Second pass, on a value with the errors [errs]: as [run], but a
    morph at a path that an error touches does not run. What the
    other morphs are given is the value as [run] builds it below their
    path. *)
Fixpoint run_beside (errs : list error) (t : type) (path : list string)
    (v : value) : morph_result :=
  match t with
  | t_union a b =>
      if allows a v then run_beside errs a path v
      else run_beside errs b path v
  | t_object u props =>
      match v with
      | VObj o =>
          match run_props_at (run_beside errs) path props o with
          | inl o' => Returned (VObj (keep u props o'))
          | inr msg => Thrown msg
          end
      | VArr items =>
          match run_props_at (run_beside errs) path props
                  (indexed 0 items) with
          | inl o' => Returned (array_output items (keep u props o'))
          | inr msg => Thrown msg
          end
      | _ => Returned v
      end
  | t_pipe t' f =>
      match run_beside errs t' path v with
      | Returned v' => if touches errs path then Returned v' else f v'
      | Thrown msg => Thrown msg
      end
  | _ => Returned v
  end.

(** [t(v)]: an exception out of a morph escapes, also when there are
    errors. *)
Definition validate (t : type) (v : value) : result :=
  match check t [] v with
  | [] =>
      match run t v with
      | Returned out => Valid out
      | Thrown msg => Throws msg
      end
  | errs =>
      match run_beside errs t [] v with
      | Returned _ => Errors errs
      | Thrown msg => Throws msg
      end
  end.

End Validation.

(** Induction over types, through the properties of object types. *)
Section TypeInduction.
Variable P : type -> Prop.
Hypothesis Hstring : P t_string.
Hypothesis Hip : P t_string_ip.
Hypothesis Hurl : P t_string_url.
Hypothesis Hinteger : P t_integer.
Hypothesis Hboolean : P t_boolean.
Hypothesis Hnull : P t_null.
Hypothesis Hunit : forall lit, P (t_unit lit).
Hypothesis Hunion : forall a b, P a -> P b -> P (t_union a b).
Hypothesis Hobject :
  forall u props, Forall (fun p => P (snd (snd p))) props ->
                  P (t_object u props).
Hypothesis Hpipe : forall t f, P t -> P (t_pipe t f).

Fixpoint type_induction (t : type) : P t :=
  match t with
  | t_string => Hstring
  | t_string_ip => Hip
  | t_string_url => Hurl
  | t_integer => Hinteger
  | t_boolean => Hboolean
  | t_null => Hnull
  | t_unit lit => Hunit lit
  | t_union a b => Hunion a b (type_induction a) (type_induction b)
  | t_object u props =>
      Hobject u props
        ((fix all (ps : list property)
            : Forall (fun p => P (snd (snd p))) ps :=
            match ps with
            | [] => Forall_nil _
            | p :: ps' =>
                Forall_cons p (type_induction (snd (snd p))) (all ps')
            end) props)
  | t_pipe t' f => Hpipe t' f (type_induction t')
  end.
End TypeInduction.

End Ark.

(* ================================================================= *)
(** ** [schema.ts] *)

Module Schema.
Import Js Ark.

Section Types.
Variable K : Keywords.

(** [Number(v)] for the values that reach it, a string or a
    number. *)
Definition Number (v : value) : number :=
  match v with
  | VStr s => string_to_number K s
  | VNum n => n
  | VBool true => Int 1
  | VBool false | VNull => Int 0
  | _ => NaN
  end.

Definition stringToBool : type :=
  t_pipe (t_union t_string t_boolean)
    (fun v => Returned (VBool (truthy v))).

Definition agent_defaults : value :=
  VObj [("authkey", VStr "");
        ("ttl", VNum (Int 180000));
        ("cache_path", VStr "/var/lib/headplane/agent_cache.json")].

Definition serverConfig : type :=
  t_pipe
    (type_
       [("host", req t_string_ip);
        ("port",
          req (t_pipe (t_union t_string t_integer)
                 (fun v => Returned (VNum (Number v)))));
        ("cookie_secret",
          req (t_pipe (t_union t_string t_null)
                 (fun v =>
                    match v with
                    | VNull => Returned v
                    | VStr s =>
                        if Nat.eqb (length s) 32 then Returned v
                        else Thrown
                          "cookie_secret must be exactly 32 characters long"
                    | _ =>
                        Thrown
                          "cookie_secret must be exactly 32 characters long"
                    end)));
        ("cookie_secret_path", opt t_string);
        ("cookie_secure", req stringToBool);
        ("agent",
          default
            (onDeepUndeclaredKey reject
               (type_
                  [("authkey", default t_string (VStr ""));
                   ("ttl", default t_integer (VNum (Int 180000)));
                   ("cache_path",
                     default t_string
                       (VStr "/var/lib/headplane/agent_cache.json"))]))
            agent_defaults)])
    (fun v =>
       if Bool.eqb (loose_null (prop v "cookie_secret"))
                   (loose_null (prop v "cookie_secret_path"))
       then Thrown
         "Must specify either cookie_secret or cookie_secret_path, but not both"
       else Returned v).

Definition auth_method : type :=
  t_union (t_unit "client_secret_basic")
    (t_union (t_unit "client_secret_post") (t_unit "client_secret_jwt")).

Definition oidcConfig : type :=
  onDeepUndeclaredKey reject
    (t_pipe
       (type_
          [("issuer", req t_string_url);
           ("client_id", req t_string);
           ("client_secret", req (t_union t_string t_null));
           ("client_secret_path", opt t_string);
           ("token_endpoint_auth_method", req auth_method);
           ("redirect_uri", opt t_string_url);
           ("user_storage_file",
             default t_string (VStr "/var/lib/headplane/users.json"));
           ("disable_api_key_login", req stringToBool);
           ("headscale_api_key", req t_string);
           ("headscale_api_key_path", opt t_string);
           ("strict_validation", default stringToBool (VBool true))])
       (fun v =>
          if Bool.eqb (loose_null (prop v "client_secret"))
                      (loose_null (prop v "client_secret_path"))
          then Thrown
            "Must specify either client_secret or client_secret_path, but not both"
          else
            if Bool.eqb (loose_null (prop v "headscale_api_key"))
                        (loose_null (prop v "headscale_api_key_path"))
            then Thrown
              "Must specify either headscale_api_key or headscale_api_key_path, but not both"
            else Returned v)).

(** [v.endsWith('/') ? v.slice(0, -1) : v]. *)
Definition strip_slash (s : string) : string :=
  if endsWith "/" s then slice_0_m1 s else s.

Definition headscale_url_morph : morph :=
  fun v =>
    match v with
    | VStr s => Returned (VStr (strip_slash s))
    | _ => Returned v
    end.

Definition headscaleConfig : type :=
  onDeepUndeclaredKey reject
    (type_
       [("url", req (t_pipe t_string_url headscale_url_morph));
        ("tls_cert_path", opt t_string);
        ("public_url", opt t_string_url);
        ("config_path", opt t_string);
        ("config_strict", req stringToBool)]).

Definition containerLabel : presence * type :=
  opt (type_ [("name", req t_string); ("value", req t_string)]).

Definition dockerConfig : type :=
  type_
    [("enabled", req stringToBool);
     ("container_name", req t_string);
     ("socket", default t_string (VStr "unix:///var/run/docker.sock"));
     ("container_label", containerLabel)].

Definition kubernetesConfig : type :=
  type_
    [("enabled", req stringToBool);
     ("pod_name", req t_string);
     ("validate_manifest", req stringToBool)].

Definition procConfig : type :=
  type_ [("enabled", req stringToBool)].

Definition integrationConfig : type :=
  onDeepUndeclaredKey reject
    (type_
       [("docker", opt dockerConfig);
        ("kubernetes", opt kubernetesConfig);
        ("proc", opt procConfig)]).

(** "Define partial types by making all fields optional" *)
Definition partialServerConfig : type :=
  type_
    [("host", opt t_string_ip);
     ("port",
       opt (t_pipe (t_union t_string t_integer)
              (fun v =>
                 match v with
                 | VUndef => Returned v
                 | _ => Returned (VNum (Number v))
                 end)));
     ("cookie_secret", opt (t_union t_string t_null));
     ("cookie_secret_path", opt t_string);
     ("cookie_secure", req stringToBool);
     ("agent",
       opt (type_
              [("authkey", opt t_string);
               ("ttl", opt t_integer);
               ("cache_path", opt t_string)]))].

Definition partialOidcConfig : type :=
  type_
    [("issuer", opt t_string_url);
     ("client_id", opt t_string);
     ("client_secret", opt (t_union t_string t_null));
     ("client_secret_path", opt t_string);
     ("token_endpoint_auth_method", opt auth_method);
     ("redirect_uri", opt t_string_url);
     ("user_storage_file", opt t_string);
     ("disable_api_key_login", req stringToBool);
     ("headscale_api_key", opt t_string);
     ("headscale_api_key_path", opt t_string);
     ("strict_validation", req stringToBool)].

Definition partialHeadscaleConfig : type :=
  type_
    [("url",
       opt (t_pipe t_string_url
              (fun v =>
                 match v with
                 | VUndef => Returned v
                 | _ => headscale_url_morph v
                 end)));
     ("tls_cert_path", opt t_string);
     ("public_url", opt t_string_url);
     ("config_path", opt t_string);
     ("config_strict", req stringToBool)].

Definition partialIntegrationConfig : type :=
  type_
    [("docker",
       opt (type_
              [("enabled", req stringToBool);
               ("container_name", opt t_string);
               ("socket", opt t_string);
               ("container_label", containerLabel)]));
     ("kubernetes",
       opt (type_
              [("enabled", req stringToBool);
               ("pod_name", opt t_string);
               ("validate_manifest", req stringToBool)]));
     ("proc", opt (type_ [("enabled", req stringToBool)]))].

Definition headplaneConfig : type :=
  onDeepUndeclaredKey delete
    (type_
       [("debug", req stringToBool);
        ("server", req serverConfig);
        ("oidc", opt oidcConfig);
        ("integration", opt integrationConfig);
        ("headscale", req headscaleConfig)]).

Definition partialHeadplaneConfig : type :=
  type_
    [("debug", req stringToBool);
     ("server", req partialServerConfig);
     ("oidc", opt partialOidcConfig);
     ("integration", opt partialIntegrationConfig);
     ("headscale", req partialHeadscaleConfig)].

End Types.

End Schema.


(* ================================================================= *)
(** ** [loader.ts] *)

Module Loader.
Import Js Ark Schema.

(** *** The process and what it does to the outside *)

Inductive level : Type := debug | info | warn | error.

(** What the loader does that can be observed from outside, in the
    order it does it. [BuiltIn path value] is the walk of an override
    that goes on in the built-in objects to assign [value] there:
    [path] starts with the inherited key, such as [constructor], at
    which the walk left the override object. *)
Inductive event : Type :=
| Log (lvl : level) (format : string) (args : list value)
| Access (path : string)
| ReadFile (path : string)
| ConfigDotenv
| EnvEntries
| BuiltIn (path : list string) (value : string).

(** [parseDocument(data)] of the yaml package. *)
Record document : Type := {
  errors : list string;
  warnings : list string;
  toJSON : value
}.

(** What lies outside the process: the file system, the yaml parser,
    the entries of the [.env] file of the working directory, the debug
    switch of the logger, and the built-in objects of the runtime.

    [builtins before path value] says how a walk of [coalesceEnv] ends
    that has left the override object: at a key such as [constructor],
    which the operator [in] finds in every object, the walk steps into
    the function [Object] and goes on, and assigns, there. [path] is
    what was left of the path at that key, [before] the walks that
    went this way earlier in the call (they may have left properties
    behind). The answer is [true] when the walk ends in a [TypeError]:
    a step into, or an assignment to, what is not an object or cannot
    be written. What such an assignment does to the rest of the
    process, should it replace a built-in that other code relies on,
    is not followed any further. *)
Record Host : Type := {
  readable : string -> bool;
  contents : string -> option string;
  parseDocument : string -> document;
  dotenv : list (string * string);
  debugEnabled : bool;
  builtins : list (list string * string) -> list string -> string -> bool
}.

(** The process: its environment ([process.env], which [configDotenv]
    changes) and what it has done so far. *)
Record process : Type := {
  env : list (string * string);
  trace : list event
}.

(** How a call ends: with a value, by [exit(code)], or by an exception
    nobody catches. *)
Inductive outcome (A : Type) : Type :=
| Done (a : A)
| Exit (code : Z)
| Uncaught (msg : string).
Arguments Done {A} a.
Arguments Exit {A} code.
Arguments Uncaught {A} msg.

Definition M (A : Type) : Type := process -> outcome A * process.

Definition ret {A} (a : A) : M A := fun p => (Done a, p).

Definition bind {A B} (m : M A) (f : A -> M B) : M B :=
  fun p =>
    match m p with
    | (Done a, p') => f a p'
    | (Exit code, p') => (Exit code, p')
    | (Uncaught msg, p') => (Uncaught msg, p')
    end.

Notation "x <- m ;; k" := (bind m (fun x => k))
  (at level 61, m at next level, right associativity).
Notation "m ;; k" := (bind m (fun _ => k))
  (at level 61, right associativity).

Definition emit (e : event) : M unit :=
  fun p => (Done tt, {| env := env p; trace := trace p ++ [e] |}).

Definition log (lvl : level) (format : string) (args : list value)
  : M unit :=
  emit (Log lvl format args).

Definition exit {A} (code : Z) : M A := fun p => (Exit code, p).

Definition throw {A} (msg : string) : M A := fun p => (Uncaught msg, p).

(** [process.env[name]]. *)
Fixpoint env_lookup (name : string) (e : list (string * string))
  : option string :=
  match e with
  | [] => None
  | (k, v) :: rest => if String.eqb name k then Some v else env_lookup name rest
  end.

Definition getenv (name : string) : M (option string) :=
  fun p => (Done (env_lookup name (env p)), p).

(** [process.env[k] = v]. *)
Fixpoint env_set (k v : string) (e : list (string * string))
  : list (string * string) :=
  match e with
  | [] => [(k, v)]
  | (k', v') :: rest =>
      if String.eqb k k' then (k', v) :: rest else (k', v') :: env_set k v rest
  end.

Definition of_option (o : option string) : value :=
  match o with Some s => VStr s | None => VUndef end.

(** [x !== n] for a length [x]. *)
Definition length_differs (x : nat) (n : number) : bool :=
  match n with
  | Int z => negb (Z.eqb (Z.of_nat x) z)
  | _ => true
  end.

(** The files a trace reads, in order. *)
Fixpoint reads (t : list event) : list string :=
  match t with
  | [] => []
  | ReadFile path :: rest => path :: reads rest
  | _ :: rest => reads rest
  end.

(** The events of loading overrides: the [.env] file and the scan of
    the environment. *)
Definition override_event (e : event) : bool :=
  match e with
  | ConfigDotenv | EnvEntries => true
  | _ => false
  end.

(** The same host with other entries in its [.env] file. *)
Definition with_dotenv (entries : list (string * string)) (H : Host)
  : Host :=
  {| readable := readable H;
     contents := contents H;
     parseDocument := parseDocument H;
     dotenv := entries;
     debugEnabled := debugEnabled H;
     builtins := builtins H |}.

(** A computation is quiet when it leaves the environment alone and
    adds no event of loading overrides to the trace. *)
Definition quiet {A : Type} (m : M A) : Prop :=
  forall p,
    env (snd (m p)) = env p
    /\ exists evs,
         trace (snd (m p)) = trace p ++ evs
         /\ forallb (fun e => negb (override_event e)) evs = true.

Section Load.
Variable K : Keywords.
Variable H : Host.
(** [Object.values(envVariables)] of [./env], a module that is not
    among these sources: the names of the variables the caller reads
    itself. *)
Variable rootKeys : list string.

(** *** Secret files *)

(** The loop over [matches]: [None] is the early [return]. *)
Fixpoint interpolate (matches : list string) (resolvedPath : string)
  : M (option string) :=
  match matches with
  | [] => ret (Some resolvedPath)
  | match_ :: rest =>
      let env_name := slice_2_m1 match_ in
      value <- getenv env_name ;;
      if negb (truthy (of_option value)) then
        log error "Environment variable %s is not set" [VStr env_name] ;;
        ret None
      else
        let value := match value with Some v => v | None => "" end in
        log debug "Interpolating %s with %s" [VStr match_; VStr value] ;;
        interpolate rest (replace match_ value resolvedPath)
  end.

Definition readFile (path : string) : M (option string) :=
  emit (ReadFile path) ;; ret (contents H path).

Definition loadSecretFromFile (path secretName : string)
    (requiredLength : option number) : M (option string) :=
  resolved <- interpolate (match_markers path) path ;;
  match resolved with
  | None => ret None
  | Some resolvedPath =>
      log debug "Reading %s from %s" [VStr secretName; VStr resolvedPath] ;;
      read <- readFile resolvedPath ;;
      match read with
      | None =>
          log error "Failed to read %s from %s" [VStr secretName; VStr path] ;;
          log error "Error: %s" [] ;;
          log debug "Error details: %o" [] ;;
          ret None
      | Some secret =>
          if Nat.eqb (length (trim secret)) 0 then
            log error "Empty %s" [VStr secretName] ;;
            ret None
          else
            let trimmedSecret := trim secret in
            match requiredLength with
            | Some n =>
                if andb (truthy (VNum n))
                        (length_differs (length trimmedSecret) n)
                then
                  log error "%s must be exactly length %d (was %d)"
                    [VStr secretName; VNum n;
                     VNum (Int (Z.of_nat (length trimmedSecret)))] ;;
                  ret None
                else ret (Some trimmedSecret)
            | None => ret (Some trimmedSecret)
            end
      end
  end.

(** *** The configuration file *)

Definition validateConfigPath (path : string) : M bool :=
  emit (Access path) ;;
  if readable H path then
    log info "Found a valid configuration file at %s" [VStr path] ;;
    ret true
  else
    log error "Unable to read a configuration file at %s" [VStr path] ;;
    log error "%s" [] ;;
    ret false.

Fixpoint log_each (lvl : level) (lines : list string) : M unit :=
  match lines with
  | [] => ret tt
  | line :: rest => log lvl " - %s" [VStr line] ;; log_each lvl rest
  end.

Definition loadConfigFile (path : string) : M value :=
  log debug "Reading configuration file at %s" [VStr path] ;;
  read <- readFile path ;;
  match read with
  | None =>
      log error "Error reading configuration file at %s" [VStr path] ;;
      log error "%s" [] ;;
      ret (VBool false)
  | Some data =>
      let configYaml := parseDocument H data in
      match errors configYaml with
      | _ :: _ =>
          log error "Cannot parse configuration file at %s" [VStr path] ;;
          log_each error (errors configYaml) ;;
          ret (VBool false)
      | [] =>
          match warnings configYaml with
          | _ :: _ =>
              log warn "Warnings while parsing configuration file at %s"
                [VStr path] ;;
              log_each warn (warnings configYaml)
          | [] => ret tt
          end ;;
          ret (toJSON configYaml)
      end
  end.

Fixpoint log_errors (number : nat) (errs : list Ark.error) : M unit :=
  match errs with
  | [] => ret tt
  | (path, _) :: rest =>
      log error " - (%d): %s"
        [VNum (Int (Z.of_nat number)); VStr (String.concat "." path)] ;;
      log_errors (S number) rest
  end.

(** The two validators: [None] is [undefined]. *)
Definition validateConfig (config : value) : M (option value) :=
  log debug "Validating Headplane configuration" [] ;;
  match validate K (headplaneConfig K) config with
  | Valid result => ret (Some result)
  | Errors errs =>
      log error "Error validating Headplane configuration:" [] ;;
      log_errors 0 errs ;;
      ret None
  | Throws msg => throw msg
  end.

Definition coalesceConfig (config : value) : M (option value) :=
  log debug "Revalidating config after coalescing variables" [] ;;
  match validate K (partialHeadplaneConfig K) config with
  | Valid out => ret (Some out)
  | Errors errs =>
      log error "Error parsing variables:" [] ;;
      log_errors 0 errs ;;
      ret None
  | Throws msg => throw msg
  end.

(** *** Merging *)

(** One turn of the loop of [deepMerge] for a key of the source,
    [merged] being [deepMerge(result[key], val)]. *)
Definition merge_key (key : string) (val merged : value) (result : obj)
  : obj :=
  match val with
  | VUndef => result
  | _ => if typeof_object val then set key merged result
         else set key val result
  end.

(** The loop of [deepMerge] over the properties of an object and
    over the elements of an array (whose keys are their indices). *)
Section MergeLoop.
Variable deepMerge : value -> value -> value.

Fixpoint merge_entries (entries : obj) (result : obj) : obj :=
  match entries with
  | [] => result
  | (key, val) :: rest =>
      merge_entries rest
        (merge_key key val (deepMerge (get key result) val) result)
  end.

Fixpoint merge_items (i : nat) (elems : list value) (result : obj)
  : obj :=
  match elems with
  | [] => result
  | val :: rest =>
      merge_items (S i) rest
        (merge_key (index_key i) val
           (deepMerge (get (index_key i) result) val) result)
  end.
End MergeLoop.

(** [deepMerge(target, source)]. The loop runs over the own
    properties of the source: those of an object, the indices of an
    array, none of [null]. *)
Fixpoint deepMerge (target source : value) {struct source} : value :=
  match source with
  | VObj o =>
      if typeof_object target
      then VObj (merge_entries deepMerge o (spread target))
      else source
  | VArr items =>
      if typeof_object target
      then VObj (merge_items deepMerge 0 items (spread target))
      else source
  | VNull => if typeof_object target then VObj (spread target) else source
  | _ => source
  end.

(** *** Environment overrides *)

(** The test of the [filter] over [Object.entries(env)]. *)
Definition is_override (entry : string * string) : bool :=
  let (key, value) := entry in
  if negb (truthy (VStr value)) then false
  else if negb (startsWith "HEADPLANE_" key) then false
  else if existsb (String.eqb key) rootKeys then false
  else true.

(** [key.replace('HEADPLANE_', '').toLowerCase().split('__')]. *)
Definition configPath (key : string) : list string :=
  split_dunder (toLowerCase (replace "HEADPLANE_" "" key)).

(** How the walk of one variable ends: with the assignment, in the
    object as it then is; with the [TypeError] of a step into a value
    that is not an object (a string that an earlier variable put
    there); or outside the object, which is as the steps so far have
    made it, [path] being what was left of the path at the key where
    [in] held of an inherited property. *)
Inductive walk : Type :=
| Assigned (current : obj)
| Stuck
| Outside (current : obj) (path : list string).

(** The walk down [configPath] from [current] and the assignment at
    its end. The objects on the way are those the loop has made, which
    hold strings and objects only. A key that [current] has not as its
    own but inherits is not created: [current[path]] is then a built-in
    object, and the rest of the walk changes nothing in [current]. *)
Fixpoint assign_path (configPath : list string) (value : string)
    (current : obj) : walk :=
  match configPath with
  | [] => Assigned (set "undefined" (VStr value) current)
  | path :: rest =>
      match rest with
      | [] => Assigned (set path (VStr value) current)
      | _ :: _ =>
          let current' :=
            if has path current then current
            else set path (VObj []) current in
          match lookup path current' with
          | Some (VObj next) =>
              match assign_path rest value next with
              | Assigned next' => Assigned (set path (VObj next') current')
              | Stuck => Stuck
              | Outside next' path' =>
                  Outside (set path (VObj next') current') path'
              end
          | Some _ => Stuck
          | None => Outside current' configPath
          end
      end
  end.

Fixpoint stars (n : nat) : string :=
  match n with
  | O => EmptyString
  | S n' => String "*" (stars n')
  end.

(** The rest of a walk that has left the override object. *)
Definition walk_builtins (before : list (list string * string))
    (path : list string) (value : string) : M unit :=
  emit (BuiltIn path value) ;;
  if builtins H before path value then throw "TypeError" else ret tt.

(** The loop over [vars], [before] being the walks that have left the
    override object so far. *)
Fixpoint assign_from (before : list (list string * string))
    (vars : list (string * string)) (envConfig : obj) : M obj :=
  match vars with
  | [] => ret envConfig
  | (key, value) :: rest =>
      log debug (" - " ++ key ++ "=" ++ stars (length value))%string [] ;;
      match assign_path (configPath key) value envConfig with
      | Assigned envConfig' => assign_from before rest envConfig'
      | Stuck => throw "TypeError"
      | Outside envConfig' path =>
          walk_builtins before path value ;;
          assign_from (before ++ [(path, value)]) rest envConfig'
      end
  end.

Definition assign_vars (vars : list (string * string)) (envConfig : obj)
  : M obj :=
  assign_from [] vars envConfig.

Definition entries : M (list (string * string)) :=
  fun p => (Done (env p), {| env := env p; trace := trace p ++ [EnvEntries] |}).

Definition coalesceEnv (config : value) : M (option value) :=
  all <- entries ;;
  let vars := filter is_override all in
  log debug "Coalescing %s environment variables"
    [VNum (Int (Z.of_nat (List.length vars)))] ;;
  envConfig <- assign_vars vars [] ;;
  toMerge <- coalesceConfig (VObj envConfig) ;;
  match toMerge with
  | None => ret None
  | Some toMerge => ret (Some (deepMerge config toMerge))
  end.

(** *** [loadConfig] *)

(** [configDotenv({ override: true })]: the entries of the [.env]
    file replace what the environment holds. *)
Definition configDotenv : M unit :=
  fun p =>
    (Done tt,
     {| env := fold_left (fun e kv => env_set (fst kv) (snd kv) e)
                 (dotenv H) (env p);
        trace := trace p ++ [ConfigDotenv] |}).

(** [config.section.field = v]. *)
Definition set_field (section field : string) (v : value) (config : value)
  : value :=
  match config with
  | VObj o =>
      match get section o with
      | VObj sec => VObj (set section (VObj (set field v sec)) o)
      | _ => config
      end
  | _ => config
  end.

(** One of the three blocks that read a secret from the file a
    [_path] field names. *)
Definition resolveSecret (section path_field field secretName : string)
    (requiredLength : option number) (config : value) : M value :=
  match prop (prop config section) path_field with
  | VStr path =>
      if truthy (VStr path) then
        secret <- loadSecretFromFile path secretName requiredLength ;;
        if negb (truthy (of_option secret)) then exit 1
        else ret (set_field section field (of_option secret) config)
      else ret config
  | _ => ret config
  end.

(** The stages up to the test of [loadEnv]. *)
Definition loadBase (path : string) : M value :=
  log debug "Loading configuration file: %s" [VStr path] ;;
  valid <- validateConfigPath path ;;
  if negb valid then exit 1 else
  data <- loadConfigFile path ;;
  if negb (truthy data) then exit 1 else
  config <- validateConfig
              (VObj (set "debug" (VBool (debugEnabled H)) (spread data))) ;;
  match config with
  | None => exit 1
  | Some config =>
      config <- resolveSecret "server" "cookie_secret_path"
                  "cookie_secret" "cookie secret" (Some (Int 32)) config ;;
      config <- resolveSecret "oidc" "client_secret_path"
                  "client_secret" "OIDC client secret" None config ;;
      resolveSecret "oidc" "headscale_api_key_path"
        "headscale_api_key" "headscale API key" None config
  end.

Definition loadConfig (loadEnv : bool) (path : string) : M value :=
  config <- loadBase path ;;
  if negb loadEnv then
    log debug "Environment variable overrides are disabled" [] ;;
    log debug "This also disables the loading of a .env file" [] ;;
    ret config
  else
    log info "Loading a .env file (if available)" [] ;;
    configDotenv ;;
    config <- coalesceEnv config ;;
    match config with
    | None => exit 1
    | Some config => ret config
    end.

End Load.

End Loader.

(* ================================================================= *)
(** ** Markers in a secret path, as the specification reads them *)

Module Markers.
Import Js Loader.









End Markers.

(* ================================================================= *)
(** ** Shapes of documents and of computations *)

(** What the properties further down say about whole documents and
    whole runs: the shape of the object built from the environment,
    paths an override does not reach, outputs without undeclared keys,
    and how a computation may end. *)

Module Shapes.
Import Js Ark Schema Loader.

(** Induction over values, through the elements of arrays and the
    properties of objects. *)
Section ValueInduction.
Variable P : value -> Prop.
Hypothesis Hundef : P VUndef.
Hypothesis Hnull : P VNull.
Hypothesis Hbool : forall b, P (VBool b).
Hypothesis Hnum : forall n, P (VNum n).
Hypothesis Hstr : forall s, P (VStr s).
Hypothesis Harr : forall items, Forall P items -> P (VArr items).
Hypothesis Hobj :
  forall o, Forall (fun kv => P (snd kv)) o -> P (VObj o).

Fixpoint value_induction (v : value) : P v :=
  match v with
  | VUndef => Hundef
  | VNull => Hnull
  | VBool b => Hbool b
  | VNum n => Hnum n
  | VStr s => Hstr s
  | VArr items =>
      Harr items
        ((fix all (vs : list value) : Forall P vs :=
            match vs with
            | [] => Forall_nil _
            | x :: vs' => Forall_cons x (value_induction x) (all vs')
            end) items)
  | VObj o =>
      Hobj o
        ((fix all (kvs : obj) : Forall (fun kv => P (snd kv)) kvs :=
            match kvs with
            | [] => Forall_nil _
            | kv :: kvs' =>
                Forall_cons kv (value_induction (snd kv)) (all kvs')
            end) o)
  end.
End ValueInduction.

(** The names of a list are pairwise distinct. *)
Fixpoint distinct (ks : list string) : bool :=
  match ks with
  | [] => true
  | k :: rest => andb (negb (existsb (String.eqb k) rest)) (distinct rest)
  end.

(** Every object of [v] has pairwise distinct property names. *)
Fixpoint wf_value (v : value) : bool :=
  match v with
  | VObj o =>
      andb (distinct (keys o)) (forallb (fun kv => wf_value (snd kv)) o)
  | VArr items => forallb wf_value items
  | _ => true
  end.

(** The objects on the way down [path] from [v] have pairwise
    distinct property names. *)
Fixpoint distinct_along (path : list string) (v : value) : bool :=
  match path with
  | [] => true
  | k :: rest =>
      match v with
      | VObj o =>
          andb (distinct (keys o))
               match lookup k o with
               | Some x => distinct_along rest x
               | None => true
               end
      | _ => true
      end
  end.

(** Objects over strings only, as the loop over the environment
    builds them. *)
Fixpoint env_shaped (v : value) : bool :=
  match v with
  | VStr _ => true
  | VObj o => forallb (fun kv => env_shaped (snd kv)) o
  | _ => false
  end.

(** Objects over strings, numbers and booleans: no [null], no array,
    no [undefined]. *)
Fixpoint scalar_tree (v : value) : bool :=
  match v with
  | VStr _ | VNum _ | VBool _ => true
  | VObj o => forallb (fun kv => scalar_tree (snd kv)) o
  | _ => false
  end.

(** The walk down [path] from [v] comes to an object that lacks the
    next key: [v] holds nothing at [path] nor above it. *)
Fixpoint misses (path : list string) (v : value) : bool :=
  match path with
  | [] => false
  | k :: rest =>
      match v with
      | VObj o =>
          match lookup k o with
          | Some x => misses rest x
          | None => true
          end
      | _ => false
      end
  end.

(** [v] holds a string at [path] or above it. *)
Fixpoint string_on_the_way (path : list string) (v : value) : bool :=
  match path with
  | [] => false
  | k :: rest =>
      match v with
      | VObj o =>
          match lookup k o with
          | Some (VStr _) => true
          | Some x => string_on_the_way rest x
          | None => false
          end
      | _ => false
      end
  end.

(** A string holds the separator [__]. *)
Fixpoint has_dunder (s : string) : bool :=
  match s with
  | EmptyString => false
  | String c rest =>
      match rest with
      | String d _ =>
          orb (andb (Ascii.eqb c "_") (Ascii.eqb d "_")) (has_dunder rest)
      | EmptyString => false
      end
  end.

(** The declared keys of an object type against the properties of an
    output [o]: what stands at a declared key is pruned in turn. *)
Section PrunedProps.
Variable pruned : type -> value -> bool.
Variable o : obj.

Fixpoint pruned_props (ps : list property) : bool :=
  match ps with
  | [] => true
  | (k, (_, t')) :: ps' =>
      andb match lookup k o with
           | Some x => pruned t' x
           | None => true
           end
           (pruned_props ps')
  end.
End PrunedProps.

(** No object of [v] that stands where [t] has an object type holds a
    key that the object type does not declare. *)
Fixpoint pruned (t : type) (v : value) : bool :=
  match t with
  | t_union a b => orb (pruned a v) (pruned b v)
  | t_object _ props =>
      match v with
      | VObj o =>
          andb (forallb (declares props) (keys o))
               (pruned_props pruned o props)
      | _ => true
      end
  | t_pipe t' _ => pruned t' v
  | _ => true
  end.

(** What it takes for the output of [t] to be pruned: every object
    type of [t] has the rule [delete] and distinct keys, its defaults
    are pruned, and its morphs keep pruned values pruned. *)
Section PrunesProps.
Variable prunes : type -> Prop.

Fixpoint prunes_props (ps : list property) : Prop :=
  match ps with
  | [] => True
  | (_, (pr, t')) :: ps' =>
      (prunes t'
       /\ match pr with
          | defaultable d => pruned t' d = true
          | _ => True
          end)
      /\ prunes_props ps'
  end.
End PrunesProps.

Fixpoint prunes (t : type) : Prop :=
  match t with
  | t_union a b => prunes a /\ prunes b
  | t_object u props =>
      u = delete /\ NoDup (map fst props) /\ prunes_props prunes props
  | t_pipe t' f =>
      prunes t'
      /\ forall v out, f v = Returned out -> pruned t' v = true ->
                       pruned t' out = true
  | _ => True
  end.

(** Every exception out of a morph of [t] carries a message of
    [messages]. *)
Section ThrowsProps.
Variable throws_within : type -> Prop.

Fixpoint throws_props (ps : list property) : Prop :=
  match ps with
  | [] => True
  | (_, (_, t')) :: ps' => throws_within t' /\ throws_props ps'
  end.
End ThrowsProps.

Fixpoint throws_within (messages : list string) (t : type) : Prop :=
  match t with
  | t_union a b => throws_within messages a /\ throws_within messages b
  | t_object _ props => throws_props (throws_within messages) props
  | t_pipe t' f =>
      throws_within messages t'
      /\ forall v msg, f v = Thrown msg -> In msg messages
  | _ => True
  end.

(** [path] leads through declared keys of [t] to a required one. *)
Fixpoint requires (t : type) (path : list string) : bool :=
  match path with
  | [] => false
  | k :: rest =>
      match find_property k (properties t) with
      | Some (pr, t') =>
          match rest with
          | [] => match pr with required => true | _ => false end
          | _ :: _ => requires t' rest
          end
      | None => false
      end
  end.

(** The default of the key that [path] leads to in [t]. *)
Fixpoint default_at (t : type) (path : list string) : option value :=
  match path with
  | [] => None
  | k :: rest =>
      match find_property k (properties t) with
      | Some (pr, t') =>
          match rest with
          | [] => match pr with defaultable d => Some d | _ => None end
          | _ :: _ => default_at t' rest
          end
      | None => None
      end
  end.

(** [v] holds objects all the way down [path] but for its last key,
    which the last object lacks. *)
Fixpoint lacks (path : list string) (v : value) : bool :=
  match path with
  | [] => false
  | k :: rest =>
      match v with
      | VObj o =>
          match lookup k o with
          | Some x => match rest with [] => false | _ :: _ => lacks rest x end
          | None => match rest with [] => true | _ :: _ => false end
          end
      | _ => false
      end
  end.

(** The morphs of [t] itself, those above its object type, return
    their argument when they return. *)
Fixpoint morphs_return (t : type) : Prop :=
  match t with
  | t_pipe t' f =>
      morphs_return t' /\ forall v out, f v = Returned out -> out = v
  | _ => True
  end.

(** On the way down [path], the object types of [t] have distinct
    keys and morphs that return their argument. *)
Fixpoint transparent (t : type) (path : list string) : Prop :=
  match path with
  | [] => True
  | k :: rest =>
      morphs_return t /\ NoDup (map fst (properties t))
      /\ match find_property k (properties t) with
         | Some (_, t') => transparent t' rest
         | None => True
         end
  end.

(** The keys that [schema.ts] requires, by path: those of a section
    are required when the section is there. *)
Definition required_fields : list (list string) :=
  [["debug"]; ["server"]; ["headscale"];
   ["server"; "host"]; ["server"; "port"]; ["server"; "cookie_secret"];
   ["server"; "cookie_secure"];
   ["oidc"; "issuer"]; ["oidc"; "client_id"]; ["oidc"; "client_secret"];
   ["oidc"; "token_endpoint_auth_method"];
   ["oidc"; "disable_api_key_login"]; ["oidc"; "headscale_api_key"];
   ["headscale"; "url"]; ["headscale"; "config_strict"];
   ["integration"; "docker"; "enabled"];
   ["integration"; "docker"; "container_name"];
   ["integration"; "docker"; "container_label"; "name"];
   ["integration"; "docker"; "container_label"; "value"];
   ["integration"; "kubernetes"; "enabled"];
   ["integration"; "kubernetes"; "pod_name"];
   ["integration"; "kubernetes"; "validate_manifest"];
   ["integration"; "proc"; "enabled"]].

(** The defaults of [schema.ts], by path. *)
Definition schema_defaults : list (list string * value) :=
  [(["server"; "agent"], agent_defaults);
   (["server"; "agent"; "authkey"], VStr "");
   (["server"; "agent"; "ttl"], VNum (Int 180000));
   (["server"; "agent"; "cache_path"],
     VStr "/var/lib/headplane/agent_cache.json");
   (["oidc"; "user_storage_file"], VStr "/var/lib/headplane/users.json");
   (["oidc"; "strict_validation"], VBool true);
   (["integration"; "docker"; "socket"],
     VStr "unix:///var/run/docker.sock")].

(** How a computation may end: if by [exit], with the code 1; if by
    an exception, with a message of [messages]. *)
Definition ends_within {A : Type} (messages : list string) (m : M A)
  : Prop :=
  forall p,
    match fst (m p) with
    | Done _ => True
    | Exit code => code = 1%Z
    | Uncaught msg => In msg messages
    end.

(** Two computations end alike on processes with the same
    environment: in the same way, and leaving the same environment.
    What the traces hold plays no part. *)
Definition alike {A : Type} (m1 m2 : M A) : Prop :=
  forall p q,
    env p = env q ->
    fst (m1 p) = fst (m2 q) /\ env (snd (m1 p)) = env (snd (m2 q)).

(** The same host with a parser that gives no warnings. *)
Definition without_warnings (H : Host) : Host :=
  {| readable := readable H;
     contents := contents H;
     parseDocument := fun data =>
       {| errors := errors (parseDocument H data);
          warnings := [];
          toJSON := toJSON (parseDocument H data) |};
     dotenv := dotenv H;
     debugEnabled := debugEnabled H;
     builtins := builtins H |}.

(** A computation reads at most [n] files. *)
Definition reads_at_most {A : Type} (n : nat) (m : M A) : Prop :=
  forall p,
    exists new,
      reads (trace (snd (m p))) = reads (trace p) ++ new
      /\ List.length new <= n.

(** The four messages of the exceptions of [schema.ts]. *)
Definition schema_messages : list string :=
  ["cookie_secret must be exactly 32 characters long";
   "Must specify either cookie_secret or cookie_secret_path, but not both";
   "Must specify either client_secret or client_secret_path, but not both";
   "Must specify either headscale_api_key or headscale_api_key_path, but not both"].

End Shapes.

(* ================================================================= *)
(** ** Documents and settings used in the examples *)

Module Examples.
Import Js Ark Schema Loader.

(** Keywords for the examples: the unspecified address counts as an
    IP address, and a string with an http or https scheme as a URL, as
    the platform parser accepts both. *)
Definition keywords : Keywords :=
  {| string_ip := fun s => String.eqb s "0.0.0.0";
     string_url := fun s =>
       orb (String.prefix "http://" s) (String.prefix "https://" s);
     string_to_number := fun s =>
       if String.eqb s "8080" then Int 8080 else NaN |}.

Definition cookie32 : string := "0123456789abcdef0123456789abcdef".

Definition server : value :=
  VObj [("host", VStr "0.0.0.0");
        ("port", VNum (Int 3000));
        ("cookie_secret", VStr cookie32);
        ("cookie_secure", VBool true)].

Definition headscale (url : string) : value :=
  VObj [("url", VStr url); ("config_strict", VBool true)].

(** A minimal document, with the [debug] flag the loader adds. *)
Definition minimal (url : string) : value :=
  VObj [("debug", VBool false);
        ("server", server);
        ("headscale", headscale url)].

Definition oidc (extra : obj) : value :=
  VObj ([("issuer", VStr "https://idp.example.com");
         ("client_id", VStr "headplane");
         ("client_secret", VStr "s3cret");
         ("token_endpoint_auth_method", VStr "client_secret_basic");
         ("disable_api_key_login", VBool false)] ++ extra).

Definition with_section (name : string) (section : value) : value :=
  VObj [("debug", VBool false);
        ("server", server);
        (name, section);
        ("headscale", headscale "https://hs.example.com")].

Definition docker (extra : obj) : value :=
  VObj [("docker",
         VObj ([("enabled", VBool true); ("container_name", VStr "headscale")]
               ++ extra))].

(** The fields of the full schema that hold a boolean. *)
Definition boolean_fields : list (list string) :=
  [["debug"];
   ["server"; "cookie_secure"];
   ["oidc"; "disable_api_key_login"];
   ["oidc"; "strict_validation"];
   ["headscale"; "config_strict"];
   ["integration"; "docker"; "enabled"];
   ["integration"; "kubernetes"; "enabled"];
   ["integration"; "kubernetes"; "validate_manifest"];
   ["integration"; "proc"; "enabled"]].

(** Modelled from the spec: the values of [envVariables] of [./env],
    which is not among the sources. The spec names the variable of the
    configuration path and the one that switches overrides on. *)
Definition roots : list string :=
  ["HEADPLANE_CONFIG_PATH"; "HEADPLANE_LOAD_ENV_OVERRIDES"].

Definition config_file : string := "/etc/headplane/config.yaml".

(** The document of the configuration file: the cookie secret comes
    from a file under the directory that [CREDENTIALS_DIRECTORY]
    names. *)
Definition file_document : value :=
  VObj [("server",
         VObj [("host", VStr "0.0.0.0");
               ("port", VNum (Int 3000));
               ("cookie_secret", VNull);
               ("cookie_secret_path",
                 VStr "${CREDENTIALS_DIRECTORY}/cookie");
               ("cookie_secure", VBool true)]);
        ("headscale", headscale "https://hs.example.com/")].

Definition newline : string := String (ascii_of_nat 10) EmptyString.

Definition host : Host :=
  {| readable := fun path => String.eqb path config_file;
     contents := fun path =>
       if String.eqb path config_file then Some "server: ..."
       else if String.eqb path "/run/credentials/cookie"
            then Some (cookie32 ++ newline)%string
            else None;
     parseDocument := fun _ =>
       {| errors := []; warnings := []; toJSON := file_document |};
     dotenv := [("HEADPLANE_SERVER__PORT", "8080")];
     debugEnabled := false;
     builtins := fun _ _ _ => false |}.

Definition started (env : list (string * string)) : process :=
  {| env := env; trace := [] |}.

(** The document the loader returns for [file_document] when overrides
    are off. *)
Definition loaded : value :=
  VObj [("server",
         VObj [("host", VStr "0.0.0.0");
               ("port", VNum (Int 3000));
               ("cookie_secret", VStr cookie32);
               ("cookie_secret_path",
                 VStr "${CREDENTIALS_DIRECTORY}/cookie");
               ("cookie_secure", VBool true);
               ("agent", agent_defaults)]);
        ("headscale", headscale "https://hs.example.com");
        ("debug", VBool false)].

End Examples.

(** The environment of a run with overrides on, and the document it
    ends with: the port comes from the [.env] file of [host]. *)
Module Cases.
Import Js Ark Schema Loader Examples.



(** A host whose configuration file parses to a document that the
    schema rejects. *)
Definition rejecting_host : Host :=
  {| readable := readable host;
     contents := contents host;
     parseDocument := fun _ =>
       {| errors := []; warnings := [];
          toJSON := VObj [("server", VStr "x")] |};
     dotenv := [];
     debugEnabled := false;
     builtins := fun _ _ _ => false |}.

(** A document with an [oidc] section whose client secret comes from
    a file, a host whose configuration file holds it, and the document
    the loader ends with. *)
Definition oidc_document : value :=
  with_section "oidc"
    (VObj [("issuer", VStr "https://idp.example.com");
           ("client_id", VStr "headplane");
           ("client_secret", VNull);
           ("client_secret_path", VStr "/run/credentials/cookie");
           ("token_endpoint_auth_method", VStr "client_secret_basic");
           ("disable_api_key_login", VBool false);
           ("headscale_api_key", VStr "key")]).

Definition oidc_host : Host :=
  {| readable := readable host;
     contents := contents host;
     parseDocument := fun _ =>
       {| errors := []; warnings := []; toJSON := oidc_document |};
     dotenv := [];
     debugEnabled := false;
     builtins := fun _ _ _ => false |}.

Definition oidc_loaded : value :=
  VObj [("debug", VBool false);
        ("server",
          VObj [("host", VStr "0.0.0.0");
                ("port", VNum (Int 3000));
                ("cookie_secret", VStr cookie32);
                ("cookie_secure", VBool true);
                ("agent", agent_defaults)]);
        ("oidc",
          VObj [("issuer", VStr "https://idp.example.com");
                ("client_id", VStr "headplane");
                ("client_secret", VStr cookie32);
                ("client_secret_path", VStr "/run/credentials/cookie");
                ("token_endpoint_auth_method", VStr "client_secret_basic");
                ("disable_api_key_login", VBool false);
                ("headscale_api_key", VStr "key");
                ("user_storage_file", VStr "/var/lib/headplane/users.json");
                ("strict_validation", VBool true)]);
        ("headscale", headscale "https://hs.example.com")].

(** A host whose configuration file parses to [doc]. *)
Definition host_of (doc : value) : Host :=
  {| readable := readable host;
     contents := contents host;
     parseDocument := fun _ =>
       {| errors := []; warnings := []; toJSON := doc |};
     dotenv := [];
     debugEnabled := false;
     builtins := fun _ _ _ => false |}.

(** A server section with a cookie secret of five characters. *)
Definition short_secret : value :=
  VObj [("host", VStr "0.0.0.0"); ("port", VNum (Int 3000));
        ("cookie_secret", VStr "short"); ("cookie_secure", VBool true)].

(** A file of the cookie secret between a no-break space and a
    newline. *)
Definition padded_secret : string :=
  (String (ascii_of_nat 160) cookie32 ++ newline)%string.

(** A host whose configuration file holds the minimal document, with
    the cookie secret inline. *)
Definition minimal_host : Host :=
  {| readable := readable host;
     contents := contents host;
     parseDocument := fun _ =>
       {| errors := []; warnings := [];
          toJSON := minimal "https://hs.example.com/" |};
     dotenv := [];
     debugEnabled := true;
     builtins := fun _ _ _ => false |}.

End Cases.

(* ================================================================= *)
(** * Properties *)

Import Js Ark Schema Loader.

(** ** Objects *)

Lemma lookup_set_same k v o : lookup k (set k v o) = Some v.
Proof.
  induction o as [|[k' v'] o IH]; simpl.
  - now rewrite String.eqb_refl.
  - destruct (String.eqb k k') eqn:E; simpl; rewrite E; auto.
Qed.

Lemma lookup_set_other k k' v o :
  k <> k' -> lookup k (set k' v o) = lookup k o.
Proof.
  intros Hne. induction o as [|[k2 v2] o IH]; simpl.
  - apply String.eqb_neq in Hne. now rewrite Hne.
  - destruct (String.eqb k' k2) eqn:E; simpl.
    + apply String.eqb_eq in E. subst k2.
      apply String.eqb_neq in Hne. now rewrite Hne.
    + now rewrite IH.
Qed.

Lemma get_set_same k v o : get k (set k v o) = v.
Proof. unfold get. now rewrite lookup_set_same. Qed.

Lemma get_set_other k k' v o : k <> k' -> get k (set k' v o) = get k o.
Proof. intros. unfold get. now rewrite lookup_set_other. Qed.

Lemma lookup_filter_keys (keep : string -> bool) k o :
  keep k = true ->
  lookup k (filter (fun kv => keep (fst kv)) o) = lookup k o.
Proof.
  intros Hk. induction o as [|[k' v'] o IH]; simpl; auto.
  destruct (String.eqb k k') eqn:E.
  - apply String.eqb_eq in E. subst k'. rewrite Hk. simpl.
    now rewrite String.eqb_refl.
  - destruct (keep k'); simpl; auto. now rewrite E.
Qed.

Lemma lookup_In k v o : lookup k o = Some v -> In (k, v) o.
Proof.
  induction o as [|[k' v'] o IH]; simpl; try discriminate.
  destruct (String.eqb k k') eqn:E.
  - apply String.eqb_eq in E. intros [= ->]. left. now subst.
  - auto.
Qed.

Lemma lookup_None_keys k o : lookup k o = None <-> ~ In k (keys o).
Proof.
  induction o as [|[k' v'] o IH]; simpl.
  - tauto.
  - destruct (String.eqb k k') eqn:E.
    + apply String.eqb_eq in E. subst. split; [discriminate | tauto].
    + apply String.eqb_neq in E. rewrite IH. intuition congruence.
Qed.

(** Values that are written alike are equal. *)
Lemma same_sound v : forall w, same v w = true -> v = w.
Proof.
  induction v as [| |b|n|s|items IH|o IH] using Shapes.value_induction;
    intros w; destruct w as [| |b'|n'|s'|items'|o']; try discriminate;
    cbn [same]; try reflexivity.
  - intros E. apply Bool.eqb_prop in E. now subst.
  - destruct n as [z| |l], n' as [z'| |l']; try discriminate; cbn;
      try reflexivity.
    + intros E. apply Z.eqb_eq in E. now subst.
    + intros E. apply String.eqb_eq in E. now subst.
  - intros E. apply String.eqb_eq in E. now subst.
  - revert items'. induction IH as [|x items Hx _ IHitems];
      intros [|y items']; try discriminate; [reflexivity|].
    intros E. apply andb_prop in E. destruct E as [E1 E2].
    apply Hx in E1. subst y. specialize (IHitems _ E2).
    now injection IHitems as <-.
  - revert o'. induction IH as [|[k x] o Hx _ IHo];
      intros [|[k' y] o']; try discriminate; [reflexivity|].
    intros E. apply andb_prop in E. destruct E as [E1 E].
    apply andb_prop in E. destruct E as [E2 E3].
    apply String.eqb_eq in E1. subst k'. cbn [snd] in Hx.
    apply Hx in E2. subst y. specialize (IHo _ E3).
    now injection IHo as <-.
Qed.

(** What an object type makes of an array is the array, or an object
    that holds what the pass has left of its properties. *)
Lemma array_output_cases items o' :
  (array_output items o' = VArr items /\ o' = indexed 0 items)
  \/ array_output items o' = VObj o'.
Proof.
  unfold array_output.
  destruct (same (VObj o') (VObj (indexed 0 items))) eqn:E; [|now right].
  apply same_sound in E. injection E as ->. now left.
Qed.

(** ** Types *)

(** [onDeepUndeclaredKey] leaves one rule in a type: its own. *)
Lemma onDeepUndeclaredKey_rules rule t :
  Forall (eq rule) (rules (onDeepUndeclaredKey rule t)).
Proof.
  induction t using type_induction; simpl; auto.
  - apply Forall_app; auto.
  - constructor; auto.
    induction H as [|p ps Hp _ IH]; simpl; auto.
    apply Forall_app; auto.
Qed.

(** ** Validation of object types *)

Section ObjectTypes.
Variable K : Keywords.

Lemma validate_Valid t v out :
  validate K t v = Valid out ->
  check K t [] v = [] /\ run K t v = Returned out.
Proof.
  unfold validate. destruct (check K t [] v).
  - destruct (run K t v); try discriminate. now intros [= ->].
  - destruct (run_beside K _ t [] v); discriminate.
Qed.

(** A value with errors: the errors are the result unless a morph
    beside them throws. *)
Lemma validate_errors t v :
  check K t [] v <> [] ->
  match run_beside K (check K t [] v) t [] v with
  | Returned _ => validate K t v = Errors (check K t [] v)
  | Thrown msg => validate K t v = Throws msg
  end.
Proof.
  unfold validate. destruct (check K t [] v) as [|e errs]; [congruence|].
  intros _. now destruct (run_beside K (e :: errs) t [] v).
Qed.

(** An array has no property with a name that does not start with a
    digit. *)
Lemma index_key_digit i :
  exists c rest, index_key i = String c rest /\ named (index_key i) = false.
Proof.
  unfold index_key.
  assert (Hn : Nat.to_uint i <> Decimal.Nil).
  { rewrite <- (DecimalNat.Unsigned.of_to i) at 1.
    rewrite DecimalNat.Unsigned.to_of. apply DecimalFacts.unorm_nonnil. }
  destruct (Nat.to_uint i); try congruence; simpl; eauto.
Qed.

Lemma lookup_indexed_named k items : forall from,
  named k = true -> lookup k (indexed from items) = None.
Proof.
  induction items as [|x items IH]; intros from Hk; simpl; auto.
  destruct (String.eqb k (index_key from)) eqn:E; auto.
  apply String.eqb_eq in E. subst k.
  destruct (index_key_digit from) as (c & rest & _ & Hd). congruence.
Qed.

(** An anchored object type reports a missing key on an object that
    has no property with a name of a key. *)
Lemma check_props_anchored chk path o ps :
  anchored ps = true ->
  (forall k, named k = true -> lookup k o = None) ->
  check_props chk path o ps <> [].
Proof.
  induction ps as [|[k [pr t]] ps IH]; simpl; try discriminate.
  intros Ha Hn. apply Bool.orb_true_iff in Ha.
  destruct Ha as [Ha|Ha].
  - destruct pr; try discriminate. rewrite (Hn k Ha). discriminate.
  - intros H. apply app_eq_nil in H. destruct H as [_ H].
    now apply (IH Ha Hn).
Qed.

(** A value without errors against an object type is an object or an
    array. *)
Lemma check_object_shape u props path v :
  check K (t_object u props) path v = [] ->
  (exists o, v = VObj o) \/ (exists items, v = VArr items).
Proof. simpl. destruct v; try discriminate; eauto. Qed.

Lemma check_object_nil u props path v :
  anchored props = true ->
  check K (t_object u props) path v = [] ->
  exists o, v = VObj o
            /\ check_props (check K) path o props = []
            /\ check_undeclared u props path o = [].
Proof.
  intros Ha. simpl. destruct v; try discriminate.
  - intros H. apply app_eq_nil in H. destruct H as [H _].
    exfalso. revert H. apply check_props_anchored; auto.
    intros k Hk. now apply lookup_indexed_named.
  - intros H. apply app_eq_nil in H. destruct H. eauto.
Qed.

(** The same of an object, whatever its type requires. *)
Lemma check_VObj_nil u props path o :
  check K (t_object u props) path (VObj o) = [] ->
  check_props (check K) path o props = []
  /\ check_undeclared u props path o = [].
Proof. simpl. intros H. apply app_eq_nil in H. exact H. Qed.

(** A key of an object type without errors: its value, when present,
    has no errors, and it is present when required. *)
Lemma check_props_nil chk path o ps k pr t :
  check_props chk path o ps = [] ->
  In (k, (pr, t)) ps ->
  match lookup k o with
  | Some x => chk t (path ++ [k]) x = []
  | None => pr <> required
  end.
Proof.
  induction ps as [|[k' [pr' t']] ps IH]; simpl; [tauto|].
  intros H Hin. apply app_eq_nil in H. destruct H as [H1 H2].
  destruct Hin as [[= -> -> ->]|Hin]; [|now apply IH].
  destruct (lookup k o); auto.
  destruct pr; simpl in *; try discriminate; congruence.
Qed.

(** What [run_props] leaves under the keys: a declared key holds the
    morphed value or the default, another key is untouched. *)
Lemma run_props_lookup r ps : forall acc acc',
  NoDup (map fst ps) ->
  run_props r ps acc = inl acc' ->
  (forall k pr t, In (k, (pr, t)) ps ->
     match lookup k acc with
     | Some x => exists x', r t x = Returned x' /\ lookup k acc' = Some x'
     | None =>
         lookup k acc' =
         match pr with defaultable d => Some d | _ => None end
     end)
  /\ (forall k, ~ In k (map fst ps) -> lookup k acc' = lookup k acc).
Proof.
  induction ps as [|[k0 [pr0 t0]] ps IH]; simpl; intros acc acc' Hnd Hrun.
  - injection Hrun as <-. split; [tauto | auto].
  - inversion Hnd as [|? ? Hnotin Hnd']; subst.
    assert (Hstep : forall acc1,
               run_props r ps acc1 = inl acc' ->
               lookup k0 acc' = lookup k0 acc1).
    { intros acc1 H1. now apply (IH acc1 acc' Hnd' H1). }
    assert (Hother : forall acc1 v k,
               run_props r ps (set k0 v acc1) = inl acc' ->
               k <> k0 ->
               (forall pr t, In (k, (pr, t)) ps ->
                  match lookup k acc1 with
                  | Some x =>
                      exists x', r t x = Returned x' /\ lookup k acc' = Some x'
                  | None =>
                      lookup k acc' =
                      match pr with defaultable d => Some d | _ => None end
                  end)
               /\ (~ In k (map fst ps) -> lookup k acc' = lookup k acc1)).
    { intros acc1 v k H1 Hne.
      destruct (IH _ _ Hnd' H1) as [Ha Hb]. split.
      - intros pr t Hin. specialize (Ha k pr t Hin).
        now rewrite lookup_set_other in Ha.
      - intros Hn. rewrite (Hb k Hn). now apply lookup_set_other. }
    destruct (lookup k0 acc) as [x0|] eqn:El.
    + destruct (r t0 x0) as [x0'|] eqn:Er; try discriminate.
      split.
      * intros k pr t [[= -> -> ->]|Hin].
        -- rewrite El. exists x0'. split; auto.
           rewrite (Hstep _ Hrun). apply lookup_set_same.
        -- assert (k <> k0).
           { intros ->. apply Hnotin.
             apply (in_map fst) in Hin. exact Hin. }
           now apply (Hother acc x0' k Hrun).
      * intros k Hn. apply (Hother acc x0' k Hrun);
          [intros ->; apply Hn; now left | intros ?; apply Hn; now right].
    + assert (Hsame : forall k, k <> k0 ->
                (forall pr t, In (k, (pr, t)) ps ->
                   match lookup k acc with
                   | Some x =>
                       exists x', r t x = Returned x' /\ lookup k acc' = Some x'
                   | None =>
                       lookup k acc' =
                       match pr with defaultable d => Some d | _ => None end
                   end)
                /\ (~ In k (map fst ps) -> lookup k acc' = lookup k acc)).
      { intros k Hne. destruct pr0.
        - destruct (IH _ _ Hnd' Hrun) as [Ha Hb]. split; [apply Ha | apply Hb].
        - destruct (IH _ _ Hnd' Hrun) as [Ha Hb]. split; [apply Ha | apply Hb].
        - now apply (Hother acc d k Hrun). }
      split.
      * intros k pr t [[= -> -> ->]|Hin].
        -- rewrite El. destruct pr.
           ++ rewrite (Hstep _ Hrun). exact El.
           ++ rewrite (Hstep _ Hrun). exact El.
           ++ rewrite (Hstep _ Hrun). apply lookup_set_same.
        -- assert (k <> k0).
           { intros ->. apply Hnotin.
             apply (in_map fst) in Hin. exact Hin. }
           now apply Hsame.
      * intros k Hn. apply Hsame;
          [intros ->; apply Hn; now left | intros ?; apply Hn; now right].
Qed.

Lemma declares_In props k pr t :
  In (k, (pr, t)) props -> declares props k = true.
Proof.
  intros Hin. unfold declares. apply existsb_exists.
  exists (k, (pr, t)). split; auto. apply String.eqb_refl.
Qed.

Lemma lookup_keep u props o k :
  declares props k = true -> lookup k (keep u props o) = lookup k o.
Proof.
  intros Hd. destruct u; simpl; auto.
  now apply (lookup_filter_keys (declares props)).
Qed.

(** A valid object: each declared key of the output holds what the
    morphs of its type made of the input value, or its default. *)
Lemma validate_object u props v out :
  NoDup (map fst props) ->
  validate K (t_object u props) v = Valid out ->
  anchored props = true ->
  exists o o',
    v = VObj o /\ out = VObj o'
    /\ forall k pr t, In (k, (pr, t)) props ->
         match lookup k o with
         | Some x =>
             check K t [k] x = []
             /\ exists x', run K t x = Returned x' /\ lookup k o' = Some x'
         | None =>
             pr <> required
             /\ lookup k o' =
                match pr with defaultable d => Some d | _ => None end
         end.
Proof.
  intros Hnd Hv Ha. apply validate_Valid in Hv. destruct Hv as [Hc Hr].
  apply check_object_nil in Hc; [|exact Ha].
  destruct Hc as (o & -> & Hc & _).
  simpl in Hr.
  destruct (run_props (run K) props o) as [o'|] eqn:Ep; try discriminate.
  injection Hr as <-. exists o, (keep u props o'). repeat split; auto.
  intros k pr t Hin.
  pose proof (check_props_nil _ _ _ _ _ _ _ Hc Hin) as H1.
  destruct (run_props_lookup _ _ _ _ Hnd Ep) as [H2 _].
  specialize (H2 k pr t Hin).
  rewrite (lookup_keep u props o' k (declares_In _ _ _ _ Hin)).
  destruct (lookup k o); auto.
Qed.

End ObjectTypes.

Lemma find_property_In k props pr t :
  find_property k props = Some (pr, t) -> In (k, (pr, t)) props.
Proof.
  induction props as [|[k' d] props IH]; simpl; try discriminate.
  destruct (String.eqb k k') eqn:E.
  - apply String.eqb_eq in E. subst. intros [= ->]. now left.
  - auto.
Qed.

(** Distinctness of a list of literal keys. *)
Ltac distinct_keys :=
  simpl; repeat (constructor; [simpl; intuition discriminate|]); constructor.

(** ** Strings *)

Lemma last_app_char s c : last (s ++ String c EmptyString)%string = Some c.
Proof.
  induction s as [|a s IH]; simpl; auto.
  rewrite IH. destruct (s ++ String c "")%string eqn:E; auto.
  destruct s; discriminate.
Qed.

Lemma slice_0_m1_app_char s c :
  slice_0_m1 (s ++ String c EmptyString)%string = s.
Proof.
  induction s as [|a s IH]; simpl; auto.
  rewrite IH. destruct (s ++ String c "")%string eqn:E; auto.
  destruct s; discriminate.
Qed.

Lemma last_Some s c :
  last s = Some c -> s = (slice_0_m1 s ++ String c EmptyString)%string.
Proof.
  induction s as [|a s IH]; simpl; try discriminate.
  destruct s as [|b s'].
  - now intros [= ->].
  - intros H. simpl. f_equal. apply IH. exact H.
Qed.

Lemma endsWith_app_char s c : endsWith c (s ++ String c EmptyString) = true.
Proof. unfold endsWith. rewrite last_app_char. apply Ascii.eqb_refl. Qed.

Lemma endsWith_true s c :
  endsWith c s = true -> s = (slice_0_m1 s ++ String c EmptyString)%string.
Proof.
  unfold endsWith. destruct (last s) as [d|] eqn:E; try discriminate.
  intros H. apply Ascii.eqb_eq in H. subst d. now apply last_Some.
Qed.

Lemma strip_slash_app s : strip_slash (s ++ "/") = s.
Proof.
  unfold strip_slash. rewrite endsWith_app_char. apply slice_0_m1_app_char.
Qed.

Lemma strip_slash_none s : endsWith "/" s = false -> strip_slash s = s.
Proof. unfold strip_slash. now intros ->. Qed.

Section SchemaFacts.
Variable K : Keywords.

Lemma validate_key u props v out k pr t :
  NoDup (map fst props) ->
  validate K (t_object u props) v = Valid out ->
  anchored props = true ->
  find_property k props = Some (pr, t) ->
  exists o o',
    v = VObj o /\ out = VObj o'
    /\ match lookup k o with
       | Some x =>
           check K t [k] x = []
           /\ exists x', run K t x = Returned x' /\ lookup k o' = Some x'
       | None =>
           pr <> required
           /\ lookup k o' =
              match pr with defaultable d => Some d | _ => None end
       end.
Proof.
  intros Hnd Hv Ha Hf. apply find_property_In in Hf.
  destruct (validate_object K _ _ _ _ Hnd Hv Ha) as (o & o' & -> & -> & Hk).
  exists o, o'. repeat split; auto. exact (Hk _ _ _ Hf).
Qed.

Lemma run_key r ps acc acc' k pr t :
  NoDup (map fst ps) ->
  run_props r ps acc = inl acc' ->
  find_property k ps = Some (pr, t) ->
  match lookup k acc with
  | Some x => exists x', r t x = Returned x' /\ lookup k acc' = Some x'
  | None =>
      lookup k acc' = match pr with defaultable d => Some d | _ => None end
  end.
Proof.
  intros Hnd Hr Hf. apply find_property_In in Hf.
  destruct (run_props_lookup _ _ _ _ Hnd Hr) as [H _]. exact (H _ _ _ Hf).
Qed.

Lemma check_key chk path o ps k pr t :
  check_props chk path o ps = [] ->
  find_property k ps = Some (pr, t) ->
  match lookup k o with
  | Some x => chk t (path ++ [k]) x = []
  | None => pr <> required
  end.
Proof.
  intros Hc Hf. apply find_property_In in Hf.
  exact (check_props_nil _ _ _ _ _ _ _ Hc Hf).
Qed.

Lemma run_object u props o out :
  run K (t_object u props) (VObj o) = Returned out ->
  exists o', run_props (run K) props o = inl o'
             /\ out = VObj (keep u props o').
Proof.
  simpl. destruct (run_props (run K) props o) as [o'|]; try discriminate.
  intros [= <-]. eauto.
Qed.

Lemma run_array u props items out :
  run K (t_object u props) (VArr items) = Returned out ->
  exists o', run_props (run K) props (indexed 0 items) = inl o'
             /\ out = array_output items (keep u props o').
Proof.
  simpl. destruct (run_props (run K) props (indexed 0 items)) as [o'|];
    try discriminate.
  intros [= <-]. eauto.
Qed.

Lemma run_pipe t f v out :
  run K (t_pipe t f) v = Returned out ->
  exists mid, run K t v = Returned mid /\ f mid = Returned out.
Proof.
  simpl. destruct (run K t v) as [mid|]; try discriminate.
  simpl. eauto.
Qed.

(** The URL of the [headscale] section of a valid document, before
    and after. *)
Lemma valid_headscale_url doc out :
  validate K (headplaneConfig K) doc = Valid out ->
  exists u,
    prop (prop doc "headscale") "url" = VStr u
    /\ string_url K u = true
    /\ prop (prop out "headscale") "url" = VStr (strip_slash u).
Proof.
  intros Hv.
  pose proof (fun Hnd => validate_key _ _ _ _ "headscale" _ _ Hnd Hv eq_refl eq_refl)
    as Hk.
  destruct (Hk ltac:(distinct_keys)) as (o & o' & -> & -> & Hs). clear Hk.
  destruct (lookup "headscale" o) as [x|] eqn:Ex;
    [|destruct Hs as [Hs _]; exfalso; now apply Hs].
  destruct Hs as (Hc & x' & Hr & Ex').
  apply check_object_nil in Hc; [|reflexivity]. destruct Hc as (h & -> & Hc & _).
  apply run_object in Hr. destruct Hr as (h' & Ep & ->).
  pose proof (fun Hnd => run_key _ _ _ _ "url" _ _ Hnd Ep eq_refl) as Hu.
  pose proof (check_key _ _ _ _ "url" _ _ Hc eq_refl) as Hcu.
  specialize (Hu ltac:(distinct_keys)).
  destruct (lookup "url" h) as [xu|] eqn:Eu; [|exfalso; now apply Hcu].
  destruct Hu as (xu' & Hru & Hl).
  simpl in Hcu. destruct xu; try discriminate.
  destruct (string_url K s) eqn:Es; try discriminate.
  simpl in Hru. injection Hru as <-.
  exists s. unfold prop, get. rewrite Ex, Ex'. cbv beta iota.
  rewrite Eu. repeat split; auto.
  rewrite lookup_keep by reflexivity. now rewrite Hl.
Qed.


Lemma check_pipe t f path v : check K (t_pipe t f) path v = check K t path v.
Proof. reflexivity. Qed.

(** No valid document names a file for the headscale API key. *)
Lemma valid_oidc_api_key_path doc out :
  validate K (headplaneConfig K) doc = Valid out ->
  prop (prop doc "oidc") "headscale_api_key_path" = VUndef.
Proof.
  intros Hv.
  pose proof (fun Hnd => validate_key _ _ _ _ "oidc" _ _ Hnd Hv eq_refl eq_refl)
    as Hk.
  destruct (Hk ltac:(distinct_keys)) as (o & o' & -> & -> & Hs). clear Hk.
  unfold prop at 2. unfold get at 1.
  destruct (lookup "oidc" o) as [x|] eqn:Ex; [|reflexivity].
  destruct Hs as (Hc & x' & Hr & Ex').
  rewrite check_pipe in Hc.
  apply check_object_nil in Hc; [|reflexivity]. destruct Hc as (oi & -> & Hc & _).
  apply run_pipe in Hr. destruct Hr as (mid & Hr & Hf).
  apply run_object in Hr. destruct Hr as (oi' & Ep & ->).
  pose proof (fun Hnd =>
                run_key _ _ _ _ "headscale_api_key" _ _ Hnd Ep eq_refl) as Hu.
  pose proof (fun Hnd =>
                run_key _ _ _ _ "headscale_api_key_path" _ _ Hnd Ep eq_refl)
    as Hp.
  pose proof (check_key _ _ _ _ "headscale_api_key" _ _ Hc eq_refl) as Hcu.
  pose proof (check_key _ _ _ _ "headscale_api_key_path" _ _ Hc eq_refl)
    as Hcp.
  specialize (Hu ltac:(distinct_keys)). specialize (Hp ltac:(distinct_keys)).
  unfold prop, get.
  destruct (lookup "headscale_api_key_path" oi) as [y|]; [|reflexivity].
  exfalso.
  destruct (lookup "headscale_api_key" oi) as [z|]; [|now apply Hcu].
  destruct Hu as (z' & Hz & Lz). destruct Hp as (y' & Hy & Ly).
  simpl in Hcu, Hcp.
  destruct z; try discriminate. destruct y; try discriminate.
  simpl in Hz, Hy. injection Hz as <-. injection Hy as <-.
  unfold prop, get in Hf.
  rewrite !lookup_keep in Hf by reflexivity.
  rewrite Lz, Ly in Hf. cbv beta iota in Hf.
  destruct (Bool.eqb _ _) in Hf; discriminate.
Qed.

Lemma check_props_missing chk path o ps k t :
  find_property k ps = Some (required, t) ->
  lookup k o = None ->
  In (path ++ [k], Missing) (check_props chk path o ps).
Proof.
  induction ps as [|[k' [pr' t']] ps IH]; simpl; try discriminate.
  intros Hf Hl. apply in_or_app.
  destruct (String.eqb k k') eqn:E.
  - apply String.eqb_eq in E. subst k'. injection Hf as -> ->.
    left. rewrite Hl. now left.
  - right. auto.
Qed.

End SchemaFacts.

(** ** Exceptions out of a type *)

Section SchemaExceptions.
Variable K : Keywords.
Variable messages : list string.

Lemma run_props_throws ps : forall acc msg,
  Forall (fun p : property =>
            forall v msg, run K (snd (snd p)) v = Thrown msg ->
                          In msg messages) ps ->
  run_props (run K) ps acc = inr msg -> In msg messages.
Proof.
  induction ps as [|[k [pr t]] ps IH]; intros acc msg Hall; [discriminate|].
  inversion Hall as [|? ? Hp Hps]; subst. cbn [run_props].
  destruct (lookup k acc) as [x|].
  - destruct (run K t x) as [x'|msg'] eqn:Er.
    + now apply IH.
    + intros [= <-]. exact (Hp _ _ Er).
  - destruct pr; now apply IH.
Qed.

Lemma run_props_at_throws errs ps : forall path acc msg,
  Forall (fun p : property =>
            forall path v msg,
              run_beside K errs (snd (snd p)) path v = Thrown msg ->
              In msg messages) ps ->
  run_props_at (run_beside K errs) path ps acc = inr msg ->
  In msg messages.
Proof.
  induction ps as [|[k [pr t]] ps IH]; intros path acc msg Hall;
    [discriminate|].
  inversion Hall as [|? ? Hp Hps]; subst. cbn [run_props_at].
  destruct (lookup k acc) as [x|].
  - destruct (run_beside K errs t (path ++ [k]) x) as [x'|msg'] eqn:Er.
    + now apply IH.
    + intros [= <-]. exact (Hp _ _ _ Er).
  - destruct pr; now apply IH.
Qed.

Lemma throws_props_Forall (P : type -> Prop) ps :
  Shapes.throws_props P ps ->
  Forall (fun p : property => P (snd (snd p))) ps.
Proof.
  induction ps as [|[k [pr t]] ps IH]; cbn [Shapes.throws_props];
    [constructor|].
  intros [Ht Hps]. constructor; [exact Ht|now apply IH].
Qed.

Lemma run_throws t :
  Shapes.throws_within messages t ->
  forall v msg, run K t v = Thrown msg -> In msg messages.
Proof.
  induction t as [| | | | | | lit | a b IHa IHb | u props IH | t f IHt]
    using type_induction; cbn [Shapes.throws_within run]; try discriminate.
  - intros [Ha Hb] v msg.
    destruct (allows K a v); [now apply IHa|now apply IHb].
  - intros Hps v msg.
    apply throws_props_Forall in Hps.
    assert (Hall : Forall (fun p : property =>
                     forall v msg, run K (snd (snd p)) v = Thrown msg ->
                                   In msg messages) props).
    { rewrite Forall_forall in *. intros p Hin. apply IH; auto. }
    destruct v as [| | | | |items|o]; try discriminate.
    + destruct (run_props (run K) props (indexed 0 items)) as [o'|msg']
        eqn:Er; [discriminate|].
      intros [= <-]. now apply (run_props_throws props (indexed 0 items)).
    + destruct (run_props (run K) props o) as [o'|msg'] eqn:Er;
        [discriminate|].
      intros [= <-]. now apply (run_props_throws props o).
  - intros [Ht Hf] v msg. destruct (run K t v) as [mid|msg'] eqn:Er;
      cbn [Ark.bind].
    + apply Hf.
    + intros [= <-]. exact (IHt Ht _ _ Er).
Qed.

Lemma run_beside_throws errs t :
  Shapes.throws_within messages t ->
  forall path v msg,
    run_beside K errs t path v = Thrown msg -> In msg messages.
Proof.
  induction t as [| | | | | | lit | a b IHa IHb | u props IH | t f IHt]
    using type_induction; cbn [Shapes.throws_within run_beside];
    try discriminate.
  - intros [Ha Hb] path v msg.
    destruct (allows K a v); [now apply IHa|now apply IHb].
  - intros Hps path v msg.
    apply throws_props_Forall in Hps.
    assert (Hall : Forall (fun p : property =>
                     forall path v msg,
                       run_beside K errs (snd (snd p)) path v = Thrown msg ->
                       In msg messages) props).
    { rewrite Forall_forall in *. intros p Hin. apply IH; auto. }
    destruct v as [| | | | |items|o]; try discriminate.
    + destruct (run_props_at (run_beside K errs) path props
                  (indexed 0 items)) as [o'|msg'] eqn:Er; [discriminate|].
      intros [= <-].
      now apply (run_props_at_throws errs props path (indexed 0 items)).
    + destruct (run_props_at (run_beside K errs) path props o)
        as [o'|msg'] eqn:Er; [discriminate|].
      intros [= <-]. now apply (run_props_at_throws errs props path o).
  - intros [Ht Hf] path v msg.
    destruct (run_beside K errs t path v) as [mid|msg'] eqn:Er.
    + destruct (touches errs path); [discriminate|]. apply Hf.
    + intros [= <-]. exact (IHt Ht _ _ _ Er).
Qed.

(** An exception out of [t(v)] comes out of the second pass, be there
    errors or not. *)
Lemma validate_Throws t v msg :
  validate K t v = Throws msg ->
  run K t v = Thrown msg
  \/ run_beside K (check K t [] v) t [] v = Thrown msg.
Proof.
  unfold validate. destruct (check K t [] v) as [|e errs].
  - destruct (run K t v); [discriminate|]. intros [= ->]. now left.
  - destruct (run_beside K (e :: errs) t [] v); [discriminate|].
    intros [= ->]. now right.
Qed.

Lemma validate_throws_within t v msg :
  Shapes.throws_within messages t ->
  validate K t v = Throws msg -> In msg messages.
Proof.
  intros Ht Hv. apply validate_Throws in Hv. destruct Hv as [Hv|Hv].
  - exact (run_throws t Ht _ _ Hv).
  - exact (run_beside_throws _ t Ht _ _ _ Hv).
Qed.

End SchemaExceptions.

(** A type whose morphs never throw gives its errors. *)
Lemma validate_Errors K t v :
  Shapes.throws_within [] t ->
  check K t [] v <> [] ->
  validate K t v = Errors (check K t [] v).
Proof.
  intros Ht Hc. pose proof (validate_errors K t v Hc) as H.
  destruct (run_beside K (check K t [] v) t [] v) as [out|msg] eqn:Er; auto.
  destruct (run_beside_throws K [] _ t Ht _ _ _ Er).
Qed.

Lemma headplaneConfig_throws K :
  Shapes.throws_within Shapes.schema_messages (headplaneConfig K).
Proof.
  cbn. repeat split; intros v msg; try discriminate.
  - destruct v; try (intros [= <-]; cbn; tauto).
    destruct (Nat.eqb (length s) 32); [discriminate|].
    intros [= <-]. cbn. tauto.
  - destruct (Bool.eqb _ _); [|discriminate]. intros [= <-]. cbn. tauto.
  - destruct (Bool.eqb _ _); [intros [= <-]; cbn; tauto|].
    destruct (Bool.eqb _ _); [intros [= <-]; cbn; tauto|discriminate].
  - destruct v; discriminate.
Qed.

Lemma partialHeadplaneConfig_throws K :
  Shapes.throws_within [] (partialHeadplaneConfig K).
Proof.
  cbn. repeat split; intros v msg; try discriminate;
    destruct v; discriminate.
Qed.

(* ================================================================= *)
(** * The claims about the schema *)

Import Examples.

(** C10. The coercion [stringToBool] sends every string but the empty
    one to [true], the string [false] included; [false] is the image of
    the empty string and of the boolean [false] only; every field of the
    schema that holds a boolean is typed with it. *)
Theorem stringToBool_truthiness (K : Keywords) :
  validate K stringToBool (VStr "false") = Valid (VBool true)
  /\ (forall s, validate K stringToBool (VStr s)
                = Valid (VBool (negb (String.eqb s ""))))
  /\ (forall b, validate K stringToBool (VBool b) = Valid (VBool b))
  /\ (forall v, validate K stringToBool v = Valid (VBool false)
                <-> v = VStr "" \/ v = VBool false)
  /\ Forall (fun path =>
               field_type path (headplaneConfig K) = Some stringToBool)
       boolean_fields.
Proof.
  split; [reflexivity|]. split; [reflexivity|]. split; [reflexivity|].
  split.
  - intros v. split.
    + destruct v as [| |b|n|s|items|o]; try discriminate.
      * destruct b; [discriminate|]. now right.
      * unfold validate; simpl. intros [= H]. left.
        destruct (String.eqb s "") eqn:E; [|discriminate].
        apply String.eqb_eq in E. now subst.
    + intros [->| ->]; reflexivity.
  - repeat constructor.
Qed.

(** C9 (as the code has it). Validation takes one trailing slash off
    [headscale.url]: the validated URL is the given one without its last
    character when that is a slash, and the given one otherwise. So a
    URL that ends in exactly one slash comes out with none, and a URL
    with none comes out unchanged. *)
Theorem headscale_url_loses_one_slash (K : Keywords) (doc out : value) :
  validate K (headplaneConfig K) doc = Valid out ->
  exists u,
    prop (prop doc "headscale") "url" = VStr u
    /\ string_url K u = true
    /\ prop (prop out "headscale") "url" = VStr (strip_slash u)
    /\ (forall u', u = (u' ++ "/")%string -> strip_slash u = u')
    /\ (forall u', u = (u' ++ "/")%string -> endsWith "/" u' = false ->
                   endsWith "/" (strip_slash u) = false)
    /\ (endsWith "/" u = false -> strip_slash u = u).
Proof.
  intros Hv. destruct (valid_headscale_url K doc out Hv) as (u & H1 & H2 & H3).
  exists u. repeat split; auto.
  - intros u' ->. apply strip_slash_app.
  - intros u' -> H. now rewrite strip_slash_app.
  - apply strip_slash_none.
Qed.

Lemma headscale_url_loses_one_slash_witness :
  exists u,
    prop (prop (minimal "https://example.com/") "headscale") "url" = VStr u
    /\ string_url keywords u = true
    /\ prop (prop (VObj
         [("debug", VBool false);
          ("server",
            VObj [("host", VStr "0.0.0.0"); ("port", VNum (Int 3000));
                  ("cookie_secret", VStr cookie32);
                  ("cookie_secure", VBool true);
                  ("agent", agent_defaults)]);
          ("headscale",
            VObj [("url", VStr "https://example.com");
                  ("config_strict", VBool true)])]) "headscale") "url"
       = VStr (strip_slash u)
    /\ (forall u', u = (u' ++ "/")%string -> strip_slash u = u')
    /\ (forall u', u = (u' ++ "/")%string -> endsWith "/" u' = false ->
                   endsWith "/" (strip_slash u) = false)
    /\ (endsWith "/" u = false -> strip_slash u = u).
Proof.
  apply (headscale_url_loses_one_slash keywords
           (minimal "https://example.com/")).
  reflexivity.
Defined.

(** C9, the claim as stated fails: of two trailing slashes one is left,
    and a second pass would take that one off too. *)
Lemma headscale_url_two_slashes :
  exists out,
    validate keywords (headplaneConfig keywords)
      (minimal "https://example.com//") = Valid out
    /\ prop (prop out "headscale") "url" = VStr "https://example.com/"
    /\ endsWith "/" "https://example.com/" = true
    /\ strip_slash (strip_slash "https://example.com//")
       <> strip_slash "https://example.com//".
Proof.
  eexists. split; [reflexivity|]. repeat split. discriminate.
Qed.

(** C3 (where the code departs from it). A document that names a file
    for the headscale API key never validates: [headscale_api_key] is a
    required string, so the test of the pair only lets a document through
    when [headscale_api_key_path] is absent. *)
Theorem headscale_api_key_path_never_validates
    (K : Keywords) (doc out : value) :
  validate K (headplaneConfig K) doc = Valid out ->
  prop (prop doc "oidc") "headscale_api_key_path" = VUndef.
Proof. apply valid_oidc_api_key_path. Qed.

Lemma headscale_api_key_path_never_validates_witness :
  prop (prop (with_section "oidc" (oidc [("headscale_api_key", VStr "key")]))
          "oidc") "headscale_api_key_path" = VUndef.
Proof.
  apply (headscale_api_key_path_never_validates keywords
           (with_section "oidc" (oidc [("headscale_api_key", VStr "key")]))
           (VObj
              [("debug", VBool false);
               ("server",
                 VObj [("host", VStr "0.0.0.0"); ("port", VNum (Int 3000));
                       ("cookie_secret", VStr cookie32);
                       ("cookie_secure", VBool true);
                       ("agent", agent_defaults)]);
               ("oidc",
                 VObj [("issuer", VStr "https://idp.example.com");
                       ("client_id", VStr "headplane");
                       ("client_secret", VStr "s3cret");
                       ("token_endpoint_auth_method",
                         VStr "client_secret_basic");
                       ("disable_api_key_login", VBool false);
                       ("headscale_api_key", VStr "key");
                       ("user_storage_file",
                         VStr "/var/lib/headplane/users.json");
                       ("strict_validation", VBool true)]);
               ("headscale",
                 VObj [("url", VStr "https://hs.example.com");
                       ("config_strict", VBool true)])])).
  reflexivity.
Defined.

(** The three ways to give the API key by file: without the inline key,
    with a [null] inline key, and beside the inline key. *)
Lemma headscale_api_key_by_file :
  validate keywords (headplaneConfig keywords)
    (with_section "oidc" (oidc [("headscale_api_key_path", VStr "/run/key")]))
  = Errors [(["oidc"; "headscale_api_key"], Missing)]
  /\ validate keywords (headplaneConfig keywords)
       (with_section "oidc"
          (oidc [("headscale_api_key", VNull);
                 ("headscale_api_key_path", VStr "/run/key")]))
     = Errors [(["oidc"; "headscale_api_key"], Expected "a string")]
  /\ validate keywords (headplaneConfig keywords)
       (with_section "oidc"
          (oidc [("headscale_api_key", VStr "key");
                 ("headscale_api_key_path", VStr "/run/key")]))
     = Throws
         "Must specify either headscale_api_key or headscale_api_key_path, but not both".
Proof. repeat split. Qed.

(** C4 (where the code departs from it). The rule [delete] that
    [headplaneConfig] sets deeply is the rule of every object type in
    it, the sections that were built with [reject] included: an unknown
    key under [integration.docker] is dropped and the document is
    valid, although [integrationConfig] on its own reports the key. An
    unknown key at the root is dropped as well. *)
Theorem nested_unknown_keys_are_deleted :
  (forall K, Forall (eq delete) (rules (headplaneConfig K)))
  /\ validate keywords (headplaneConfig keywords)
       (with_section "integration" (docker [("bogus", VNull)]))
     = validate keywords (headplaneConfig keywords)
         (with_section "integration" (docker []))
  /\ is_valid (validate keywords (headplaneConfig keywords)
                 (with_section "integration" (docker [("bogus", VNull)])))
     = true
  /\ validate keywords integrationConfig (docker [("bogus", VNull)])
     = Errors [(["docker"; "bogus"], Undeclared)]
  /\ validate keywords (headplaneConfig keywords)
       (with_section "bogus" VNull)
     = validate keywords (headplaneConfig keywords)
         (minimal "https://hs.example.com")
  /\ is_valid (validate keywords (headplaneConfig keywords)
                 (with_section "bogus" VNull))
     = true.
Proof.
  split; [intros K; apply onDeepUndeclaredKey_rules|].
  repeat split.
Qed.

(** C1 (where the code departs from it). The partial schema requires
    the keys [debug], [server] and [headscale]: a fragment without one
    of them is refused. *)
Theorem partial_schema_requires_sections
    (K : Keywords) (fragment : obj) (k : string) :
  In k ["debug"; "server"; "headscale"] ->
  lookup k fragment = None ->
  exists errs,
    validate K (partialHeadplaneConfig K) (VObj fragment) = Errors errs
    /\ In ([k], Missing) errs.
Proof.
  intros Hk Hl.
  assert (Hin : In ([k], Missing)
                  (check K (partialHeadplaneConfig K) [] (VObj fragment))).
  { unfold partialHeadplaneConfig, type_.
    cbn [check]. apply in_or_app. left.
    simpl in Hk.
    destruct Hk as [<-|[<-|[<-|[]]]];
      eapply (check_props_missing (check K) []); try reflexivity; auto. }
  exists (check K (partialHeadplaneConfig K) [] (VObj fragment)).
  split; [|exact Hin].
  apply validate_Errors; [apply partialHeadplaneConfig_throws|].
  intros E. rewrite E in Hin. destruct Hin.
Qed.

Lemma partial_schema_requires_sections_witness :
  exists errs,
    validate keywords (partialHeadplaneConfig keywords)
      (VObj [("oidc", VObj [("client_id", VStr "abc")])]) = Errors errs
    /\ In (["server"], Missing) errs.
Proof.
  apply (partial_schema_requires_sections keywords
           [("oidc", VObj [("client_id", VStr "abc")])] "server").
  - simpl. auto.
  - reflexivity.
Defined.

(** The fragment that [HEADPLANE_OIDC__CLIENT_ID=abc] makes, and the
    empty fragment. *)
Lemma partial_schema_on_small_fragments :
  validate keywords (partialHeadplaneConfig keywords)
    (VObj [("oidc", VObj [("client_id", VStr "abc")])])
  = Errors [(["debug"], Missing); (["server"], Missing);
            (["oidc"; "disable_api_key_login"], Missing);
            (["oidc"; "strict_validation"], Missing);
            (["headscale"], Missing)]
  /\ validate keywords (partialHeadplaneConfig keywords) (VObj [])
     = Errors [(["debug"], Missing); (["server"], Missing);
               (["headscale"], Missing)].
Proof. split; reflexivity. Qed.

(* ================================================================= *)
(** * The claims about merging *)

Lemma lookup_merge_key_same key val merged result :
  lookup key (merge_key key val merged result) =
  match val with
  | VUndef => lookup key result
  | _ => Some (if typeof_object val then merged else val)
  end.
Proof.
  destruct val; simpl; auto using lookup_set_same.
Qed.

Lemma lookup_merge_key_other k key val merged result :
  k <> key -> lookup k (merge_key key val merged result) = lookup k result.
Proof.
  intros Hne. destruct val; simpl; auto using lookup_set_other.
Qed.

(** The loop of [deepMerge], key by key. *)
Lemma merge_entries_lookup entries : forall result k,
  NoDup (keys entries) ->
  lookup k (merge_entries deepMerge entries result) =
  match lookup k entries with
  | None | Some VUndef => lookup k result
  | Some val =>
      Some (if typeof_object val then deepMerge (get k result) val else val)
  end.
Proof.
  induction entries as [|[k0 v0] rest IH]; intros result k Hnd; simpl; auto.
  inversion Hnd as [|? ? Hnotin Hnd']; subst.
  rewrite IH by assumption.
  destruct (String.eqb k k0) eqn:E.
  - apply String.eqb_eq in E. subst k0.
    apply lookup_None_keys in Hnotin. rewrite Hnotin.
    rewrite lookup_merge_key_same. destruct v0; reflexivity.
  - apply String.eqb_neq in E.
    unfold get. rewrite lookup_merge_key_other by assumption.
    reflexivity.
Qed.

Lemma deepMerge_onto_primitive target source :
  typeof_object target = false -> deepMerge target source = source.
Proof. intros H. destruct source; simpl; try rewrite H; reflexivity. Qed.

(** C2 (as the code has it). Merging an override object with distinct
    keys onto a base that is an object: a key the override lacks, or
    holds [undefined] under, keeps the base value; a key whose override
    value is a string, a number or a boolean gets that value; a key
    whose override value is an object, an array or [null] gets
    [deepMerge] of the base value and it, which is the override value
    itself whenever the base value is absent, a string, a number or a
    boolean. *)
Theorem deepMerge_by_key (target : value) (source : obj) :
  typeof_object target = true ->
  NoDup (keys source) ->
  exists result,
    deepMerge target (VObj source) = VObj result
    /\ (forall k,
          lookup k result =
          match lookup k source with
          | None | Some VUndef => lookup k (own_props target)
          | Some val =>
              Some (if typeof_object val
                    then deepMerge (get k (own_props target)) val
                    else val)
          end)
    /\ (forall base override,
          typeof_object base = false -> deepMerge base override = override).
Proof.
  intros Ht Hnd. simpl. rewrite Ht. eexists. split; [reflexivity|]. split.
  - intros k. now apply merge_entries_lookup.
  - apply deepMerge_onto_primitive.
Qed.

Lemma deepMerge_by_key_witness :
  exists result,
    deepMerge
      (VObj [("server",
              VObj [("port", VNum (Int 8080)); ("host", VStr "0.0.0.0")])])
      (VObj [("server", VObj [("port", VNum (Int 9000))])]) = VObj result
    /\ (forall k,
          lookup k result =
          match lookup k [("server", VObj [("port", VNum (Int 9000))])] with
          | None | Some VUndef =>
              lookup k
                (own_props
                   (VObj [("server",
                           VObj [("port", VNum (Int 8080));
                                 ("host", VStr "0.0.0.0")])]))
          | Some val =>
              Some (if typeof_object val
                    then deepMerge
                           (get k
                              (own_props
                                 (VObj [("server",
                                         VObj [("port", VNum (Int 8080));
                                               ("host", VStr "0.0.0.0")])])))
                           val
                    else val)
          end)
    /\ (forall base override,
          typeof_object base = false -> deepMerge base override = override).
Proof.
  apply (deepMerge_by_key
           (VObj [("server",
                   VObj [("port", VNum (Int 8080)); ("host", VStr "0.0.0.0")])])
           [("server", VObj [("port", VNum (Int 9000))])]).
  - reflexivity.
  - repeat constructor. simpl. tauto.
Defined.

(** C2, the claim as stated fails: an array over a base array is merged
    index by index into a plain object; [null] over a base object
    leaves the base object; and [null] over [null], which a valid
    document and a valid fragment can hold under [cookie_secret], gives
    an empty object. *)
Lemma deepMerge_array_onto_array :
  get "a"
    (own_props
       (deepMerge
          (VObj [("a", VArr [VNum (Int 1); VNum (Int 2); VNum (Int 3)])])
          (VObj [("a", VArr [VNum (Int 9)])])))
  = VObj [("0", VNum (Int 9)); ("1", VNum (Int 2)); ("2", VNum (Int 3))]
  /\ get "a"
       (own_props
          (deepMerge (VObj [("a", VObj [("x", VStr "kept")])])
                     (VObj [("a", VNull)])))
     = VObj [("x", VStr "kept")]
  /\ exists base fragment,
       validate keywords (headplaneConfig keywords)
         (VObj [("debug", VBool false);
                ("server",
                  VObj [("host", VStr "0.0.0.0"); ("port", VNum (Int 3000));
                        ("cookie_secret", VNull);
                        ("cookie_secret_path", VStr "");
                        ("cookie_secure", VBool true)]);
                ("headscale", headscale "https://hs.example.com")])
       = Valid base
       /\ validate keywords (partialHeadplaneConfig keywords)
            (VObj [("debug", VBool false);
                   ("server",
                     VObj [("cookie_secret", VNull);
                           ("cookie_secure", VBool true)]);
                   ("headscale", VObj [("config_strict", VBool true)])])
          = Valid fragment
       /\ prop (prop base "server") "cookie_secret" = VNull
       /\ prop (prop fragment "server") "cookie_secret" = VNull
       /\ prop (prop (deepMerge base fragment) "server") "cookie_secret"
          = VObj [].
Proof.
  split; [reflexivity|]. split; [reflexivity|].
  eexists. eexists. split; [reflexivity|]. split; [reflexivity|].
  repeat split.
Qed.

(* ================================================================= *)
(** * The claims about environment overrides *)

Lemma split_at_first_prefix pat s :
  String.prefix pat s = true ->
  split_at_first pat s = Some (EmptyString, drop (String.length pat) s).
Proof.
  intros H.
  assert (Hunfold : split_at_first pat s =
                    if String.prefix pat s
                    then Some (EmptyString, drop (String.length pat) s)
                    else match s with
                         | EmptyString => None
                         | String c rest =>
                             match split_at_first pat rest with
                             | Some (before, after) =>
                                 Some (String c before, after)
                             | None => None
                             end
                         end) by (destruct s; reflexivity).
  rewrite Hunfold. now rewrite H.
Qed.

Lemma replace_prefix pat s :
  String.prefix pat s = true ->
  replace pat "" s = drop (String.length pat) s.
Proof.
  intros H. unfold replace. now rewrite split_at_first_prefix.
Qed.





Lemma step_lookup_none seg current :
  lookup seg (if has seg current then current
              else set seg (VObj []) current) = None ->
  lookup seg current = None /\ inherits seg = true
  /\ (if has seg current then current else set seg (VObj []) current)
     = current.
Proof.
  unfold has. destruct (lookup seg current) as [y|] eqn:El.
  - rewrite El. discriminate.
  - destruct (inherits seg); auto.
    rewrite lookup_set_same. discriminate.
Qed.


(** One variable: when the walk completes, the value stands at the end
    of the path. *)
Lemma assign_path_written path : forall value current current',
  path <> [] ->
  assign_path path value current = Assigned current' ->
  at_path path (VObj current') = Some (VStr value).
Proof.
  induction path as [|seg rest IH]; intros value current current' Hne;
    [congruence|].
  simpl. destruct rest as [|seg' rest'].
  - intros [= <-]. now rewrite lookup_set_same.
  - set (cur := if has seg current then current
                else set seg (VObj []) current).
    destruct (lookup seg cur) as [[| | | | | |next]|] eqn:Eg;
      try discriminate.
    destruct (assign_path (seg' :: rest') value next) as [next'| |]
      eqn:Ea; try discriminate.
    intros [= <-]. rewrite lookup_set_same.
    apply (IH value next next'); [discriminate | exact Ea].
Qed.





(** One variable: the walk leaves the object only at a key that is not
    the last of the path, that the object it has come to does not hold
    and that every object inherits. *)
Lemma assign_path_outside path : forall value current current' away,
  assign_path path value current = Outside current' away ->
  exists before name after o,
    path = before ++ name :: after /\ away = name :: after
    /\ after <> []
    /\ at_path before (VObj current') = Some (VObj o)
    /\ lookup name o = None /\ inherits name = true.
Proof.
  induction path as [|seg rest IH]; intros value current current' away;
    [discriminate|].
  simpl. destruct rest as [|seg' rest']; [discriminate|].
  set (cur := if has seg current then current
              else set seg (VObj []) current).
  destruct (lookup seg cur) as [x|] eqn:Eg; unfold cur in *; clear cur.
  - destruct x as [| | | | | |next]; try discriminate.
    destruct (assign_path (seg' :: rest') value next) as [next'| |next' away']
      eqn:Ea; try discriminate.
    intros [= <- <-]. destruct (IH value next next' away' Ea)
      as (before & name & after & o & Hp & Hl & Ha & Hat & Hn & Hi).
    exists (seg :: before), name, after, o. repeat split; auto.
    + simpl. now rewrite Hp.
    + simpl. now rewrite lookup_set_same.
  - intros [= <- <-]. apply step_lookup_none in Eg.
    destruct Eg as (El & Hi & ->).
    exists [], seg, (seg' :: rest'), current.
    repeat split; auto. discriminate.
Qed.


Lemma cons_char_not_nil c parts : cons_char c parts <> [].
Proof. destruct parts; discriminate. Qed.

Lemma split_dunder_not_nil s : split_dunder s <> [].
Proof.
  destruct s as [|c [|d s']]; simpl; try discriminate.
  destruct (andb _ _); [discriminate | apply cons_char_not_nil].
Qed.

Lemma configPath_not_nil key : configPath key <> [].
Proof. apply split_dunder_not_nil. Qed.

(** One turn of the loop. *)
Lemma assign_from_step H before key value rest envConfig p :
  assign_from H before ((key, value) :: rest) envConfig p
  = let p1 := {| env := env p;
                 trace := trace p
                          ++ [Log debug (" - " ++ key ++ "="
                                         ++ stars (length value))%string []]
              |} in
    match assign_path (configPath key) value envConfig with
    | Assigned envConfig' => assign_from H before rest envConfig' p1
    | Stuck => (Uncaught "TypeError", p1)
    | Outside envConfig' away =>
        let p2 := {| env := env p;
                     trace := (trace p
                               ++ [Log debug (" - " ++ key ++ "="
                                              ++ stars (length value))%string
                                     []])
                              ++ [BuiltIn away value] |} in
        if builtins H before away value then (Uncaught "TypeError", p2)
        else assign_from H (before ++ [(away, value)]) rest envConfig' p2
    end.
Proof.
  cbn [assign_from]. unfold Loader.bind at 1, log, emit. cbn [fst snd].
  destruct (assign_path (configPath key) value envConfig)
    as [next| |next away]; try reflexivity.
  unfold walk_builtins, Loader.bind, emit, throw, ret. cbn [env trace].
  now destruct (builtins H before away value).
Qed.

(** One turn of the loop that ends well: the variable was assigned, or
    its walk left the object. *)
Lemma assign_from_cons H before key value rest envConfig p result p' :
  assign_from H before ((key, value) :: rest) envConfig p
  = (Done result, p') ->
  (exists envConfig' p1,
      assign_path (configPath key) value envConfig = Assigned envConfig'
      /\ assign_from H before rest envConfig' p1 = (Done result, p'))
  \/ (exists envConfig' away p1,
        assign_path (configPath key) value envConfig
        = Outside envConfig' away
        /\ assign_from H (before ++ [(away, value)]) rest envConfig' p1
           = (Done result, p')).
Proof.
  rewrite assign_from_step. cbv zeta.
  destruct (assign_path (configPath key) value envConfig)
    as [next| |next away] eqn:Ea; [| discriminate |].
  - intros Hrun. left. eauto.
  - destruct (builtins H before away value); [discriminate|].
    intros Hrun. right. eauto.
Qed.





Lemma In_removelast_middle (before : list string) name after :
  after <> [] -> In name (removelast (before ++ name :: after)).
Proof.
  intros Ha. induction before as [|k before IH]; simpl.
  - destruct after; [congruence|]. now left.
  - destruct (before ++ name :: after) eqn:E.
    + destruct before; discriminate.
    + right. exact IH.
Qed.

(** A walk along keys that are not inherited, but for the last, stays
    in the object. *)
Lemma assign_path_inside path value current current' away :
  forallb (fun name => negb (inherits name)) (removelast path) = true ->
  assign_path path value current <> Outside current' away.
Proof.
  intros Hin Ea. apply assign_path_outside in Ea.
  destruct Ea as (before & name & after & o & Hp & _ & Ha & _ & _ & Hi).
  rewrite forallb_forall in Hin.
  specialize (Hin name). rewrite Hp, Hi in Hin.
  specialize (Hin (In_removelast_middle before name after Ha)).
  discriminate.
Qed.




(** What [coalesceEnv] merges is what the loop built from the filtered
    entries of the environment. *)
Lemma coalesceEnv_Done K H rootKeys config p out p' :
  coalesceEnv K H rootKeys config p = (Done (Some out), p') ->
  exists envConfig toMerge p1 p2,
    assign_vars H (filter (is_override rootKeys) (env p)) [] p1
    = (Done envConfig, p2)
    /\ validate K (partialHeadplaneConfig K) (VObj envConfig) = Valid toMerge
    /\ out = deepMerge config toMerge.
Proof.
  unfold coalesceEnv, entries, Loader.bind at 1. simpl.
  unfold Loader.bind at 1, log, emit. simpl.
  unfold Loader.bind at 1.
  match goal with
  | |- context [assign_vars H ?vs [] ?p1] =>
      destruct (assign_vars H vs [] p1) as [[envConfig| |] p2] eqn:Ev;
        try discriminate
  end.
  unfold coalesceConfig, Loader.bind at 1 2, log, emit. simpl.
  destruct (validate K (partialHeadplaneConfig K) (VObj envConfig))
    as [toMerge|errs|msg] eqn:Eval.
  - unfold ret. intros [= <- <-]. eauto 10.
  - unfold Loader.bind at 1 2. simpl.
    destruct (log_errors 0 errs _) as [[| |] ?]; discriminate.
  - discriminate.
Qed.




(* ================================================================= *)
(** * The claims about secret files *)

(** ** Trimming *)

Lemma trimStart_spec s :
  exists l,
    s = (l ++ trimStart s)%string /\ all_space l = true
    /\ match first (trimStart s) with
       | Some c => is_space c = false
       | None => True
       end.
Proof.
  induction s as [|c s IH]; simpl.
  - exists EmptyString. auto.
  - destruct (is_space c) eqn:E.
    + destruct IH as (l & Hs & Hl & Hf). exists (String c l).
      simpl. rewrite E, Hl. repeat split; auto. now rewrite <- Hs.
    + exists EmptyString. simpl. auto.
Qed.

Lemma trimEnd_aux_spec s :
  match trimEnd_aux s with
  | Some t =>
      exists r, s = (t ++ r)%string /\ all_space r = true
                /\ first t = first s
                /\ exists c, last t = Some c /\ is_space c = false
  | None => all_space s = true
  end.
Proof.
  induction s as [|c s IH]; simpl; auto.
  destruct (trimEnd_aux s) as [t|].
  - destruct IH as (r & Hs & Hr & Hf & d & Hl & Hd).
    exists r. simpl. rewrite <- Hs. repeat split; auto.
    exists d. split; auto. destruct t; [discriminate | exact Hl].
  - destruct (is_space c) eqn:E; simpl.
    + now rewrite IH.
    + exists s. repeat split; auto. exists c. auto.
Qed.

(** [trim] takes white space off both ends and nothing else. *)
Lemma trim_spec s :
  exists l r,
    s = (l ++ trim s ++ r)%string
    /\ all_space l = true /\ all_space r = true
    /\ match first (trim s) with
       | Some c => is_space c = false
       | None => True
       end
    /\ match last (trim s) with
       | Some c => is_space c = false
       | None => True
       end.
Proof.
  destruct (trimStart_spec s) as (l & Hs & Hl & Hf).
  unfold trim, trimEnd.
  pose proof (trimEnd_aux_spec (trimStart s)) as He.
  destruct (trimEnd_aux (trimStart s)) as [t|].
  - destruct He as (r & Ht & Hr & Hft & c & Hlast & Hc).
    exists l, r. rewrite <- Ht. repeat split; auto.
    + now rewrite Hft.
    + now rewrite Hlast.
  - exists l, (trimStart s). simpl. repeat split; auto.
Qed.

(** ** Traces *)

Lemma reads_app t1 t2 : reads (t1 ++ t2) = reads t1 ++ reads t2.
Proof.
  induction t1 as [|e t1 IH]; simpl; auto.
  destruct e; simpl; now rewrite IH.
Qed.

Lemma log_run lvl format args p :
  log lvl format args p
  = (Done tt, {| env := env p; trace := trace p ++ [Log lvl format args] |}).
Proof. reflexivity. Qed.

Section SecretContent.
Variable H : Host.

(** What [loadSecretFromFile] does once the path is resolved. *)
Lemma loadSecretFromFile_resolved path secretName requiredLength p
      resolvedPath p1 :
  interpolate (match_markers path) path p = (Done (Some resolvedPath), p1) ->
  loadSecretFromFile H path secretName requiredLength p
  = let p2 := {| env := env p1;
                 trace := (trace p1
                           ++ [Log debug "Reading %s from %s"
                                 [VStr secretName; VStr resolvedPath]])
                          ++ [ReadFile resolvedPath] |} in
    match contents H resolvedPath with
    | None =>
        (Done None,
         {| env := env p1;
            trace := ((trace p2
                       ++ [Log error "Failed to read %s from %s"
                             [VStr secretName; VStr path]])
                      ++ [Log error "Error: %s" []])
                     ++ [Log debug "Error details: %o" []] |})
    | Some secret =>
        if Nat.eqb (length (trim secret)) 0 then
          (Done None,
           {| env := env p1;
              trace := trace p2 ++ [Log error "Empty %s" [VStr secretName]] |})
        else
          match requiredLength with
          | Some n =>
              if andb (truthy (VNum n))
                      (length_differs (length (trim secret)) n)
              then
                (Done None,
                 {| env := env p1;
                    trace := trace p2
                      ++ [Log error "%s must be exactly length %d (was %d)"
                            [VStr secretName; VNum n;
                             VNum (Int (Z.of_nat (length (trim secret))))]] |})
              else (Done (Some (trim secret)), p2)
          | None => (Done (Some (trim secret)), p2)
          end
    end.
Proof.
  intros Hi. unfold loadSecretFromFile, Loader.bind at 1. rewrite Hi.
  cbv zeta. unfold Loader.bind at 1. rewrite log_run.
  unfold Loader.bind at 1, readFile, Loader.bind at 1, emit, ret.
  cbn [env trace].
  destruct (contents H resolvedPath) as [secret|].
  - destruct (Nat.eqb (length (trim secret)) 0); [reflexivity|].
    destruct requiredLength as [n|]; [|reflexivity].
    destruct (andb _ _); reflexivity.
  - reflexivity.
Qed.

End SecretContent.

Lemma length_zero_empty s : Nat.eqb (length s) 0 = true <-> s = "".
Proof.
  destruct s; simpl; split; auto; discriminate.
Qed.

(** X29. Once the file is read, its content is trimmed of white space
    at both ends. An empty rest is reported and nothing is returned. A
    required length that is given and is truthy (an integer other than
    zero) must be the length of the rest: otherwise both lengths are
    reported and nothing is returned. In every other case the rest is
    returned as it is. *)
Theorem secret_content_rules (H : Host) (path secretName : string)
    (requiredLength : option number) (p p1 : process)
    (resolvedPath secret : string) :
  interpolate (match_markers path) path p = (Done (Some resolvedPath), p1) ->
  contents H resolvedPath = Some secret ->
  let result := loadSecretFromFile H path secretName requiredLength p in
  let trimmed := trim secret in
  (exists l r,
      secret = (l ++ trimmed ++ r)%string
      /\ all_space l = true /\ all_space r = true
      /\ match first trimmed with
         | Some c => is_space c = false
         | None => True
         end
      /\ match last trimmed with
         | Some c => is_space c = false
         | None => True
         end)
  /\ (trimmed = "" ->
      fst result = Done None
      /\ In (Log error "Empty %s" [VStr secretName]) (trace (snd result)))
  /\ (forall n,
        trimmed <> "" -> requiredLength = Some n ->
        truthy (VNum n) = true ->
        length_differs (length trimmed) n = true ->
        fst result = Done None
        /\ In (Log error "%s must be exactly length %d (was %d)"
                 [VStr secretName; VNum n;
                  VNum (Int (Z.of_nat (length trimmed)))])
              (trace (snd result)))
  /\ (trimmed <> "" ->
      requiredLength = None
      \/ (exists n, requiredLength = Some n
                    /\ (truthy (VNum n) = false
                        \/ length_differs (length trimmed) n = false)) ->
      fst result = Done (Some trimmed))
  /\ (forall z, truthy (VNum (Int z)) = true <-> z <> 0%Z)
  /\ (forall x z, length_differs x (Int z) = true <-> Z.of_nat x <> z).
Proof.
  intros Hi Hc result trimmed.
  split; [apply trim_spec|].
  unfold result. rewrite (loadSecretFromFile_resolved _ _ _ _ _ _ _ Hi).
  cbv zeta. rewrite Hc. fold trimmed.
  split; [|split; [|split; [|split]]].
  - intros ->. simpl. split; auto.
    apply in_or_app. right. now left.
  - intros n Hne -> Ht Hd.
    destruct (Nat.eqb (length trimmed) 0) eqn:E;
      [apply length_zero_empty in E; contradiction|].
    rewrite Ht, Hd. simpl. split; auto.
    apply in_or_app. right. now left.
  - intros Hne Hcase.
    destruct (Nat.eqb (length trimmed) 0) eqn:E;
      [apply length_zero_empty in E; contradiction|].
    destruct Hcase as [->|(n & -> & [Ht|Hd])]; auto.
    + now rewrite Ht.
    + rewrite Hd. now rewrite andb_false_r.
  - intros z. simpl. rewrite negb_true_iff. apply Z.eqb_neq.
  - intros x z. simpl. rewrite negb_true_iff. apply Z.eqb_neq.
Qed.

Lemma secret_content_rules_witness :
  fst (loadSecretFromFile Examples.host "/run/credentials/cookie"
         "cookie secret" (Some (Int 32)) (Examples.started []))
  = Done (Some (trim (Examples.cookie32 ++ Examples.newline))).
Proof.
  refine (proj1 (proj2 (proj2 (proj2
            (secret_content_rules Examples.host "/run/credentials/cookie"
               "cookie secret" (Some (Int 32)) (Examples.started [])
               (Examples.started []) "/run/credentials/cookie"
               (Examples.cookie32 ++ Examples.newline)%string
               eq_refl eq_refl)))) _ _).
  - discriminate.
  - right. exists (Int 32). split; [reflexivity|]. right. reflexivity.
Defined.


(** ** Markers *)

Import Markers.


Lemma append_nil_r (a : string) : (a ++ "")%string = a.
Proof. induction a as [|x a IH]; simpl; congruence. Qed.




























Section Interpolation.



End Interpolation.

Lemma loadSecretFromFile_stopped H path secretName requiredLength p p' :
  interpolate (match_markers path) path p = (Done None, p') ->
  loadSecretFromFile H path secretName requiredLength p = (Done None, p').
Proof.
  intros Hi. unfold loadSecretFromFile, Loader.bind at 1. now rewrite Hi.
Qed.




(* ================================================================= *)
(** * The claim about loading without overrides *)

Lemma quiet_ret A (a : A) : quiet (ret a).
Proof.
  intros p. split; auto. exists []. split; auto. simpl. now rewrite app_nil_r.
Qed.

Lemma quiet_exit A code : quiet (@exit A code).
Proof.
  intros p. split; auto. exists []. split; auto. simpl. now rewrite app_nil_r.
Qed.

Lemma quiet_throw A msg : quiet (@throw A msg).
Proof.
  intros p. split; auto. exists []. split; auto. simpl. now rewrite app_nil_r.
Qed.

Lemma quiet_emit e : override_event e = false -> quiet (emit e).
Proof.
  intros He p. split; auto. exists [e]. split; auto. simpl. now rewrite He.
Qed.

Lemma quiet_log lvl format args : quiet (log lvl format args).
Proof. now apply quiet_emit. Qed.

Lemma quiet_getenv name : quiet (getenv name).
Proof.
  intros p. split; auto. exists []. split; auto. simpl. now rewrite app_nil_r.
Qed.

Lemma quiet_bind A B (m : M A) (f : A -> M B) :
  quiet m -> (forall a, quiet (f a)) -> quiet (Loader.bind m f).
Proof.
  intros Hm Hf p. unfold Loader.bind.
  destruct (Hm p) as (He & evs & Ht & Hq).
  destruct (m p) as [[a|code|msg] p1]; simpl in *.
  - destruct (Hf a p1) as (He' & evs' & Ht' & Hq').
    split; [congruence|]. exists (evs ++ evs'). split.
    + rewrite Ht', Ht. now rewrite app_assoc.
    + rewrite forallb_app. now rewrite Hq, Hq'.
  - split; auto. exists evs. auto.
  - split; auto. exists evs. auto.
Qed.

(** Takes a computation apart along its binds and branches. *)
Ltac quiet_steps :=
  repeat first
    [ apply quiet_ret | apply quiet_exit | apply quiet_throw
    | apply quiet_log | apply quiet_getenv
    | apply quiet_emit; reflexivity
    | apply quiet_bind; [|intros ?]
    | match goal with
      | |- quiet (match ?x with _ => _ end) => destruct x
      | |- quiet (if ?b then _ else _) => destruct b
      end ].

Section Quiet.
Variable K : Keywords.
Variable H : Host.

Lemma quiet_interpolate ms : forall resolved, quiet (interpolate ms resolved).
Proof.
  induction ms as [|m ms IH]; intros resolved; cbn [interpolate].
  - apply quiet_ret.
  - quiet_steps. apply IH.
Qed.

Lemma quiet_readFile path : quiet (readFile H path).
Proof. unfold readFile. quiet_steps. Qed.

Lemma quiet_loadSecretFromFile path secretName requiredLength :
  quiet (loadSecretFromFile H path secretName requiredLength).
Proof.
  unfold loadSecretFromFile.
  apply quiet_bind; [apply quiet_interpolate|]. intros resolved.
  destruct resolved; [|apply quiet_ret].
  apply quiet_bind; [apply quiet_log|]. intros _.
  apply quiet_bind; [apply quiet_readFile|]. intros read.
  quiet_steps.
Qed.

Lemma quiet_log_each lvl lines : quiet (log_each lvl lines).
Proof. induction lines; cbn [log_each]; quiet_steps. assumption. Qed.

Lemma quiet_log_errors errs : forall number, quiet (log_errors number errs).
Proof.
  induction errs as [|[path what] errs IH]; intros number;
    cbn [log_errors]; quiet_steps. apply IH.
Qed.

Lemma quiet_validateConfig config : quiet (validateConfig K config).
Proof.
  unfold validateConfig. apply quiet_bind; [apply quiet_log|]. intros _.
  destruct (validate K (headplaneConfig K) config); quiet_steps.
  apply quiet_log_errors.
Qed.

Lemma quiet_loadConfigFile path : quiet (loadConfigFile H path).
Proof.
  unfold loadConfigFile.
  apply quiet_bind; [apply quiet_log|]. intros _.
  apply quiet_bind; [apply quiet_readFile|]. intros read.
  destruct read as [data|]; [|quiet_steps].
  destruct (errors (parseDocument H data)).
  - apply quiet_bind; [|intros _; apply quiet_ret].
    destruct (warnings (parseDocument H data)); quiet_steps.
    apply quiet_log_each.
  - quiet_steps. apply quiet_log_each.
Qed.

Lemma quiet_resolveSecret section path_field field secretName
      requiredLength config :
  quiet (resolveSecret H section path_field field secretName
           requiredLength config).
Proof.
  unfold resolveSecret.
  destruct (prop (prop config section) path_field); try apply quiet_ret.
  destruct (truthy (VStr s)); [|apply quiet_ret].
  apply quiet_bind; [apply quiet_loadSecretFromFile|]. intros secret.
  quiet_steps.
Qed.

Lemma quiet_loadBase path : quiet (loadBase K H path).
Proof.
  unfold loadBase.
  apply quiet_bind; [apply quiet_log|]. intros _.
  apply quiet_bind; [unfold validateConfigPath; quiet_steps|]. intros valid.
  destruct (negb valid); [apply quiet_exit|].
  apply quiet_bind; [apply quiet_loadConfigFile|]. intros data.
  destruct (negb (truthy data)); [apply quiet_exit|].
  apply quiet_bind; [apply quiet_validateConfig|]. intros config.
  destruct config as [config|]; [|apply quiet_exit].
  apply quiet_bind; [apply quiet_resolveSecret|]. intros config1.
  apply quiet_bind; [apply quiet_resolveSecret|]. intros config2.
  apply quiet_resolveSecret.
Qed.

Lemma quiet_loadConfig_false rootKeys path :
  quiet (loadConfig K H rootKeys false path).
Proof.
  unfold loadConfig.
  apply quiet_bind; [apply quiet_loadBase|]. intros config.
  cbn [negb]. quiet_steps.
Qed.

End Quiet.

(** C8. With [loadEnv] false, [loadConfig] ends as the stages up to
    secret resolution end, with the document they leave; it does not
    change the environment, loads no [.env] file and does not scan the
    environment for overrides; what the [.env] file holds and which
    names are root names make no difference. *)
Theorem loadConfig_without_overrides (K : Keywords) (H : Host)
    (rootKeys : list string) (path : string) (p : process) :
  let result := loadConfig K H rootKeys false path p in
  fst result = fst (loadBase K H path p)
  /\ env (snd result) = env p
  /\ (exists evs,
        trace (snd result) = trace p ++ evs
        /\ ~ In ConfigDotenv evs /\ ~ In EnvEntries evs)
  /\ (forall entries rootKeys',
        loadConfig K (with_dotenv entries H) rootKeys' false path p = result).
Proof.
  intros result. split; [|split; [|split]].
  - unfold result, loadConfig, Loader.bind at 1.
    destruct (loadBase K H path p) as [[config|code|msg] p1]; reflexivity.
  - apply (quiet_loadConfig_false K H rootKeys path p).
  - destruct (quiet_loadConfig_false K H rootKeys path p)
      as (_ & evs & Ht & Hq).
    exists evs. split; [exact Ht|].
    rewrite forallb_forall in Hq.
    split; intros Hin; apply Hq in Hin; discriminate.
  - intros entries rootKeys'. reflexivity.
Qed.

(* ================================================================= *)
(** * Further properties of the schema *)

Section SecretPairs.
Variable K : Keywords.

(** X1. The cookie secret of a valid document: given inline with 32
    characters and no path beside it, or [null] with a path. *)
Theorem cookie_secret_pair (doc out : value) :
  validate K (headplaneConfig K) doc = Valid out ->
  (exists s,
      prop (prop doc "server") "cookie_secret" = VStr s
      /\ length s = 32
      /\ prop (prop doc "server") "cookie_secret_path" = VUndef)
  \/ (prop (prop doc "server") "cookie_secret" = VNull
      /\ exists path,
           prop (prop doc "server") "cookie_secret_path" = VStr path).
Proof.
  intros Hv.
  pose proof (fun Hnd => validate_key K _ _ _ _ "server" _ _ Hnd Hv eq_refl eq_refl)
    as Hk.
  destruct (Hk ltac:(distinct_keys)) as (o & o' & -> & -> & Hs). clear Hk.
  destruct (lookup "server" o) as [x|] eqn:Ex;
    [|destruct Hs as [Hs _]; exfalso; now apply Hs].
  assert (Hps : prop (VObj o) "server" = x)
    by (unfold prop, get; now rewrite Ex).
  rewrite !Hps. clear Hps.
  destruct Hs as (Hc & x' & Hr & Ex').
  rewrite check_pipe in Hc.
  apply check_object_nil in Hc; [|reflexivity]. destruct Hc as (sv & -> & Hc & _).
  apply run_pipe in Hr. destruct Hr as (mid & Hr & Hf).
  apply run_object in Hr. destruct Hr as (sv' & Ep & ->).
  pose proof (fun Hnd =>
                run_key _ _ _ _ "cookie_secret" _ _ Hnd Ep eq_refl) as Hu.
  pose proof (fun Hnd =>
                run_key _ _ _ _ "cookie_secret_path" _ _ Hnd Ep eq_refl)
    as Hp.
  pose proof (check_key _ _ _ _ "cookie_secret" _ _ Hc eq_refl) as Hcu.
  pose proof (check_key _ _ _ _ "cookie_secret_path" _ _ Hc eq_refl) as Hcp.
  specialize (Hu ltac:(distinct_keys)). specialize (Hp ltac:(distinct_keys)).
  unfold prop, get in Hf |- *.
  rewrite !lookup_keep in Hf by reflexivity.
  destruct (lookup "cookie_secret" sv) as [z|];
    [|exfalso; now apply Hcu].
  destruct Hu as (z' & Hz & Lz). rewrite Lz in Hf.
  rewrite check_pipe in Hcu. apply run_pipe in Hz.
  destruct Hz as (zm & Hz & Hzf).
  assert (Hzm : zm = z).
  { simpl in Hz. destruct (allows K t_string z); simpl in Hz; congruence. }
  subst zm.
  assert (Hshape : (exists s, z = VStr s /\ length s = 32 /\ z' = z)
                   \/ (z = VNull /\ z' = VNull)).
  { destruct z; simpl in Hcu; try discriminate.
    - right. split; auto. now injection Hzf as <-.
    - left. exists s. destruct (Nat.eqb (length s) 32) eqn:El;
        [|discriminate].
      apply Nat.eqb_eq in El. injection Hzf as <-. auto. }
  destruct (lookup "cookie_secret_path" sv) as [y|].
  - destruct Hp as (y' & Hy & Ly). rewrite Ly in Hf.
    simpl in Hcp. destruct y; try discriminate.
    simpl in Hy. injection Hy as <-.
    destruct Hshape as [(s0 & -> & Hl & ->)|[-> ->]].
    + exfalso. simpl in Hf. discriminate.
    + right. split; auto. eauto.
  - rewrite Hp in Hf.
    destruct Hshape as [(s0 & -> & Hl & ->)|[-> ->]].
    + left. exists s0. auto.
    + exfalso. simpl in Hf. discriminate.
Qed.


(** X2. The secrets of the [oidc] section of a valid document: the
    client secret is given inline with no path beside it, or is [null]
    with a path; the API key is given inline, with no path. *)
Theorem oidc_secret_pairs (doc out section : value) :
  validate K (headplaneConfig K) doc = Valid out ->
  lookup "oidc" (own_props doc) = Some section ->
  ((exists s,
       prop section "client_secret" = VStr s
       /\ prop section "client_secret_path" = VUndef)
   \/ (prop section "client_secret" = VNull
       /\ exists path, prop section "client_secret_path" = VStr path))
  /\ (exists key, prop section "headscale_api_key" = VStr key)
  /\ prop section "headscale_api_key_path" = VUndef.
Proof.
  intros Hv Hsec.
  pose proof (valid_oidc_api_key_path K doc out Hv) as Hnopath.
  pose proof (fun Hnd => validate_key K _ _ _ _ "oidc" _ _ Hnd Hv eq_refl eq_refl)
    as Hk.
  destruct (Hk ltac:(distinct_keys)) as (o & o' & -> & -> & Hs). clear Hk.
  simpl in Hsec.
  assert (Hps : prop (VObj o) "oidc" = section)
    by (unfold prop, get; now rewrite Hsec).
  rewrite Hps in Hnopath. clear Hps. rewrite Hsec in Hs.
  destruct Hs as (Hc & x' & Hr & Ex').
  rewrite check_pipe in Hc.
  apply check_object_nil in Hc; [|reflexivity]. destruct Hc as (oi & -> & Hc & _).
  apply run_pipe in Hr. destruct Hr as (mid & Hr & Hf).
  apply run_object in Hr. destruct Hr as (oi' & Ep & ->).
  pose proof (fun Hnd =>
                run_key _ _ _ _ "client_secret" _ _ Hnd Ep eq_refl) as Hu.
  pose proof (fun Hnd =>
                run_key _ _ _ _ "client_secret_path" _ _ Hnd Ep eq_refl)
    as Hp.
  pose proof (check_key _ _ _ _ "client_secret" _ _ Hc eq_refl) as Hcu.
  pose proof (check_key _ _ _ _ "client_secret_path" _ _ Hc eq_refl) as Hcp.
  pose proof (check_key _ _ _ _ "headscale_api_key" _ _ Hc eq_refl) as Hck.
  specialize (Hu ltac:(distinct_keys)). specialize (Hp ltac:(distinct_keys)).
  split; [|split; [|exact Hnopath]].
  - unfold prop, get in Hf |- *.
    rewrite !lookup_keep in Hf by reflexivity.
    destruct (lookup "client_secret" oi) as [z|];
      [|exfalso; now apply Hcu].
    destruct Hu as (z' & Hz & Lz). rewrite Lz in Hf.
    assert (Hzz : z' = z).
    { simpl in Hz. destruct (allows K t_string z); simpl in Hz; congruence. }
    subst z'.
    assert (Hshape : (exists s, z = VStr s) \/ z = VNull).
    { destruct z; simpl in Hcu; try discriminate; eauto. }
    destruct (lookup "client_secret_path" oi) as [y|].
    + destruct Hp as (y' & Hy & Ly). rewrite Ly in Hf.
      simpl in Hcp. destruct y; try discriminate.
      simpl in Hy. injection Hy as <-.
      destruct Hshape as [(s0 & ->)| ->].
      * exfalso. simpl in Hf. discriminate.
      * right. split; auto. eauto.
    + rewrite Hp in Hf.
      destruct Hshape as [(s0 & ->)| ->].
      * left. exists s0. auto.
      * exfalso. simpl in Hf. discriminate.
  - unfold prop, get.
    destruct (lookup "headscale_api_key" oi) as [z|];
      [|exfalso; now apply Hck].
    simpl in Hck. destruct z; try discriminate. eauto.
Qed.

End SecretPairs.

Lemma cookie_secret_pair_witness :
  (exists s,
      prop (prop (Examples.minimal "https://example.com/") "server")
        "cookie_secret" = VStr s
      /\ length s = 32
      /\ prop (prop (Examples.minimal "https://example.com/") "server")
           "cookie_secret_path" = VUndef)
  \/ (prop (prop (Examples.minimal "https://example.com/") "server")
        "cookie_secret" = VNull
      /\ exists path,
           prop (prop (Examples.minimal "https://example.com/") "server")
             "cookie_secret_path" = VStr path).
Proof.
  apply (cookie_secret_pair Examples.keywords
           (Examples.minimal "https://example.com/")
           (VObj
              [("debug", VBool false);
               ("server",
                 VObj [("host", VStr "0.0.0.0"); ("port", VNum (Int 3000));
                       ("cookie_secret", VStr Examples.cookie32);
                       ("cookie_secure", VBool true);
                       ("agent", agent_defaults)]);
               ("headscale",
                 VObj [("url", VStr "https://example.com");
                       ("config_strict", VBool true)])])).
  reflexivity.
Defined.

(** The inline cookie secret must have 32 characters; beside a path
    it is refused, and so is a document with neither. *)
Lemma cookie_secret_examples :
  validate Examples.keywords (headplaneConfig Examples.keywords)
    (VObj [("debug", VBool false);
           ("server",
             VObj [("host", VStr "0.0.0.0"); ("port", VStr "8080");
                   ("cookie_secret", VStr "too short");
                   ("cookie_secure", VStr "true")]);
           ("headscale", Examples.headscale "https://hs.example.com")])
  = Throws "cookie_secret must be exactly 32 characters long"
  /\ validate Examples.keywords (headplaneConfig Examples.keywords)
       (VObj [("debug", VBool false);
              ("server",
                VObj [("host", VStr "0.0.0.0"); ("port", VStr "8080");
                      ("cookie_secret", VStr Examples.cookie32);
                      ("cookie_secret_path", VStr "/run/cookie");
                      ("cookie_secure", VStr "true")]);
              ("headscale", Examples.headscale "https://hs.example.com")])
     = Throws
         "Must specify either cookie_secret or cookie_secret_path, but not both"
  /\ validate Examples.keywords (headplaneConfig Examples.keywords)
       (VObj [("debug", VBool false);
              ("server",
                VObj [("host", VStr "0.0.0.0"); ("port", VStr "8080");
                      ("cookie_secret", VNull);
                      ("cookie_secure", VStr "true")]);
              ("headscale", Examples.headscale "https://hs.example.com")])
     = Throws
         "Must specify either cookie_secret or cookie_secret_path, but not both"
  /\ prop (prop
             match
               validate Examples.keywords (headplaneConfig Examples.keywords)
                 (VObj [("debug", VBool false);
                        ("server",
                          VObj [("host", VStr "0.0.0.0");
                                ("port", VStr "8080");
                                ("cookie_secret", VStr Examples.cookie32);
                                ("cookie_secure", VStr "true")]);
                        ("headscale",
                          Examples.headscale "https://hs.example.com")])
             with
             | Valid out => out
             | _ => VUndef
             end "server") "port" = VNum (Int 8080).
Proof. repeat split. Qed.

Lemma oidc_secret_pairs_witness :
  ((exists s,
       prop (Examples.oidc [("headscale_api_key", VStr "key")])
         "client_secret" = VStr s
       /\ prop (Examples.oidc [("headscale_api_key", VStr "key")])
            "client_secret_path" = VUndef)
   \/ (prop (Examples.oidc [("headscale_api_key", VStr "key")])
         "client_secret" = VNull
       /\ exists path,
            prop (Examples.oidc [("headscale_api_key", VStr "key")])
              "client_secret_path" = VStr path))
  /\ (exists key,
        prop (Examples.oidc [("headscale_api_key", VStr "key")])
          "headscale_api_key" = VStr key)
  /\ prop (Examples.oidc [("headscale_api_key", VStr "key")])
       "headscale_api_key_path" = VUndef.
Proof.
  apply (oidc_secret_pairs Examples.keywords
           (Examples.with_section "oidc"
              (Examples.oidc [("headscale_api_key", VStr "key")]))
           (VObj
              [("debug", VBool false);
               ("server",
                 VObj [("host", VStr "0.0.0.0"); ("port", VNum (Int 3000));
                       ("cookie_secret", VStr Examples.cookie32);
                       ("cookie_secure", VBool true);
                       ("agent", agent_defaults)]);
               ("oidc",
                 VObj [("issuer", VStr "https://idp.example.com");
                       ("client_id", VStr "headplane");
                       ("client_secret", VStr "s3cret");
                       ("token_endpoint_auth_method",
                         VStr "client_secret_basic");
                       ("disable_api_key_login", VBool false);
                       ("headscale_api_key", VStr "key");
                       ("user_storage_file",
                         VStr "/var/lib/headplane/users.json");
                       ("strict_validation", VBool true)]);
               ("headscale",
                 VObj [("url", VStr "https://hs.example.com");
                       ("config_strict", VBool true)])])).
  - reflexivity.
  - reflexivity.
Defined.

(* ================================================================= *)
(** * The loader from end to end *)

Lemma bind_Done A B (m : M A) (f : A -> M B) p b p' :
  Loader.bind m f p = (Done b, p') ->
  exists a p1, m p = (Done a, p1) /\ f a p1 = (Done b, p').
Proof.
  unfold Loader.bind. destruct (m p) as [[a|code|msg] p1]; try discriminate.
  eauto.
Qed.

Lemma validateConfig_Done K doc p config p' :
  validateConfig K doc p = (Done (Some config), p') ->
  validate K (headplaneConfig K) doc = Valid config.
Proof.
  unfold validateConfig. intros Hb. apply bind_Done in Hb.
  destruct Hb as (_ & p1 & _ & Hb).
  destruct (validate K (headplaneConfig K) doc) as [out|errs|msg].
  - unfold ret in Hb. congruence.
  - apply bind_Done in Hb. destruct Hb as (_ & p2 & _ & Hb).
    apply bind_Done in Hb. destruct Hb as (_ & p3 & _ & Hb).
    discriminate.
  - discriminate.
Qed.

Lemma prop_set_field_other section field v config k :
  k <> section -> prop (set_field section field v config) k = prop config k.
Proof.
  intros Hne. destruct config; simpl; auto.
  destruct (get section props); simpl; auto.
  now apply get_set_other.
Qed.

(** Reading a secret changes nothing outside its section. *)
Lemma resolveSecret_Done H section path_field field secretName
      requiredLength config p config' p' k :
  resolveSecret H section path_field field secretName requiredLength config p
  = (Done config', p') ->
  k <> section -> prop config' k = prop config k.
Proof.
  unfold resolveSecret. intros Hr Hne.
  destruct (prop (prop config section) path_field);
    try (unfold ret in Hr; congruence).
  destruct (truthy (VStr s)); [|unfold ret in Hr; congruence].
  apply bind_Done in Hr. destruct Hr as (secret & p1 & _ & Hr).
  destruct (negb (truthy (of_option secret))); [discriminate|].
  unfold ret in Hr. injection Hr as <- _.
  now apply prop_set_field_other.
Qed.

Lemma valid_debug K doc out b :
  validate K (headplaneConfig K) doc = Valid out ->
  prop doc "debug" = VBool b -> prop out "debug" = VBool b.
Proof.
  intros Hv Hd.
  pose proof (fun Hnd => validate_key K _ _ _ _ "debug" _ _ Hnd Hv eq_refl eq_refl)
    as Hk.
  destruct (Hk ltac:(distinct_keys)) as (o & o' & -> & -> & Hs). clear Hk.
  unfold prop, get in Hd |- *.
  destruct (lookup "debug" o) as [x|]; [|discriminate]. subst x.
  destruct Hs as (_ & x' & Hr & ->). simpl in Hr.
  destruct (allows K t_string (VBool b)); simpl in Hr; now injection Hr as <-.
Qed.

(** X3. The document [loadConfig] returns when overrides are off: its
    [debug] field is the debug switch of the logger, whatever the file
    said, and its [headscale.url] is a URL less one trailing slash. *)
Theorem loadConfig_minimal (K : Keywords) (H : Host)
    (rootKeys : list string) (path : string) (p p' : process)
    (config : value) :
  loadConfig K H rootKeys false path p = (Done config, p') ->
  prop config "debug" = VBool (debugEnabled H)
  /\ exists u,
       string_url K u = true
       /\ prop (prop config "headscale") "url" = VStr (strip_slash u).
Proof.
  unfold loadConfig. intros Hl. apply bind_Done in Hl.
  destruct Hl as (c3 & p1 & Hb & Hl). cbn [negb] in Hl.
  apply bind_Done in Hl. destruct Hl as (_ & p2 & _ & Hl).
  apply bind_Done in Hl. destruct Hl as (_ & p3 & _ & Hl).
  unfold ret in Hl. injection Hl as -> _.
  unfold loadBase in Hb.
  apply bind_Done in Hb. destruct Hb as (_ & q1 & _ & Hb).
  apply bind_Done in Hb. destruct Hb as (valid & q2 & _ & Hb).
  destruct (negb valid); [discriminate|].
  apply bind_Done in Hb. destruct Hb as (data & q3 & _ & Hb).
  destruct (negb (truthy data)); [discriminate|].
  apply bind_Done in Hb. destruct Hb as (c0 & q4 & Hv & Hb).
  destruct c0 as [c0|]; [|discriminate].
  apply validateConfig_Done in Hv.
  apply bind_Done in Hb. destruct Hb as (c1 & q5 & H1 & Hb).
  apply bind_Done in Hb. destruct Hb as (c2 & q6 & H2 & H3).
  assert (Hsame : forall k, k <> "server" -> k <> "oidc" ->
                            prop config k = prop c0 k).
  { intros k Hs Ho.
    rewrite (resolveSecret_Done _ _ _ _ _ _ _ _ _ _ k H3 Ho).
    rewrite (resolveSecret_Done _ _ _ _ _ _ _ _ _ _ k H2 Ho).
    apply (resolveSecret_Done _ _ _ _ _ _ _ _ _ _ k H1 Hs). }
  split.
  - rewrite Hsame by discriminate.
    apply (valid_debug K _ _ _ Hv).
    unfold prop. apply get_set_same.
  - destruct (valid_headscale_url K _ _ Hv) as (u & _ & Hu & Hout).
    exists u. split; auto. rewrite Hsame by discriminate. exact Hout.
Qed.

Lemma loadConfig_minimal_witness :
  prop (Examples.loaded) "debug" = VBool (debugEnabled Examples.host)
  /\ exists u,
       string_url Examples.keywords u = true
       /\ prop (prop Examples.loaded "headscale") "url"
          = VStr (strip_slash u).
Proof.
  apply (loadConfig_minimal Examples.keywords Examples.host Examples.roots
           Examples.config_file
           (Examples.started [("CREDENTIALS_DIRECTORY", "/run/credentials")])
           (snd (loadConfig Examples.keywords Examples.host Examples.roots
                   false Examples.config_file
                   (Examples.started
                      [("CREDENTIALS_DIRECTORY", "/run/credentials")])))).
  reflexivity.
Defined.

(** With overrides on and no override in the environment or the
    [.env] file beyond a port, the loader stops: the fragment lacks the
    keys the partial schema requires. With [HEADPLANE_DEBUG],
    [HEADPLANE_SERVER__COOKIE_SECURE] and
    [HEADPLANE_HEADSCALE__CONFIG_STRICT] set it goes through. *)
Lemma loadConfig_with_overrides :
  fst (loadConfig Examples.keywords Examples.host Examples.roots true
         Examples.config_file
         (Examples.started [("CREDENTIALS_DIRECTORY", "/run/credentials")]))
  = Exit 1
  /\ exists config,
       fst (loadConfig Examples.keywords Examples.host Examples.roots true
              Examples.config_file
              (Examples.started
                 [("CREDENTIALS_DIRECTORY", "/run/credentials");
                  ("HEADPLANE_DEBUG", "1");
                  ("HEADPLANE_SERVER__COOKIE_SECURE", "1");
                  ("HEADPLANE_HEADSCALE__CONFIG_STRICT", "1")]))
       = Done config
       /\ prop (prop config "server") "port" = VNum (Int 8080).
Proof.
  split; [reflexivity|]. eexists. split; reflexivity.
Qed.

(* ================================================================= *)
(** * Further properties of the schema and of the loader *)

Import Shapes.

(** ** Paths of override variables *)

Lemma concat_cons_char sep c parts :
  parts <> [] ->
  String.concat sep (cons_char c parts) = String c (String.concat sep parts).
Proof.
  destruct parts as [|part rest]; [congruence|]. intros _.
  destruct rest; reflexivity.
Qed.

Lemma split_dunder_join s :
  String.concat "__" (split_dunder s) = s
  /\ forall c, String.concat "__" (split_dunder (String c s)) = String c s.
Proof.
  induction s as [|d s [IH1 IH2]].
  - split; [reflexivity|]. intros c. reflexivity.
  - split; [apply IH2|]. intros c.
    change (split_dunder (String c (String d s)))
      with (if andb (Ascii.eqb c "_") (Ascii.eqb d "_")
            then EmptyString :: split_dunder s
            else cons_char c (split_dunder (String d s))).
    destruct (andb (Ascii.eqb c "_") (Ascii.eqb d "_")) eqn:E.
    + apply andb_prop in E. destruct E as [Ec Ed].
      apply Ascii.eqb_eq in Ec, Ed. subst c d.
      pose proof (split_dunder_not_nil s) as Hn.
      destruct (split_dunder s) as [|part rest] eqn:Es; [congruence|].
      change (String.concat "__" (EmptyString :: part :: rest))
        with ("__" ++ String.concat "__" (part :: rest))%string.
      now rewrite IH1.
    + rewrite concat_cons_char by apply split_dunder_not_nil.
      now rewrite IH2.
Qed.

Lemma split_dunder_head d s :
  Ascii.eqb d "_" = false ->
  exists part rest, split_dunder (String d s) = String d part :: rest.
Proof.
  intros Hd. destruct s as [|e s].
  - exists EmptyString, []. reflexivity.
  - change (split_dunder (String d (String e s)))
      with (if andb (Ascii.eqb d "_") (Ascii.eqb e "_")
            then EmptyString :: split_dunder s
            else cons_char d (split_dunder (String e s))).
    rewrite Hd. cbn [andb].
    destruct (split_dunder (String e s)) as [|part rest];
      [exists EmptyString, []|exists part, rest]; reflexivity.
Qed.

Lemma has_dunder_cons c seg :
  has_dunder seg = false ->
  (Ascii.eqb c "_" = true -> first seg <> Some "_"%char) ->
  has_dunder (String c seg) = false.
Proof.
  intros Hseg Hc. destruct seg as [|d seg]; [reflexivity|].
  change (has_dunder (String c (String d seg)))
    with (orb (andb (Ascii.eqb c "_") (Ascii.eqb d "_"))
              (has_dunder (String d seg))).
  rewrite Hseg, orb_false_r.
  destruct (Ascii.eqb c "_") eqn:Ec; [|reflexivity].
  cbn [andb]. destruct (Ascii.eqb d "_") eqn:Ed; [|reflexivity].
  apply Ascii.eqb_eq in Ed. subst d. exfalso. now apply Hc.
Qed.

Lemma split_dunder_segments s :
  Forall (fun seg => has_dunder seg = false) (split_dunder s)
  /\ forall c,
       Forall (fun seg => has_dunder seg = false) (split_dunder (String c s)).
Proof.
  induction s as [|d s [IH1 IH2]].
  - split; [repeat constructor|]. intros c. repeat constructor.
  - split; [apply IH2|]. intros c.
    change (split_dunder (String c (String d s)))
      with (if andb (Ascii.eqb c "_") (Ascii.eqb d "_")
            then EmptyString :: split_dunder s
            else cons_char c (split_dunder (String d s))).
    destruct (andb (Ascii.eqb c "_") (Ascii.eqb d "_")) eqn:E.
    + constructor; [reflexivity|assumption].
    + specialize (IH2 d).
      destruct (Ascii.eqb d "_") eqn:Ed.
      * (* then [c] is not an underscore *)
        rewrite andb_true_r in E.
        destruct (split_dunder (String d s)) as [|part rest];
          [repeat constructor|].
        cbn [cons_char]. inversion IH2 as [|? ? Hp Hr]; subst.
        constructor; [|assumption].
        apply has_dunder_cons; [assumption|]. rewrite E. discriminate.
      * destruct (split_dunder_head d s Ed) as (part & rest & Hs).
        rewrite Hs in *. cbn [cons_char].
        inversion IH2 as [|? ? Hp Hr]; subst.
        constructor; [|assumption].
        apply has_dunder_cons; [assumption|].
        intros _. cbn [first]. intros [= ->]. discriminate.
Qed.

(** X4. The path of an override variable is its name without the
    prefix, in lower case, cut at every [__]: joining the segments with
    [__] gives that name back, no segment holds a [__] of its own, and
    two variables have the same path exactly when their names differ
    by letter case only. *)
Theorem configPath_round_trip :
  (forall key,
      String.concat "__" (configPath key)
      = toLowerCase (replace "HEADPLANE_" "" key))
  /\ (forall key, Forall (fun seg => has_dunder seg = false) (configPath key))
  /\ (forall key key',
        startsWith "HEADPLANE_" key = true ->
        startsWith "HEADPLANE_" key' = true ->
        (configPath key = configPath key'
         <-> toLowerCase (drop 10 key) = toLowerCase (drop 10 key'))).
Proof.
  split; [|split].
  - intros key. apply split_dunder_join.
  - intros key. apply split_dunder_segments.
  - intros key key' Hk Hk'. unfold configPath.
    rewrite !replace_prefix by assumption.
    change (String.length "HEADPLANE_") with 10.
    split; [|now intros ->].
    intros Heq.
    rewrite <- (proj1 (split_dunder_join (toLowerCase (drop 10 key)))).
    rewrite <- (proj1 (split_dunder_join (toLowerCase (drop 10 key')))).
    now rewrite Heq.
Qed.

(** ** Well-formed documents *)

Lemma distinct_NoDup ks : distinct ks = true <-> NoDup ks.
Proof.
  induction ks as [|k ks IH]; simpl.
  - split; [constructor|reflexivity].
  - rewrite andb_true_iff, negb_true_iff, IH. split.
    + intros [Hk Hks]. constructor; [|assumption].
      intros Hin. assert (existsb (String.eqb k) ks = true) as E.
      { apply existsb_exists. exists k. split; [assumption|].
        apply String.eqb_refl. }
      congruence.
    + intros Hnd. inversion Hnd as [|? ? Hk Hks]; subst. split; [|assumption].
      destruct (existsb (String.eqb k) ks) eqn:E; [|reflexivity].
      apply existsb_exists in E. destruct E as (x & Hx & Ex).
      apply String.eqb_eq in Ex. subst x. contradiction.
Qed.

Lemma keys_set_In k v o k' : In k' (keys (set k v o)) -> k' = k \/ In k' (keys o).
Proof.
  induction o as [|[k0 v0] o IH]; simpl.
  - intros [->|[]]. now left.
  - destruct (String.eqb k k0) eqn:E; simpl.
    + intros [->|Hin]; right; [now left|now right].
    + intros [->|Hin]; [right; now left|].
      destruct (IH Hin) as [->|Hin']; [now left|right; now right].
Qed.

Lemma NoDup_keys_set k v o : NoDup (keys o) -> NoDup (keys (set k v o)).
Proof.
  induction o as [|[k0 v0] o IH]; simpl.
  - intros _. constructor; [intros []|constructor].
  - intros Hnd. inversion Hnd as [|? ? Hk Hks]; subst.
    destruct (String.eqb k k0) eqn:E; simpl.
    + constructor; assumption.
    + constructor; [|now apply IH].
      intros Hin. apply keys_set_In in Hin. destruct Hin as [->|Hin].
      * rewrite String.eqb_refl in E. discriminate.
      * contradiction.
Qed.

Lemma forallb_set (f : value -> bool) k v o :
  forallb (fun kv => f (snd kv)) o = true -> f v = true ->
  forallb (fun kv => f (snd kv)) (set k v o) = true.
Proof.
  intros Ho Hv. induction o as [|[k0 v0] o IH]; simpl in *.
  - now rewrite Hv.
  - apply andb_prop in Ho. destruct Ho as [H0 Ho].
    destruct (String.eqb k k0); simpl.
    + now rewrite Hv, Ho.
    + now rewrite H0, IH.
Qed.

Lemma forallb_lookup (f : value -> bool) k o x :
  forallb (fun kv => f (snd kv)) o = true -> lookup k o = Some x ->
  f x = true.
Proof.
  intros Ho Hk. apply lookup_In in Hk.
  rewrite forallb_forall in Ho. exact (Ho _ Hk).
Qed.

Lemma wf_value_obj o :
  wf_value (VObj o) = true <->
  NoDup (keys o) /\ forallb (fun kv => wf_value (snd kv)) o = true.
Proof.
  cbn [wf_value]. rewrite andb_true_iff, distinct_NoDup. reflexivity.
Qed.

Lemma wf_value_set k v o :
  wf_value (VObj o) = true -> wf_value v = true ->
  wf_value (VObj (set k v o)) = true.
Proof.
  rewrite !wf_value_obj. intros [Hnd Ho] Hv. split.
  - now apply NoDup_keys_set.
  - now apply forallb_set.
Qed.

Lemma env_shaped_set k v o :
  env_shaped (VObj o) = true -> env_shaped v = true ->
  env_shaped (VObj (set k v o)) = true.
Proof. cbn [env_shaped]. apply forallb_set. Qed.

Lemma wf_value_lookup k o x :
  wf_value (VObj o) = true -> lookup k o = Some x -> wf_value x = true.
Proof.
  rewrite wf_value_obj. intros [_ Ho]. now apply forallb_lookup.
Qed.

Lemma In_lookup k v o : NoDup (keys o) -> In (k, v) o -> lookup k o = Some v.
Proof.
  induction o as [|[k0 v0] o IH]; simpl; [intros _ []|].
  intros Hnd Hin. inversion Hnd as [|? ? Hk Hks]; subst.
  destruct Hin as [[= -> ->]|Hin].
  - now rewrite String.eqb_refl.
  - destruct (String.eqb k k0) eqn:E; [|now apply IH].
    apply String.eqb_eq in E. subst k0. exfalso. apply Hk.
    apply in_map_iff. exists (k, v). now split.
Qed.

Lemma set_same k v o : lookup k o = Some v -> set k v o = o.
Proof.
  induction o as [|[k0 v0] o IH]; simpl; [discriminate|].
  destruct (String.eqb k k0) eqn:E.
  - now intros [= ->].
  - intros Hk. now rewrite IH.
Qed.

(** ** The object built from the environment *)

Lemma assign_path_shape path : forall value current,
  wf_value (VObj current) = true -> env_shaped (VObj current) = true ->
  match assign_path path value current with
  | Assigned current' | Outside current' _ =>
      wf_value (VObj current') = true /\ env_shaped (VObj current') = true
  | Stuck => True
  end.
Proof.
  induction path as [|k rest IH]; intros value current Hwf Hes.
  - simpl. split.
    + now apply wf_value_set.
    + now apply env_shaped_set.
  - cbn [assign_path]. destruct rest as [|k2 rest].
    + split.
      * now apply wf_value_set.
      * now apply env_shaped_set.
    + cbv zeta.
      match goal with |- context [lookup k ?c] => set (cur := c) end.
      assert (wf_value (VObj cur) = true /\ env_shaped (VObj cur) = true)
        as [Hwf' Hes'].
      { unfold cur. destruct (has k current); [now split|]. split.
        - now apply wf_value_set.
        - now apply env_shaped_set. }
      destruct (lookup k cur) as [x|] eqn:Hk; [|now split].
      destruct x as [| | | | |items|next]; try exact I.
      assert (wf_value (VObj next) = true /\ env_shaped (VObj next) = true)
        as [Hwn Hen].
      { split.
        - exact (wf_value_lookup _ _ _ Hwf' Hk).
        - cbn [env_shaped] in Hes'.
          exact (forallb_lookup env_shaped _ _ _ Hes' Hk). }
      specialize (IH value next Hwn Hen).
      destruct (assign_path (k2 :: rest) value next) as [next'| |next' away];
        try exact I; destruct IH as [Hw He]; split;
        solve [now apply wf_value_set | now apply env_shaped_set].
Qed.

Lemma assign_from_shape H vars : forall before envConfig p result p',
  wf_value (VObj envConfig) = true -> env_shaped (VObj envConfig) = true ->
  assign_from H before vars envConfig p = (Done result, p') ->
  wf_value (VObj result) = true /\ env_shaped (VObj result) = true.
Proof.
  induction vars as [|[key value] vars IH];
    intros before envConfig p result p' Hwf Hes.
  - cbn [assign_from]. unfold ret. intros [= <- _]. now split.
  - intros Hrun.
    pose proof (assign_path_shape (configPath key) value envConfig Hwf Hes)
      as Hs.
    apply assign_from_cons in Hrun.
    destruct Hrun as [(next & p1 & Ea & Hrun)|(next & away & p1 & Ea & Hrun)];
      rewrite Ea in Hs; destruct Hs as [Hwf' Hes'];
      exact (IH _ _ _ _ _ Hwf' Hes' Hrun).
Qed.

Lemma assign_vars_shape H vars envConfig p result p' :
  wf_value (VObj envConfig) = true -> env_shaped (VObj envConfig) = true ->
  assign_vars H vars envConfig p = (Done result, p') ->
  wf_value (VObj result) = true /\ env_shaped (VObj result) = true.
Proof. apply assign_from_shape. Qed.

(** X5. The object that the loop over the override variables builds
    holds strings and nested objects only, and no object of it has two
    properties of the same name. *)
Theorem envConfig_shape (H : Host) (vars : list (string * string))
    (p p' : process) (envConfig : obj) :
  assign_vars H vars [] p = (Done envConfig, p') ->
  env_shaped (VObj envConfig) = true /\ wf_value (VObj envConfig) = true.
Proof.
  intros Hrun.
  destruct (assign_vars_shape H vars [] p envConfig p' eq_refl eq_refl Hrun).
  now split.
Qed.

Lemma envConfig_shape_witness :
  env_shaped
    (VObj [("server", VObj [("port", VStr "8080"); ("host", VStr "::")]);
           ("debug", VStr "1")]) = true
  /\ wf_value
       (VObj [("server", VObj [("port", VStr "8080"); ("host", VStr "::")]);
              ("debug", VStr "1")]) = true.
Proof.
  apply (envConfig_shape host
           [("HEADPLANE_SERVER__PORT", "8080"); ("HEADPLANE_DEBUG", "1");
            ("HEADPLANE_SERVER__HOST", "::")]
           (started [])
           (snd (assign_vars host
                   [("HEADPLANE_SERVER__PORT", "8080");
                    ("HEADPLANE_DEBUG", "1");
                    ("HEADPLANE_SERVER__HOST", "::")] [] (started [])))).
  reflexivity.
Defined.

(** ** Merging, path by path *)

Lemma wf_value_along path : forall v,
  wf_value v = true -> distinct_along path v = true.
Proof.
  induction path as [|k rest IH]; intros v Hwf; [reflexivity|].
  destruct v as [| | | | |items|o]; try reflexivity.
  cbn [distinct_along]. apply wf_value_obj in Hwf as Hwf'.
  destruct Hwf' as [Hnd _]. apply distinct_NoDup in Hnd. rewrite Hnd.
  destruct (lookup k o) as [x|] eqn:Hk; [|reflexivity].
  apply IH. exact (wf_value_lookup _ _ _ Hwf Hk).
Qed.

Lemma deepMerge_leaf path : forall target source leaf,
  distinct_along path source = true ->
  typeof_object leaf = false -> leaf <> VUndef -> path <> [] ->
  at_path path source = Some leaf ->
  at_path path (deepMerge target source) = Some leaf.
Proof.
  induction path as [|k rest IH]; intros target source leaf Hwf Hty Hun Hne;
    [congruence|].
  cbn [at_path]. destruct source as [| | | | |items|o]; try discriminate.
  destruct (lookup k o) as [x|] eqn:Hk; [|discriminate]. intros Hx.
  cbn [distinct_along] in Hwf. rewrite Hk in Hwf.
  apply andb_prop in Hwf. destruct Hwf as [Hnd Hwx].
  apply distinct_NoDup in Hnd.
  destruct (typeof_object target) eqn:Ht.
  - cbn [deepMerge]. rewrite Ht.
    rewrite merge_entries_lookup, Hk by assumption.
    destruct rest as [|k2 rest].
    + simpl in Hx. injection Hx as ->.
      rewrite Hty. destruct leaf; try reflexivity; congruence.
    + destruct x as [| | | | |items|o2]; try discriminate.
      cbn [typeof_object]. apply IH; try assumption; discriminate.
  - rewrite deepMerge_onto_primitive by assumption.
    cbn [at_path]. now rewrite Hk.
Qed.

(** X6. What an override holds at the end of a path, a string, a
    number or a boolean, stands at the same path of the merged
    document, whatever the base document held there or above. *)
Theorem deepMerge_override_wins (path : list string)
    (target source leaf : value) :
  wf_value source = true ->
  typeof_object leaf = false -> leaf <> VUndef -> path <> [] ->
  at_path path source = Some leaf ->
  at_path path (deepMerge target source) = Some leaf.
Proof.
  intros Hwf. apply deepMerge_leaf. now apply wf_value_along.
Qed.

Lemma deepMerge_override_wins_witness :
  at_path ["server"; "port"]
    (deepMerge
       (VObj [("server", VStr "not an object"); ("debug", VBool false)])
       (VObj [("server", VObj [("port", VNum (Int 9000))])]))
  = Some (VNum (Int 9000)).
Proof.
  apply (deepMerge_override_wins ["server"; "port"]
           (VObj [("server", VStr "not an object"); ("debug", VBool false)])
           (VObj [("server", VObj [("port", VNum (Int 9000))])])
           (VNum (Int 9000)));
    [reflexivity | reflexivity | discriminate | discriminate | reflexivity].
Defined.

(** X7. What the base document holds at a path that the override does
    not reach, because the override lacks a key on the way, stands
    unchanged at that path of the merged document. *)
Theorem deepMerge_keeps_the_rest (path : list string)
    (target source v : value) :
  wf_value source = true ->
  at_path path target = Some v ->
  misses path source = true ->
  at_path path (deepMerge target source) = Some v.
Proof.
  revert target source v.
  induction path as [|k rest IH]; intros target source v Hwf;
    [discriminate|].
  cbn [at_path misses].
  destruct target as [| | | | |titems|t]; try discriminate.
  destruct (lookup k t) as [x|] eqn:Hkt; [|discriminate]. intros Hx.
  destruct source as [| | | | |items|s]; try discriminate.
  cbn [deepMerge typeof_object spread own_props].
  apply wf_value_obj in Hwf as Hwf'. destruct Hwf' as [Hnd _].
  rewrite merge_entries_lookup by assumption.
  destruct (lookup k s) as [y|] eqn:Hks.
  - intros Hm. pose proof (wf_value_lookup _ _ _ Hwf Hks) as Hwy.
    destruct rest as [|k2 rest]; [discriminate|].
    destruct y as [| | | | |items|o2]; try discriminate.
    cbn [typeof_object]. unfold get. rewrite Hkt.
    now apply IH.
  - intros _. now rewrite Hkt.
Qed.

Lemma deepMerge_keeps_the_rest_witness :
  at_path ["server"; "host"]
    (deepMerge
       (VObj [("server",
               VObj [("port", VNum (Int 8080)); ("host", VStr "0.0.0.0")])])
       (VObj [("server", VObj [("port", VNum (Int 9000))])]))
  = Some (VStr "0.0.0.0").
Proof.
  apply (deepMerge_keeps_the_rest ["server"; "host"]
           (VObj [("server",
                   VObj [("port", VNum (Int 8080));
                         ("host", VStr "0.0.0.0")])])
           (VObj [("server", VObj [("port", VNum (Int 9000))])])
           (VStr "0.0.0.0")); reflexivity.
Defined.

(** ** Merging twice *)

Lemma merge_entries_fixed entries : forall result,
  (forall k val, In (k, val) entries ->
     merge_key k val (deepMerge (get k result) val) result = result) ->
  merge_entries deepMerge entries result = result.
Proof.
  induction entries as [|[k val] entries IH]; intros result Hfix;
    [reflexivity|].
  cbn [merge_entries]. rewrite (Hfix k val) by now left.
  apply IH. intros k' val' Hin. apply Hfix. now right.
Qed.

(** X8. Merging the same override a second time changes nothing, for
    an override that is made of objects, strings, numbers and
    booleans. *)
Theorem deepMerge_idempotent (target source : value) :
  scalar_tree source = true -> wf_value source = true ->
  deepMerge (deepMerge target source) source = deepMerge target source.
Proof.
  revert target.
  induction source as [| | | | |items _|o IH] using value_induction;
    intros target Hst Hwf; try discriminate; try reflexivity.
  apply wf_value_obj in Hwf as Hwf'. destruct Hwf' as [Hnd Hwfs].
  cbn [scalar_tree] in Hst.
  rewrite Forall_forall in IH.
  assert (Hself : forall k val, In (k, val) o -> typeof_object val = true ->
                    deepMerge val val = val).
  { intros k val Hin Hty.
    assert (Hs : scalar_tree val = true).
    { rewrite forallb_forall in Hst. exact (Hst _ Hin). }
    assert (Hw : wf_value val = true).
    { rewrite forallb_forall in Hwfs. exact (Hwfs _ Hin). }
    pose proof (IH _ Hin VUndef Hs Hw) as Hi. cbn [snd] in Hi.
    now rewrite (deepMerge_onto_primitive VUndef) in Hi by reflexivity. }
  destruct (typeof_object target) eqn:Ht.
  - cbn [deepMerge]. rewrite Ht. cbn [typeof_object spread own_props].
    f_equal. apply merge_entries_fixed. intros k val Hin.
    pose proof (In_lookup _ _ _ Hnd Hin) as Hk.
    assert (Hs : scalar_tree val = true).
    { rewrite forallb_forall in Hst. exact (Hst _ Hin). }
    assert (Hw : wf_value val = true).
    { rewrite forallb_forall in Hwfs. exact (Hwfs _ Hin). }
    pose proof (merge_entries_lookup o (spread target) k Hnd) as Hl.
    rewrite Hk in Hl.
    destruct val as [| |b|n|s|items|o2]; try discriminate;
      cbn [merge_key typeof_object] in *;
      try (apply set_same; exact Hl).
    unfold get at 1. rewrite Hl.
    pose proof (IH _ Hin (get k (spread target)) Hs Hw) as Hi.
    cbn [snd] in Hi. rewrite Hi. apply set_same. exact Hl.
  - rewrite (deepMerge_onto_primitive target) by assumption.
    cbn [deepMerge typeof_object spread own_props].
    f_equal. apply merge_entries_fixed. intros k val Hin.
    pose proof (In_lookup _ _ _ Hnd Hin) as Hk.
    assert (Hs : scalar_tree val = true).
    { rewrite forallb_forall in Hst. exact (Hst _ Hin). }
    destruct val as [| |b|n|s|items|o2]; try discriminate;
      cbn [merge_key typeof_object] in *;
      try (apply set_same; exact Hk).
    unfold get. rewrite Hk.
    rewrite (Hself k (VObj o2) Hin eq_refl). apply set_same. exact Hk.
Qed.

Lemma deepMerge_idempotent_witness :
  deepMerge
    (deepMerge
       (VObj [("server",
               VObj [("port", VNum (Int 8080)); ("host", VStr "0.0.0.0")])])
       (VObj [("server", VObj [("port", VNum (Int 9000))]);
              ("debug", VBool true)]))
    (VObj [("server", VObj [("port", VNum (Int 9000))]);
           ("debug", VBool true)])
  = deepMerge
      (VObj [("server",
              VObj [("port", VNum (Int 8080)); ("host", VStr "0.0.0.0")])])
      (VObj [("server", VObj [("port", VNum (Int 9000))]);
             ("debug", VBool true)]).
Proof.
  apply (deepMerge_idempotent
           (VObj [("server",
                   VObj [("port", VNum (Int 8080));
                         ("host", VStr "0.0.0.0")])])
           (VObj [("server", VObj [("port", VNum (Int 9000))]);
                  ("debug", VBool true)])); reflexivity.
Defined.

(** ** Exceptions out of a schema *)

(** X9. The only exceptions out of the full schema are the four that
    [schema.ts] throws about secrets; the partial schema throws
    none. *)
Theorem schema_exceptions (K : Keywords) :
  (forall doc msg,
      validate K (headplaneConfig K) doc = Throws msg ->
      In msg schema_messages)
  /\ (forall doc msg,
        validate K (partialHeadplaneConfig K) doc = Throws msg -> False).
Proof.
  split; intros doc msg Hv.
  - exact (validate_throws_within K _ _ _ _ (headplaneConfig_throws K) Hv).
  - exact (validate_throws_within K _ _ _ _
             (partialHeadplaneConfig_throws K) Hv).
Qed.

(** ** Outputs without undeclared keys *)

Lemma forallb_keys_filter (f : string -> bool) (o : obj) :
  forallb f (keys (filter (fun kv => f (fst kv)) o)) = true.
Proof.
  induction o as [|[k v] o IH]; [reflexivity|]. cbn [filter fst].
  destruct (f k) eqn:E; [|exact IH]. cbn. now rewrite E.
Qed.

Lemma pruned_props_intro (P : type -> value -> bool) o ps :
  (forall k pr t, In (k, (pr, t)) ps ->
     match lookup k o with Some x => P t x = true | None => True end) ->
  pruned_props P o ps = true.
Proof.
  induction ps as [|[k [pr t]] ps IH]; intros Hall; [reflexivity|].
  cbn [pruned_props]. apply andb_true_intro. split.
  - specialize (Hall k pr t (or_introl eq_refl)).
    destruct (lookup k o); [exact Hall|reflexivity].
  - apply IH. intros k' pr' t' Hin. apply (Hall k' pr' t'). now right.
Qed.

Lemma pruned_props_key (P : type -> value -> bool) o ps k pr t x :
  pruned_props P o ps = true ->
  find_property k ps = Some (pr, t) -> lookup k o = Some x ->
  P t x = true.
Proof.
  induction ps as [|[k0 [pr0 t0]] ps IH]; [discriminate|].
  cbn [pruned_props find_property]. intros Hp.
  apply andb_prop in Hp. destruct Hp as [H0 Hp].
  destruct (String.eqb k k0) eqn:E.
  - apply String.eqb_eq in E. subst k0. intros [= -> ->] Hk.
    now rewrite Hk in H0.
  - now apply IH.
Qed.

Lemma prunes_props_In (P : type -> Prop) ps k pr t :
  prunes_props P ps -> In (k, (pr, t)) ps ->
  P t /\ match pr with
         | defaultable d => pruned t d = true
         | _ => True
         end.
Proof.
  induction ps as [|[k0 [pr0 t0]] ps IH]; [intros _ []|].
  cbn [prunes_props]. intros [H0 Hps] [[= -> -> ->]|Hin]; [exact H0|].
  now apply IH.
Qed.

Section Pruning.
Variable K : Keywords.

Lemma run_pruned t :
  prunes t -> forall v out, run K t v = Returned out -> pruned t out = true.
Proof.
  induction t as [| | | | | | lit | a b IHa IHb | u props IH | t f IHt]
    using type_induction; cbn [prunes]; try reflexivity.
  - intros [Ha Hb] v out. cbn [run pruned].
    destruct (allows K a v); intros Hr.
    + now rewrite (IHa Ha _ _ Hr).
    + rewrite (IHb Hb _ _ Hr). apply orb_true_r.
  - intros (-> & Hnd & Hps) v out Hr.
    assert (Hobj : forall o o',
               run_props (run K) props o = inl o' ->
               pruned (t_object delete props) (VObj (keep delete props o'))
               = true).
    { intros o o' Hp.
      cbn [keep pruned]. apply andb_true_intro. split.
      - apply (forallb_keys_filter (declares props)).
      - apply pruned_props_intro. intros k pr t Hin.
        rewrite (lookup_filter_keys (declares props))
          by exact (declares_In _ _ _ _ Hin).
        destruct (prunes_props_In _ _ _ _ _ Hps Hin) as [Ht Hd].
        destruct (run_props_lookup _ _ _ _ Hnd Hp) as [Hk _].
        specialize (Hk k pr t Hin).
        rewrite Forall_forall in IH. specialize (IH _ Hin Ht).
        cbn [snd] in IH.
        destruct (lookup k o) as [x|].
        + destruct Hk as (x' & Hx & ->). exact (IH _ _ Hx).
        + rewrite Hk. destruct pr; [exact I|exact I|exact Hd]. }
    destruct v as [| | | | |items|o];
      try (cbn [run] in Hr; injection Hr as <-; reflexivity).
    + apply run_array in Hr. destruct Hr as (o' & Hp & ->).
      unfold array_output. destruct (same _ _); [reflexivity|].
      exact (Hobj _ _ Hp).
    + apply run_object in Hr. destruct Hr as (o' & Hp & ->).
      exact (Hobj _ _ Hp).
  - intros [Ht Hf] v out Hr. apply run_pipe in Hr.
    destruct Hr as (mid & Hm & Ho). cbn [pruned].
    exact (Hf _ _ Ho (IHt Ht _ _ Hm)).
Qed.

Lemma headplaneConfig_prunes : prunes (headplaneConfig K).
Proof.
  cbn. repeat split; try distinct_keys; intros v out.
  - destruct (Bool.eqb _ _); [discriminate|]. now intros [= <-].
  - destruct (Bool.eqb _ _); [discriminate|].
    destruct (Bool.eqb _ _); [discriminate|]. now intros [= <-].
Qed.

Lemma pruned_keys u props o k :
  pruned (t_object u props) (VObj o) = true -> In k (keys o) ->
  In k (map fst props).
Proof.
  cbn [pruned]. intros Hp Hin. apply andb_prop in Hp. destruct Hp as [Hp _].
  rewrite forallb_forall in Hp. specialize (Hp _ Hin).
  unfold declares in Hp. apply existsb_exists in Hp.
  destruct Hp as (p & Hin' & E). apply String.eqb_eq in E. subst k.
  now apply in_map.
Qed.

End Pruning.

(** X10. The output of the full schema holds no undeclared key, at the
    root or in any section, however deep: the rule [delete] of the
    root type reaches every object type below it. *)
Theorem validated_output_is_pruned (K : Keywords) (doc out : value) :
  validate K (headplaneConfig K) doc = Valid out ->
  pruned (headplaneConfig K) out = true
  /\ (forall k,
        In k (keys (own_props out)) ->
        In k ["debug"; "server"; "oidc"; "integration"; "headscale"])
  /\ (forall section k,
        at_path ["integration"; "docker"] out = Some (VObj section) ->
        In k (keys section) ->
        In k ["enabled"; "container_name"; "socket"; "container_label"]).
Proof.
  intros Hv.
  pose proof (fun Hnd => validate_key K _ _ _ _ "debug" _ _ Hnd Hv eq_refl eq_refl)
    as Hk.
  destruct (Hk ltac:(distinct_keys)) as (o & o' & -> & -> & _). clear Hk.
  apply validate_Valid in Hv. destruct Hv as [_ Hr].
  pose proof (run_pruned K _ (headplaneConfig_prunes K) _ _ Hr) as Hp.
  split; [exact Hp|]. split.
  - intros k Hin. exact (pruned_keys _ _ _ _ Hp Hin).
  - intros section k. cbn [at_path].
    destruct (lookup "integration" o') as [xi|] eqn:Ei; [|discriminate].
    destruct xi as [| | | | |items|oi]; try discriminate.
    destruct (lookup "docker" oi) as [xd|] eqn:Ed; [|discriminate].
    intros [= ->] Hin.
    cbn [pruned headplaneConfig onDeepUndeclaredKey type_ map fst snd] in Hp.
    apply andb_prop in Hp. destruct Hp as [_ Hp].
    pose proof (pruned_props_key _ _ _ "integration" _ _ _ Hp eq_refl Ei) as Hi.
    cbn [pruned integrationConfig onDeepUndeclaredKey type_ map fst snd opt]
      in Hi.
    apply andb_prop in Hi. destruct Hi as [_ Hi].
    pose proof (pruned_props_key _ _ _ "docker" _ _ _ Hi eq_refl Ed) as Hd.
    exact (pruned_keys _ _ _ _ Hd Hin).
Qed.

Lemma validated_output_is_pruned_witness :
  pruned (headplaneConfig keywords)
    (VObj [("debug", VBool false);
           ("server",
             VObj [("host", VStr "0.0.0.0"); ("port", VNum (Int 3000));
                   ("cookie_secret", VStr cookie32);
                   ("cookie_secure", VBool true);
                   ("agent", agent_defaults)]);
           ("integration",
             VObj [("docker",
                    VObj [("enabled", VBool true);
                          ("container_name", VStr "headscale");
                          ("socket", VStr "unix:///var/run/docker.sock")])]);
           ("headscale",
             VObj [("url", VStr "https://hs.example.com");
                   ("config_strict", VBool true)])]) = true.
Proof.
  apply (validated_output_is_pruned keywords
           (VObj [("debug", VBool false);
                  ("server", server);
                  ("integration", docker [("bogus", VNull)]);
                  ("bogus", VNum (Int 1));
                  ("headscale", headscale "https://hs.example.com")])).
  reflexivity.
Defined.

(** ** How the loader ends *)

Section Ends.
Variable messages : list string.

Lemma ends_ret A (a : A) : ends_within messages (ret a).
Proof. intros p. exact I. Qed.

Lemma ends_exit A : ends_within messages (@exit A 1).
Proof. intros p. reflexivity. Qed.

Lemma ends_throw A msg : In msg messages -> ends_within messages (@throw A msg).
Proof. intros Hin p. exact Hin. Qed.

Lemma ends_emit e : ends_within messages (emit e).
Proof. intros p. exact I. Qed.

Lemma ends_log lvl format args : ends_within messages (log lvl format args).
Proof. apply ends_emit. Qed.

Lemma ends_getenv name : ends_within messages (getenv name).
Proof. intros p. exact I. Qed.

Lemma ends_bind A B (m : M A) (f : A -> M B) :
  ends_within messages m -> (forall a, ends_within messages (f a)) ->
  ends_within messages (Loader.bind m f).
Proof.
  intros Hm Hf p. unfold Loader.bind. specialize (Hm p).
  destruct (m p) as [[a|code|msg] p1]; cbn [fst] in *.
  - apply Hf.
  - exact Hm.
  - exact Hm.
Qed.

End Ends.

(** Takes a computation apart along its binds and branches. *)
Ltac ends_steps :=
  repeat first
    [ apply ends_ret | apply ends_exit | apply ends_log | apply ends_getenv
    | apply ends_emit
    | apply ends_bind; [|intros ?]
    | match goal with
      | |- ends_within _ (match ?x with _ => _ end) => destruct x
      | |- ends_within _ (if ?b then _ else _) => destruct b
      end ].

Section EndsOfTheLoader.
Variable K : Keywords.
Variable H : Host.
Variable rootKeys : list string.
Variable messages : list string.




Lemma ends_log_errors errs : forall number,
  ends_within messages (log_errors number errs).
Proof.
  induction errs as [|[path what] errs IH]; intros number;
    cbn [log_errors]; ends_steps. apply IH.
Qed.


Lemma ends_coalesceConfig config :
  ends_within messages (coalesceConfig K config).
Proof.
  unfold coalesceConfig.
  apply ends_bind; [apply ends_log|]. intros _.
  destruct (validate K (partialHeadplaneConfig K) config) as [out|errs|msg]
    eqn:Hv.
  - apply ends_ret.
  - ends_steps. apply ends_log_errors.
  - destruct (validate_throws_within K _ _ _ _
                (partialHeadplaneConfig_throws K) Hv).
Qed.




Lemma ends_walk_builtins before path value :
  In "TypeError" messages ->
  ends_within messages (walk_builtins H before path value).
Proof.
  intros Hin. unfold walk_builtins.
  apply ends_bind; [apply ends_emit|]. intros _.
  destruct (builtins H before path value);
    [now apply ends_throw|apply ends_ret].
Qed.

Lemma ends_assign_from vars : forall before envConfig,
  In "TypeError" messages ->
  ends_within messages (assign_from H before vars envConfig).
Proof.
  induction vars as [|[key value] vars IH]; intros before envConfig Hin;
    cbn [assign_from].
  - apply ends_ret.
  - apply ends_bind; [apply ends_log|]. intros _.
    destruct (assign_path (configPath key) value envConfig).
    + now apply IH.
    + now apply ends_throw.
    + apply ends_bind; [now apply ends_walk_builtins|]. intros _.
      now apply IH.
Qed.

Lemma ends_assign_vars vars envConfig :
  In "TypeError" messages ->
  ends_within messages (assign_vars H vars envConfig).
Proof. apply ends_assign_from. Qed.

Lemma ends_coalesceEnv config :
  In "TypeError" messages ->
  ends_within messages (coalesceEnv K H rootKeys config).
Proof.
  intros Hin. unfold coalesceEnv.
  apply ends_bind; [intros p; exact I|]. intros all.
  apply ends_bind; [apply ends_log|]. intros _.
  apply ends_bind; [now apply ends_assign_vars|]. intros envConfig.
  apply ends_bind; [apply ends_coalesceConfig|]. intros toMerge.
  destruct toMerge; apply ends_ret.
Qed.


End EndsOfTheLoader.


(** ** The files the loader reads *)

Lemma bind_assoc A B C (m : M A) (f : A -> M B) (g : B -> M C) p :
  Loader.bind (Loader.bind m f) g p
  = Loader.bind m (fun a => Loader.bind (f a) g) p.
Proof.
  unfold Loader.bind. destruct (m p) as [[a|code|msg] p1]; reflexivity.
Qed.

Lemma bind_eq A B (m : M A) (f : A -> M B) p a p1 :
  m p = (Done a, p1) -> Loader.bind m f p = f a p1.
Proof. unfold Loader.bind. now intros ->. Qed.

Lemma reads_snoc t e :
  reads (t ++ [e])
  = reads t ++ match e with ReadFile path => [path] | _ => [] end.
Proof. rewrite reads_app. destruct e; reflexivity. Qed.

Lemma reads_ret A (a : A) : reads_at_most 0 (ret a).
Proof. intros p. exists []. split; [now rewrite app_nil_r|reflexivity]. Qed.

Lemma reads_exit A code : reads_at_most 0 (@exit A code).
Proof. intros p. exists []. split; [now rewrite app_nil_r|reflexivity]. Qed.

Lemma reads_throw A msg : reads_at_most 0 (@throw A msg).
Proof. intros p. exists []. split; [now rewrite app_nil_r|reflexivity]. Qed.

Lemma reads_log lvl format args : reads_at_most 0 (log lvl format args).
Proof.
  intros p. exists []. split; [|reflexivity]. cbn. now rewrite reads_snoc.
Qed.

Lemma reads_getenv name : reads_at_most 0 (getenv name).
Proof. intros p. exists []. split; [now rewrite app_nil_r|reflexivity]. Qed.

Lemma reads_weaken A (m : M A) n n' :
  n <= n' -> reads_at_most n m -> reads_at_most n' m.
Proof.
  intros Hle Hm p. destruct (Hm p) as (new & Hr & Hl).
  exists new. split; [assumption|lia].
Qed.

Lemma reads_bind n k A B (m : M A) (f : A -> M B) :
  reads_at_most n m -> (forall a, reads_at_most k (f a)) ->
  reads_at_most (n + k) (Loader.bind m f).
Proof.
  intros Hm Hf p. unfold Loader.bind.
  destruct (Hm p) as (new & Hr & Hl).
  destruct (m p) as [[a|code|msg] p1]; cbn [snd] in *.
  - destruct (Hf a p1) as (new' & Hr' & Hl').
    exists (new ++ new'). split.
    + now rewrite Hr', Hr, app_assoc.
    + rewrite length_app. lia.
  - exists new. split; [assumption|lia].
  - exists new. split; [assumption|lia].
Qed.

(** Takes apart a computation that reads no file. *)
Ltac reads_steps :=
  repeat first
    [ apply reads_ret | apply reads_exit | apply reads_throw
    | apply reads_log | apply reads_getenv
    | apply (reads_bind 0 0); [|intros ?]
    | match goal with
      | |- reads_at_most _ (match ?x with _ => _ end) => destruct x
      | |- reads_at_most _ (if ?b then _ else _) => destruct b
      end ].

Section ReadsOfTheLoader.
Variable K : Keywords.
Variable H : Host.
Variable rootKeys : list string.

Lemma reads_interpolate ms : forall resolved,
  reads_at_most 0 (interpolate ms resolved).
Proof.
  induction ms as [|m ms IH]; intros resolved; cbn [interpolate].
  - apply reads_ret.
  - reads_steps. apply IH.
Qed.

Lemma reads_readFile path : reads_at_most 1 (readFile H path).
Proof.
  intros p. exists [path]. split; [|reflexivity]. cbn.
  now rewrite reads_snoc.
Qed.

Lemma reads_loadSecretFromFile path secretName requiredLength :
  reads_at_most 1 (loadSecretFromFile H path secretName requiredLength).
Proof.
  unfold loadSecretFromFile.
  apply (reads_bind 0 1); [apply reads_interpolate|]. intros resolved.
  destruct resolved; [|apply (reads_weaken _ _ 0); [lia|apply reads_ret]].
  apply (reads_bind 0 1); [apply reads_log|]. intros _.
  apply (reads_bind 1 0); [apply reads_readFile|]. intros read.
  reads_steps.
Qed.

Lemma reads_log_errors errs : forall number,
  reads_at_most 0 (log_errors number errs).
Proof.
  induction errs as [|[path what] errs IH]; intros number;
    cbn [log_errors]; reads_steps. apply IH.
Qed.

Lemma reads_validateConfig config : reads_at_most 0 (validateConfig K config).
Proof.
  unfold validateConfig. apply (reads_bind 0 0); [apply reads_log|]. intros _.
  destruct (validate K (headplaneConfig K) config); reads_steps.
  apply reads_log_errors.
Qed.


Lemma reads_resolveSecret section path_field field secretName
      requiredLength config :
  reads_at_most 1
    (resolveSecret H section path_field field secretName requiredLength
       config).
Proof.
  unfold resolveSecret.
  destruct (prop (prop config section) path_field);
    try (apply (reads_weaken _ _ 0); [lia|apply reads_ret]).
  destruct (truthy (VStr s));
    [|apply (reads_weaken _ _ 0); [lia|apply reads_ret]].
  apply (reads_bind 1 0); [apply reads_loadSecretFromFile|]. intros secret.
  reads_steps.
Qed.






Lemma validateConfigPath_run path p :
  exists p1,
    validateConfigPath H path p = (Done (readable H path), p1)
    /\ reads (trace p1) = reads (trace p) /\ env p1 = env p.
Proof.
  unfold validateConfigPath, Loader.bind, emit, log, ret.
  destruct (readable H path); cbn; eexists; (split; [reflexivity|]);
    cbn; rewrite !reads_snoc, !app_nil_r; now split.
Qed.

Lemma log_each_run lvl lines : forall p,
  exists p1,
    log_each lvl lines p = (Done tt, p1)
    /\ reads (trace p1) = reads (trace p) /\ env p1 = env p.
Proof.
  induction lines as [|line lines IH]; intros p; cbn [log_each].
  - exists p. now split.
  - unfold Loader.bind at 1. rewrite log_run.
    destruct (IH {| env := env p;
                    trace := trace p ++ [Log lvl " - %s" [VStr line]] |})
      as (p1 & Hr & Ht & He).
    exists p1. split; [exact Hr|]. cbn in Ht, He.
    rewrite reads_snoc, app_nil_r in Ht. now split.
Qed.

(** [loadConfigFile] reads the file and returns [false] for a file
    that cannot be read or parsed, the document otherwise. *)
Lemma loadConfigFile_run path p :
  exists p1,
    loadConfigFile H path p
    = (Done match contents H path with
            | None => VBool false
            | Some data =>
                match errors (parseDocument H data) with
                | [] => toJSON (parseDocument H data)
                | _ :: _ => VBool false
                end
            end, p1)
    /\ reads (trace p1) = reads (trace p) ++ [path] /\ env p1 = env p.
Proof.
  unfold loadConfigFile.
  unfold Loader.bind at 1. rewrite log_run.
  unfold Loader.bind at 1. unfold readFile at 1.
  unfold Loader.bind at 1. unfold emit, ret. cbn [env trace].
  set (p0 := {| env := env p; trace := _ |}).
  assert (Hp0 : reads (trace p0) = reads (trace p) ++ [path]).
  { unfold p0. cbn [trace]. rewrite !reads_snoc. now rewrite app_nil_r. }
  assert (He0 : env p0 = env p) by reflexivity.
  clearbody p0.
  destruct (contents H path) as [data|].
  - destruct (errors (parseDocument H data)) as [|e es].
    + destruct (warnings (parseDocument H data)) as [|w ws].
      * exists p0. now split.
      * unfold Loader.bind at 1. unfold Loader.bind at 1. rewrite log_run.
        match goal with
        | |- context [log_each warn (w :: ws) ?q] =>
            destruct (log_each_run warn (w :: ws) q) as (p1 & -> & Ht & He)
        end.
        exists p1. split; [reflexivity|]. cbn in Ht, He.
        rewrite reads_snoc, app_nil_r in Ht. split; congruence.
    + unfold Loader.bind at 1. rewrite log_run.
      unfold Loader.bind at 1.
      match goal with
      | |- context [log_each error (e :: es) ?q] =>
          destruct (log_each_run error (e :: es) q) as (p1 & -> & Ht & He)
      end.
      exists p1. split; [reflexivity|]. cbn in Ht, He.
      rewrite reads_snoc, app_nil_r in Ht. split; congruence.
  - eexists. split; [reflexivity|]. cbn.
    rewrite !reads_snoc, !app_nil_r. now split.
Qed.

Lemma reads_after_the_file (m : M (option value)) :
  reads_at_most 0 m ->
  reads_at_most 3
    (Loader.bind m
       (fun config =>
          match config with
          | None => exit 1
          | Some config =>
              Loader.bind
                (resolveSecret H "server" "cookie_secret_path"
                   "cookie_secret" "cookie secret" (Some (Int 32)) config)
                (fun config =>
                   Loader.bind
                     (resolveSecret H "oidc" "client_secret_path"
                        "client_secret" "OIDC client secret" None config)
                     (fun config =>
                        resolveSecret H "oidc" "headscale_api_key_path"
                          "headscale_api_key" "headscale API key" None
                          config))
          end)).
Proof.
  intros Hm. apply (reads_bind 0 3); [exact Hm|]. intros config.
  destruct config as [config|];
    [|apply (reads_weaken _ _ 0); [lia|apply reads_exit]].
  apply (reads_bind 1 2); [apply reads_resolveSecret|]. intros c1.
  apply (reads_bind 1 1); [apply reads_resolveSecret|]. intros c2.
  apply reads_resolveSecret.
Qed.

(** The stages of [loadBase] up to the document of the file. *)
Lemma loadBase_stages path p :
  exists new,
    reads (trace (snd (loadBase K H path p))) = reads (trace p) ++ new
    /\ env (snd (loadBase K H path p)) = env p
    /\ if readable H path then
         exists rest, new = path :: rest /\ List.length rest <= 3
         /\ (truthy match contents H path with
                    | None => VBool false
                    | Some data =>
                        match errors (parseDocument H data) with
                        | [] => toJSON (parseDocument H data)
                        | _ :: _ => VBool false
                        end
                    end = false ->
             rest = [] /\ fst (loadBase K H path p) = Exit 1)
       else new = [] /\ fst (loadBase K H path p) = Exit 1.
Proof.
  destruct (quiet_loadBase K H path p) as [Henv _].
  remember (loadBase K H path p) as r eqn:Er.
  unfold loadBase in Er.
  unfold Loader.bind at 1 in Er. rewrite log_run in Er.
  match type of Er with
  | _ = Loader.bind _ _ ?q =>
      destruct (validateConfigPath_run path q) as (p1 & Hv & Ht1 & He1)
  end.
  cbn in Ht1, He1. rewrite reads_snoc, app_nil_r in Ht1.
  rewrite (bind_eq _ _ _ _ _ _ _ Hv) in Er.
  destruct (readable H path); cbn [negb] in Er.
  - destruct (loadConfigFile_run path p1) as (p2 & Hf & Ht2 & He2).
    rewrite (bind_eq _ _ _ _ _ _ _ Hf) in Er.
    match type of Er with
    | context [truthy ?d] => set (data := d) in *
    end.
    destruct (truthy data) eqn:Htr; cbn [negb] in Er.
    + destruct (reads_after_the_file
                  (validateConfig K
                     (VObj (set "debug" (VBool (debugEnabled H))
                              (spread data))))
                  (reads_validateConfig _) p2) as (rest & Hr & Hl).
      exists (path :: rest). split; [|split].
      * rewrite Er, Hr, Ht2, Ht1. now rewrite <- app_assoc.
      * exact Henv.
      * exists rest. split; [reflexivity|]. split; [exact Hl|].
        intros Hfalse. congruence.
    + exists [path]. subst r. cbn [exit snd fst] in *. split; [|split].
      * now rewrite Ht2, Ht1.
      * exact Henv.
      * exists []. split; [reflexivity|]. split; [cbn; lia|].
        intros _. now split.
  - exists []. subst r. cbn [exit snd fst] in *. split; [|split].
    + now rewrite app_nil_r.
    + exact Henv.
    + now split.
Qed.

End ReadsOfTheLoader.

Lemma bind_Exit A B (m : M A) (f : A -> M B) p code :
  fst (m p) = Exit code -> Loader.bind m f p = (Exit code, snd (m p)).
Proof.
  unfold Loader.bind. destruct (m p) as [[a|c|msg] p1]; cbn [fst snd];
    try discriminate.
  now intros [= ->].
Qed.



(** X13. A configuration file that is not accessible, cannot be read,
    does not parse, or holds a falsy document (an empty file, [null],
    [false], [0]) ends the process with the code 1 before anything is
    validated: [readFile] is called for the configuration file if it
    is accessible and for nothing else, and the environment is left
    as it was. *)
Theorem loadConfig_stops_at_the_file (K : Keywords) (H : Host)
    (rootKeys : list string) (loadEnv : bool) (path : string)
    (p : process) :
  readable H path = false
  \/ contents H path = None
  \/ (exists data,
        contents H path = Some data
        /\ (errors (parseDocument H data) <> []
            \/ truthy (toJSON (parseDocument H data)) = false)) ->
  fst (loadConfig K H rootKeys loadEnv path p) = Exit 1
  /\ reads (trace (snd (loadConfig K H rootKeys loadEnv path p)))
     = reads (trace p) ++ (if readable H path then [path] else [])
  /\ env (snd (loadConfig K H rootKeys loadEnv path p)) = env p.
Proof.
  intros Hcause.
  destruct (loadBase_stages K H path p) as (new & Hr & He & Hcases).
  assert (Hexit : fst (loadBase K H path p) = Exit 1
                  /\ new = if readable H path then [path] else []).
  { destruct (readable H path).
    - destruct Hcases as (rest & -> & _ & Hfalsy).
      assert (Hf : truthy
                     match contents H path with
                     | Some data =>
                         match errors (parseDocument H data) with
                         | [] => toJSON (parseDocument H data)
                         | _ :: _ => VBool false
                         end
                     | None => VBool false
                     end = false).
      { destruct Hcause as [Hc|[Hc|(data & Hc & Hd)]]; [discriminate| |].
        - now rewrite Hc.
        - rewrite Hc.
          destruct (errors (parseDocument H data)); [|reflexivity].
          destruct Hd as [Hd|Hd]; [congruence|exact Hd]. }
      destruct (Hfalsy Hf) as [-> Hx]. now split.
    - destruct Hcases as [-> Hx]. now split. }
  destruct Hexit as [Hx ->].
  unfold loadConfig. rewrite (bind_Exit _ _ _ _ _ _ Hx). cbn [fst snd].
  now repeat split.
Qed.

Lemma loadConfig_stops_at_the_file_witness :
  fst (loadConfig keywords host roots true "/etc/headplane/missing.yaml"
         (started [("HEADPLANE_DEBUG", "1")])) = Exit 1
  /\ reads (trace (snd (loadConfig keywords host roots true
                          "/etc/headplane/missing.yaml"
                          (started [("HEADPLANE_DEBUG", "1")]))))
     = reads (trace (started [("HEADPLANE_DEBUG", "1")]))
       ++ (if readable host "/etc/headplane/missing.yaml"
           then ["/etc/headplane/missing.yaml"] else [])
  /\ env (snd (loadConfig keywords host roots true
                 "/etc/headplane/missing.yaml"
                 (started [("HEADPLANE_DEBUG", "1")])))
     = env (started [("HEADPLANE_DEBUG", "1")]).
Proof.
  apply (loadConfig_stops_at_the_file keywords host roots true
           "/etc/headplane/missing.yaml" (started [("HEADPLANE_DEBUG", "1")])).
  left. reflexivity.
Defined.

(** ** What the secret reader returns *)


Section SecretReader.
Variable H : Host.

Lemma interpolate_run ms : forall resolved p,
  exists res p1,
    interpolate ms resolved p = (Done res, p1)
    /\ env p1 = env p /\ reads (trace p1) = reads (trace p).
Proof.
  induction ms as [|m ms IH]; intros resolved p; cbn [interpolate].
  - exists (Some resolved), p. now split.
  - unfold Loader.bind at 1, getenv.
    destruct (negb (truthy (of_option (env_lookup (slice_2_m1 m) (env p))))).
    + unfold Loader.bind at 1. rewrite log_run. unfold ret.
      eexists. eexists. split; [reflexivity|]. cbn [env trace].
      rewrite reads_snoc, app_nil_r. now split.
    + unfold Loader.bind at 1. rewrite log_run.
      match goal with
      | |- context [interpolate ms ?res ?q] =>
          destruct (IH res q) as (r & p1 & -> & He & Ht)
      end.
      exists r, p1. split; [reflexivity|]. cbn [env trace] in He, Ht.
      rewrite reads_snoc, app_nil_r in Ht. now split.
Qed.

Lemma loadSecretFromFile_run path secretName requiredLength p :
  exists r p',
    loadSecretFromFile H path secretName requiredLength p = (Done r, p')
    /\ env p' = env p
    /\ forall secret,
         r = Some secret ->
         exists resolved content,
           contents H resolved = Some content
           /\ secret = trim content /\ secret <> ""
           /\ reads (trace p') = reads (trace p) ++ [resolved]
           /\ match requiredLength with
              | Some n =>
                  truthy (VNum n) = true ->
                  length_differs (length secret) n = false
              | None => True
              end.
Proof.
  destruct (interpolate_run (match_markers path) path p)
    as (res & p1 & Hi & He & Ht).
  destruct res as [resolved|].
  - rewrite (loadSecretFromFile_resolved H _ secretName requiredLength
               _ _ _ Hi).
    cbv zeta.
    assert (Hreads : forall evs,
               forallb (fun e => match e with ReadFile _ => false | _ => true end)
                       evs = true ->
               reads (((trace p1 ++ [Log debug "Reading %s from %s"
                                       [VStr secretName; VStr resolved]])
                       ++ [ReadFile resolved]) ++ evs)
               = reads (trace p) ++ [resolved]).
    { intros evs Hevs. rewrite reads_app, !reads_snoc, app_nil_r, Ht.
      assert (reads evs = []) as ->; [|now rewrite app_nil_r].
      induction evs as [|e evs IHe]; [reflexivity|].
      cbn [forallb] in Hevs. apply andb_prop in Hevs. destruct Hevs as [H1 H2].
      destruct e; try discriminate; cbn [reads]; now apply IHe. }
    destruct (contents H resolved) as [content|] eqn:Hc.
    + destruct (Nat.eqb (length (trim content)) 0) eqn:Hz.
      * eexists. eexists. split; [reflexivity|]. split; [exact He|].
        discriminate.
      * assert (Hne : trim content <> "").
        { intros E. apply length_zero_empty in E. congruence. }
        destruct requiredLength as [n|].
        -- destruct (andb (truthy (VNum n))
                          (length_differs (length (trim content)) n)) eqn:Hl.
           ++ eexists. eexists. split; [reflexivity|]. split; [exact He|].
              discriminate.
           ++ eexists. eexists. split; [reflexivity|]. split; [exact He|].
              intros secret [= <-]. exists resolved, content.
              repeat split; auto.
              ** cbn [trace]. specialize (Hreads [] eq_refl).
                 now rewrite app_nil_r in Hreads.
              ** intros Htr. now rewrite Htr in Hl.
        -- eexists. eexists. split; [reflexivity|]. split; [exact He|].
           intros secret [= <-]. exists resolved, content.
           repeat split; auto.
           cbn [trace]. specialize (Hreads [] eq_refl).
           now rewrite app_nil_r in Hreads.
    + eexists. eexists. split; [reflexivity|]. split; [exact He|].
      discriminate.
  - rewrite (loadSecretFromFile_stopped H _ secretName requiredLength _ _ Hi).
    exists None, p1. split; [reflexivity|]. split; [exact He|]. discriminate.
Qed.

End SecretReader.


(** White space that is not ASCII: a no-break space before the secret
    is trimmed like the newline after it. *)
Lemma trim_no_break_space :
  trim Cases.padded_secret = cookie32
  /\ is_space (ascii_of_nat 160) = true
  /\ toLowerCase (String (ascii_of_nat 201) "COLE")
     = String (ascii_of_nat 233) "cole".
Proof. repeat split. Qed.

(** ** The cookie secret of a loaded document *)

Lemma valid_cookie_secret K doc out :
  validate K (headplaneConfig K) doc = Valid out ->
  exists so,
    prop out "server" = VObj so
    /\ ((exists s,
           get "cookie_secret" so = VStr s /\ length s = 32
           /\ get "cookie_secret_path" so = VUndef)
        \/ (get "cookie_secret" so = VNull
            /\ exists path, get "cookie_secret_path" so = VStr path)).
Proof.
  intros Hv.
  pose proof (fun Hnd => validate_key K _ _ _ _ "server" _ _ Hnd Hv eq_refl eq_refl)
    as Hk.
  destruct (Hk ltac:(distinct_keys)) as (o & o' & -> & -> & Hs). clear Hk.
  destruct (lookup "server" o) as [x|] eqn:Ex;
    [|destruct Hs as [Hs _]; exfalso; now apply Hs].
  destruct Hs as (Hc & x' & Hr & Ex').
  assert (Hps : prop (VObj o') "server" = x')
    by (unfold prop, get; now rewrite Ex').
  rewrite Hps. clear Hps.
  rewrite check_pipe in Hc.
  apply check_object_nil in Hc; [|reflexivity]. destruct Hc as (sv & -> & Hc & _).
  apply run_pipe in Hr. destruct Hr as (mid & Hr & Hf).
  apply run_object in Hr. destruct Hr as (sv' & Ep & ->).
  pose proof (fun Hnd =>
                run_key _ _ _ _ "cookie_secret" _ _ Hnd Ep eq_refl) as Hu.
  pose proof (fun Hnd =>
                run_key _ _ _ _ "cookie_secret_path" _ _ Hnd Ep eq_refl)
    as Hp.
  pose proof (check_key _ _ _ _ "cookie_secret" _ _ Hc eq_refl) as Hcu.
  pose proof (check_key _ _ _ _ "cookie_secret_path" _ _ Hc eq_refl) as Hcp.
  specialize (Hu ltac:(distinct_keys)). specialize (Hp ltac:(distinct_keys)).
  match type of Hf with
  | context [VObj ?kept] => set (so := kept) in *
  end.
  assert (Lsecret : get "cookie_secret" so
                    = match lookup "cookie_secret" sv' with
                      | Some v => v
                      | None => VUndef
                      end).
  { unfold so, get. now rewrite lookup_keep by reflexivity. }
  assert (Lpath : get "cookie_secret_path" so
                  = match lookup "cookie_secret_path" sv' with
                    | Some v => v
                    | None => VUndef
                    end).
  { unfold so, get. now rewrite lookup_keep by reflexivity. }
  cbn [prop] in Hf. rewrite Lsecret, Lpath in Hf.
  destruct (lookup "cookie_secret" sv) as [z|];
    [|exfalso; now apply Hcu].
  destruct Hu as (z' & Hz & Lz). rewrite Lz in Hf, Lsecret.
  rewrite check_pipe in Hcu. apply run_pipe in Hz.
  destruct Hz as (zm & Hz & Hzf).
  assert (Hzm : zm = z).
  { simpl in Hz. destruct (allows K t_string z); simpl in Hz; congruence. }
  subst zm.
  assert (Hshape : (exists s, z' = VStr s /\ length s = 32) \/ z' = VNull).
  { destruct z; simpl in Hcu; try discriminate.
    - right. now injection Hzf as <-.
    - left. exists s. destruct (Nat.eqb (length s) 32) eqn:El;
        [|discriminate].
      apply Nat.eqb_eq in El. injection Hzf as <-. auto. }
  destruct (lookup "cookie_secret_path" sv) as [y|].
  - destruct Hp as (y' & Hy & Ly). rewrite Ly in Hf, Lpath.
    simpl in Hcp. destruct y; try discriminate.
    simpl in Hy. injection Hy as <-.
    destruct Hshape as [(s0 & -> & Hl)| ->].
    + exfalso. simpl in Hf. discriminate.
    + simpl in Hf. injection Hf as <-. exists so. split; [reflexivity|].
      right. split; [exact Lsecret|]. now exists s.
  - rewrite Hp in Hf, Lpath.
    destruct Hshape as [(s0 & -> & Hl)| ->].
    + simpl in Hf. injection Hf as <-. exists so. split; [reflexivity|].
      left. exists s0. auto.
    + exfalso. simpl in Hf. discriminate.
Qed.

Lemma prop_set_field_same section field v config sec :
  prop config section = VObj sec ->
  prop (set_field section field v config) section
  = VObj (set field v sec).
Proof.
  destruct config as [| | | | |items|o]; try discriminate.
  cbn [prop set_field]. intros Hs. rewrite Hs.
  cbn [prop]. apply get_set_same.
Qed.

(** What one of the three blocks of [loadConfig] leaves when it does
    not exit. *)
Lemma resolveSecret_cases H section path_field field secretName
      requiredLength config p config' p' :
  resolveSecret H section path_field field secretName requiredLength config p
  = (Done config', p') ->
  (config' = config /\ p' = p
   /\ forall path, prop (prop config section) path_field = VStr path ->
                   path = "")
  \/ exists path secret,
       prop (prop config section) path_field = VStr path /\ path <> ""
       /\ loadSecretFromFile H path secretName requiredLength p
          = (Done (Some secret), p')
       /\ config' = set_field section field (VStr secret) config.
Proof.
  unfold resolveSecret.
  destruct (prop (prop config section) path_field) as [| | | |path| |];
    try (unfold ret; intros [= <- <-]; left; repeat split; discriminate).
  cbn [truthy]. destruct (String.eqb path "") eqn:E; cbn [negb].
  - unfold ret. intros [= <- <-]. left. repeat split.
    intros path' [= <-]. now apply String.eqb_eq.
  - intros Hr. apply bind_Done in Hr. destruct Hr as (secret & p1 & Hl & Hr).
    destruct secret as [secret|]; cbn [of_option truthy negb] in Hr;
      [|discriminate].
    destruct (String.eqb secret ""); cbn [negb] in Hr; [discriminate|].
    unfold ret in Hr. injection Hr as <- <-.
    right. exists path, secret. repeat split; auto.
    now apply String.eqb_neq.
Qed.

(** X15. The cookie secret of the document [loadConfig] returns when
    overrides are off: the 32 characters given inline, with no path
    beside them; or the trimmed content, 32 characters long, of a file
    that was read for a path that is not empty; or [null], when the
    path is the empty string. *)
Theorem loadConfig_cookie_secret (K : Keywords) (H : Host)
    (rootKeys : list string) (path : string) (p p' : process)
    (config : value) :
  loadConfig K H rootKeys false path p = (Done config, p') ->
  (exists s,
      prop (prop config "server") "cookie_secret" = VStr s
      /\ length s = 32
      /\ prop (prop config "server") "cookie_secret_path" = VUndef)
  \/ (exists s file resolved content,
        prop (prop config "server") "cookie_secret" = VStr s
        /\ length s = 32
        /\ prop (prop config "server") "cookie_secret_path" = VStr file
        /\ file <> ""
        /\ In resolved (reads (trace p'))
        /\ contents H resolved = Some content
        /\ s = trim content)
  \/ (prop (prop config "server") "cookie_secret" = VNull
      /\ prop (prop config "server") "cookie_secret_path" = VStr "").
Proof.
  intros Hl.
  unfold loadConfig in Hl. apply bind_Done in Hl.
  destruct Hl as (c3 & p1 & Hb & Hl). cbn [negb] in Hl.
  apply bind_Done in Hl. destruct Hl as (u2 & p2 & Hl2 & Hl).
  apply bind_Done in Hl. destruct Hl as (u3 & p3 & Hl3 & Hl).
  unfold ret in Hl. injection Hl as E1 E2. subst c3 p3.
  rewrite log_run in Hl2, Hl3. injection Hl2 as E2. injection Hl3 as E3.
  subst p2. subst p'.
  unfold loadBase in Hb.
  apply bind_Done in Hb. destruct Hb as (_ & q1 & _ & Hb).
  apply bind_Done in Hb. destruct Hb as (valid & q2 & _ & Hb).
  destruct (negb valid); [discriminate|].
  apply bind_Done in Hb. destruct Hb as (data & q3 & _ & Hb).
  destruct (negb (truthy data)); [discriminate|].
  apply bind_Done in Hb. destruct Hb as (c0 & q4 & Hv & Hb).
  destruct c0 as [c0|]; [|discriminate].
  apply validateConfig_Done in Hv.
  apply bind_Done in Hb. destruct Hb as (c1 & q5 & H1 & Hb).
  apply bind_Done in Hb. destruct Hb as (c2 & q6 & H2 & H3).
  assert (Hserver : prop config "server" = prop c1 "server").
  { rewrite (resolveSecret_Done _ _ _ _ _ _ _ _ _ _ "server" H3)
      by discriminate.
    apply (resolveSecret_Done _ _ _ _ _ _ _ _ _ _ "server" H2).
    discriminate. }
  rewrite Hserver.
  destruct (valid_cookie_secret K _ _ Hv) as (so & Hso & Hshape).
  apply resolveSecret_cases in H1.
  destruct H1 as [(-> & -> & Hempty)|(file & secret & Hfile & Hne & Hload & ->)].
  - rewrite Hso. cbn [prop].
    destruct Hshape as [(s & Hs & Hlen & Hp)|(Hs & file & Hp)].
    + left. now exists s.
    + right. right. split; [exact Hs|]. rewrite Hp. f_equal.
      apply Hempty. rewrite Hso. exact Hp.
  - right. left.
    rewrite (prop_set_field_same _ _ _ _ _ Hso). cbn [prop].
    rewrite get_set_same, get_set_other by discriminate.
    rewrite Hso in Hfile. cbn [prop] in Hfile.
    destruct (loadSecretFromFile_run H file "cookie secret" (Some (Int 32)) q4)
      as (r & q' & Hrun & _ & Hsome).
    rewrite Hload in Hrun. injection Hrun as <- <-.
    destruct (Hsome secret eq_refl)
      as (resolved & content & Hc & Hs & _ & Ht & Hlen).
    exists secret, file, resolved, content. repeat split; auto.
    + specialize (Hlen eq_refl). cbn in Hlen.
      apply negb_false_iff in Hlen. apply Z.eqb_eq in Hlen. lia.
    + (* the later stages only add to the trace *)
      destruct (reads_resolveSecret H "oidc" "client_secret_path"
                  "client_secret" "OIDC client secret" None
                  (set_field "server" "cookie_secret" (VStr secret) c0) q5)
        as (n2 & Hr2 & _).
      rewrite H2 in Hr2. cbn [snd] in Hr2.
      destruct (reads_resolveSecret H "oidc" "headscale_api_key_path"
                  "headscale_api_key" "headscale API key" None c2 q6)
        as (n3 & Hr3 & _).
      rewrite H3 in Hr3. cbn [snd] in Hr3.
      cbn [trace]. rewrite !reads_snoc, !app_nil_r.
      rewrite Hr3, Hr2, Ht. apply in_or_app. left. apply in_or_app. left.
      apply in_or_app. right. now left.
Qed.

Lemma loadConfig_cookie_secret_witness :
  (exists s,
      prop (prop loaded "server") "cookie_secret" = VStr s
      /\ length s = 32
      /\ prop (prop loaded "server") "cookie_secret_path" = VUndef)
  \/ (exists s file resolved content,
        prop (prop loaded "server") "cookie_secret" = VStr s
        /\ length s = 32
        /\ prop (prop loaded "server") "cookie_secret_path" = VStr file
        /\ file <> ""
        /\ In resolved
             (reads (trace (snd (loadConfig keywords host roots false
                                   config_file
                                   (started [("CREDENTIALS_DIRECTORY",
                                              "/run/credentials")])))))
        /\ contents host resolved = Some content
        /\ s = trim content)
  \/ (prop (prop loaded "server") "cookie_secret" = VNull
      /\ prop (prop loaded "server") "cookie_secret_path" = VStr "").
Proof.
  apply (loadConfig_cookie_secret keywords host roots config_file
           (started [("CREDENTIALS_DIRECTORY", "/run/credentials")])).
  reflexivity.
Defined.

(** ** The [server] section of a valid document *)

Section ServerSection.
Variable K : Keywords.

(** The section before and after validation. *)
Lemma valid_server doc out :
  validate K (headplaneConfig K) doc = Valid out ->
  exists sv sv',
    prop doc "server" = VObj sv
    /\ prop out "server"
       = VObj (keep delete
                 (properties (onDeepUndeclaredKey delete (serverConfig K)))
                 sv')
    /\ check_props (check K) ["server"] sv
         (properties (onDeepUndeclaredKey delete (serverConfig K))) = []
    /\ run_props (run K)
         (properties (onDeepUndeclaredKey delete (serverConfig K))) sv
       = inl sv'.
Proof.
  intros Hv.
  pose proof (fun Hnd => validate_key K _ _ _ _ "server" _ _ Hnd Hv eq_refl eq_refl)
    as Hk.
  destruct (Hk ltac:(distinct_keys)) as (o & o' & -> & -> & Hs). clear Hk.
  destruct (lookup "server" o) as [x|] eqn:Ex;
    [|destruct Hs as [Hs _]; exfalso; now apply Hs].
  destruct Hs as (Hc & x' & Hr & Ex').
  rewrite check_pipe in Hc.
  apply check_object_nil in Hc; [|reflexivity]. destruct Hc as (sv & -> & Hc & _).
  apply run_pipe in Hr. destruct Hr as (mid & Hr & Hf).
  apply run_object in Hr. destruct Hr as (sv' & Ep & ->).
  assert (Hx' : x' = VObj (keep delete
                  (properties (onDeepUndeclaredKey delete (serverConfig K)))
                  sv')).
  { destruct (Bool.eqb _ _) in Hf; [discriminate|]. now injection Hf as <-. }
  exists sv, sv'. unfold prop, get. rewrite Ex, Ex'. repeat split; auto.
Qed.

End ServerSection.

(** X16. The [server] section of a valid document, after validation:
    the host is the IP address given; the port is [Number] of what was
    given, a string or an integer; [cookie_secure] is the truthiness
    of what was given; and each field of [agent] is the string or the
    integer given, or its default when it is absent, the whole of
    [agent] included: the empty key, 180000 and the cache path under
    [/var/lib/headplane]. *)
Theorem server_section_output (K : Keywords) (doc out : value) :
  validate K (headplaneConfig K) doc = Valid out ->
  (exists h,
      prop (prop doc "server") "host" = VStr h /\ string_ip K h = true
      /\ prop (prop out "server") "host" = VStr h)
  /\ prop (prop out "server") "port"
     = VNum (Number K (prop (prop doc "server") "port"))
  /\ prop (prop out "server") "cookie_secure"
     = VBool (truthy (prop (prop doc "server") "cookie_secure"))
  /\ (exists authkey ttl cache_path,
        prop (prop (prop out "server") "agent") "authkey" = VStr authkey
        /\ prop (prop (prop out "server") "agent") "ttl" = VNum (Int ttl)
        /\ prop (prop (prop out "server") "agent") "cache_path"
           = VStr cache_path
        /\ authkey
           = match prop (prop (prop doc "server") "agent") "authkey" with
             | VStr given => given
             | _ => ""
             end
        /\ ttl
           = match prop (prop (prop doc "server") "agent") "ttl" with
             | VNum (Int given) => given
             | _ => 180000%Z
             end
        /\ cache_path
           = match prop (prop (prop doc "server") "agent") "cache_path" with
             | VStr given => given
             | _ => "/var/lib/headplane/agent_cache.json"
             end).
Proof.
  intros Hv.
  destruct (valid_server K _ _ Hv) as (sv & sv' & -> & -> & Hc & Ep).
  cbn [prop]. unfold get. rewrite !lookup_keep by reflexivity.
  pose proof (fun k pr t Hf Hnd => run_key _ _ _ _ k pr t Hnd Ep Hf) as Hrun.
  pose proof (fun k pr t Hf => check_key _ _ _ _ k pr t Hc Hf) as Hchk.
  split; [|split; [|split]].
  - specialize (Hrun "host" _ _ eq_refl ltac:(distinct_keys)).
    specialize (Hchk "host" _ _ eq_refl).
    destruct (lookup "host" sv) as [x|]; [|exfalso; now apply Hchk].
    destruct Hrun as (x' & Hr & ->).
    cbn in Hchk. destruct x; try discriminate.
    destruct (string_ip K s) eqn:Hip; [|discriminate].
    cbn in Hr. injection Hr as <-. now exists s.
  - specialize (Hrun "port" _ _ eq_refl ltac:(distinct_keys)).
    specialize (Hchk "port" _ _ eq_refl).
    destruct (lookup "port" sv) as [x|]; [|exfalso; now apply Hchk].
    destruct Hrun as (x' & Hr & ->).
    cbn in Hr. destruct (allows K t_string x); cbn in Hr;
      now injection Hr as <-.
  - specialize (Hrun "cookie_secure" _ _ eq_refl ltac:(distinct_keys)).
    specialize (Hchk "cookie_secure" _ _ eq_refl).
    destruct (lookup "cookie_secure" sv) as [x|]; [|exfalso; now apply Hchk].
    destruct Hrun as (x' & Hr & ->).
    cbn in Hr. destruct (allows K t_string x); cbn in Hr;
      now injection Hr as <-.
  - specialize (Hrun "agent" _ _ eq_refl ltac:(distinct_keys)).
    specialize (Hchk "agent" _ _ eq_refl).
    destruct (lookup "agent" sv) as [x|].
    + destruct Hrun as (x' & Hr & ->).
      destruct (check_object_shape K _ _ _ _ Hchk) as [(ag & ->)|(items & ->)].
      2: { (* an array in the place of [agent]: it gets the defaults *)
        apply run_array in Hr. destruct Hr as (ag' & Epa & ->).
        pose proof (fun k pr t Hf Hnd => run_key _ _ _ _ k pr t Hnd Epa Hf)
          as Hra.
        pose proof (Hra "authkey" _ _ eq_refl ltac:(distinct_keys)) as R1.
        pose proof (Hra "ttl" _ _ eq_refl ltac:(distinct_keys)) as R2.
        pose proof (Hra "cache_path" _ _ eq_refl ltac:(distinct_keys)) as R3.
        clear Hra.
        rewrite (lookup_indexed_named "authkey" items 0 eq_refl) in R1.
        rewrite (lookup_indexed_named "ttl" items 0 eq_refl) in R2.
        rewrite (lookup_indexed_named "cache_path" items 0 eq_refl) in R3.
        cbn in R1, R2, R3.
        match goal with
        | |- context [array_output items ?kept] =>
            destruct (array_output_cases items kept) as [[_ E]| ->]
        end.
        - exfalso.
          assert (El : lookup "authkey" (indexed 0 items) = None)
            by now apply lookup_indexed_named.
          rewrite <- E, lookup_keep, R1 in El by reflexivity. discriminate.
        - cbn [prop]. unfold get. rewrite !lookup_keep by reflexivity.
          rewrite R1, R2, R3. now eexists _, _, _. }
      apply check_VObj_nil in Hchk. destruct Hchk as (Hca & _).
      apply run_object in Hr. destruct Hr as (ag' & Epa & ->).
      cbn [prop]. unfold get. rewrite !lookup_keep by reflexivity.
      pose proof (fun k pr t Hf Hnd => run_key _ _ _ _ k pr t Hnd Epa Hf)
        as Hra.
      pose proof (fun k pr t Hf => check_key _ _ _ _ k pr t Hca Hf) as Hka.
      pose proof (Hra "authkey" _ _ eq_refl ltac:(distinct_keys)) as R1.
      pose proof (Hra "ttl" _ _ eq_refl ltac:(distinct_keys)) as R2.
      pose proof (Hra "cache_path" _ _ eq_refl ltac:(distinct_keys)) as R3.
      pose proof (Hka "authkey" _ _ eq_refl) as C1.
      pose proof (Hka "ttl" _ _ eq_refl) as C2.
      pose proof (Hka "cache_path" _ _ eq_refl) as C3.
      clear Hra Hka.
      destruct (lookup "authkey" ag) as [a|].
      * destruct R1 as (a' & Ha & ->). cbn in C1.
        destruct a; try discriminate. cbn in Ha. injection Ha as <-.
        destruct (lookup "ttl" ag) as [t|].
        -- destruct R2 as (t' & Ht & ->). cbn in C2.
           destruct t as [| | |[z| |]| | |]; try discriminate.
           cbn in Ht. injection Ht as <-.
           destruct (lookup "cache_path" ag) as [c|].
           ++ destruct R3 as (c' & Hc' & ->). cbn in C3.
              destruct c; try discriminate. cbn in Hc'. injection Hc' as <-.
              now eexists _, _, _.
           ++ rewrite R3. now eexists _, _, _.
        -- rewrite R2.
           destruct (lookup "cache_path" ag) as [c|].
           ++ destruct R3 as (c' & Hc' & ->). cbn in C3.
              destruct c; try discriminate. cbn in Hc'. injection Hc' as <-.
              now eexists _, _, _.
           ++ rewrite R3. now eexists _, _, _.
      * rewrite R1.
        destruct (lookup "ttl" ag) as [t|].
        -- destruct R2 as (t' & Ht & ->). cbn in C2.
           destruct t as [| | |[z| |]| | |]; try discriminate.
           cbn in Ht. injection Ht as <-.
           destruct (lookup "cache_path" ag) as [c|].
           ++ destruct R3 as (c' & Hc' & ->). cbn in C3.
              destruct c; try discriminate. cbn in Hc'. injection Hc' as <-.
              now eexists _, _, _.
           ++ rewrite R3. now eexists _, _, _.
        -- rewrite R2.
           destruct (lookup "cache_path" ag) as [c|].
           ++ destruct R3 as (c' & Hc' & ->). cbn in C3.
              destruct c; try discriminate. cbn in Hc'. injection Hc' as <-.
              now eexists _, _, _.
           ++ rewrite R3. now eexists _, _, _.
    + rewrite Hrun. now eexists _, _, _.
Qed.

Lemma server_section_output_witness :
  prop (prop
          (VObj [("debug", VBool false);
                 ("server",
                   VObj [("host", VStr "0.0.0.0");
                         ("port", VNum (Int 8080));
                         ("cookie_secret", VStr cookie32);
                         ("cookie_secure", VBool false);
                         ("agent",
                           VObj [("ttl", VNum (Int 5));
                                 ("authkey", VStr "");
                                 ("cache_path",
                                   VStr "/var/lib/headplane/agent_cache.json")])]);
                 ("headscale", headscale "https://hs.example.com")])
          "server") "port"
  = VNum (Number keywords
            (prop (prop
                     (VObj [("debug", VBool false);
                            ("server",
                              VObj [("host", VStr "0.0.0.0");
                                    ("port", VStr "8080");
                                    ("cookie_secret", VStr cookie32);
                                    ("cookie_secure", VStr "");
                                    ("agent", VObj [("ttl", VNum (Int 5))])]);
                            ("headscale",
                              headscale "https://hs.example.com")])
                     "server") "port")).
Proof.
  apply (server_section_output keywords
           (VObj [("debug", VBool false);
                  ("server",
                    VObj [("host", VStr "0.0.0.0");
                          ("port", VStr "8080");
                          ("cookie_secret", VStr cookie32);
                          ("cookie_secure", VStr "");
                          ("agent", VObj [("ttl", VNum (Int 5))])]);
                  ("headscale", headscale "https://hs.example.com")])).
  reflexivity.
Defined.

(** ** What the overrides need and what they force *)




Section Flags.
Variable K : Keywords.



End Flags.




(** ** Required keys and defaults, by path *)

Section ByPath.
Variable K : Keywords.

Lemma check_props_first chk prefix o ps k pr t x e :
  find_property k ps = Some (pr, t) -> lookup k o = Some x ->
  In e (chk t (prefix ++ [k]) x) ->
  In e (check_props chk prefix o ps).
Proof.
  induction ps as [|[k0 [pr0 t0]] ps IH]; [discriminate|].
  cbn [find_property check_props]. destruct (String.eqb k k0) eqn:E.
  - apply String.eqb_eq in E. subst k0. intros [= -> ->] Hk Hin.
    rewrite Hk. apply in_or_app. now left.
  - intros Hf Hk Hin. apply in_or_app. right. now apply IH.
Qed.

(** The errors of the declared keys are errors of the type. *)
Lemma check_properties t : forall prefix o e,
  In e (check_props (check K) prefix o (properties t)) ->
  In e (check K t prefix (VObj o)).
Proof.
  induction t as [| | | | | | lit | a b IHa IHb | u props IH | t f IHt]
    using type_induction; intros prefix o e; cbn [properties check_props];
    try (intros []).
  - intros Hin. cbn [check]. apply in_or_app. now left.
  - intros Hin. cbn [check]. now apply IHt.
Qed.

Lemma check_requires path : forall t prefix v,
  requires t path = true -> lacks path v = true ->
  In (prefix ++ path, Missing) (check K t prefix v).
Proof.
  induction path as [|k rest IH]; intros t prefix v; [discriminate|].
  cbn [requires lacks].
  destruct (find_property k (properties t)) as [[pr t']|] eqn:Hf;
    [|discriminate].
  destruct v as [| | | | |items|o]; try discriminate.
  intros Hreq Hlacks. apply check_properties.
  destruct (lookup k o) as [x|] eqn:Hk.
  - destruct rest as [|k2 rest]; [discriminate|].
    apply (check_props_first _ _ _ _ _ _ _ _ _ Hf Hk).
    replace (prefix ++ k :: k2 :: rest) with ((prefix ++ [k]) ++ k2 :: rest)
      by now rewrite <- app_assoc.
    now apply IH.
  - destruct rest as [|k2 rest]; [|discriminate].
    destruct pr; try discriminate.
    exact (check_props_missing _ _ _ _ _ t' Hf Hk).
Qed.

(** What the second pass leaves at a declared key of a type whose
    morphs return their argument. *)
Lemma run_properties t : forall o out k pr t',
  morphs_return t -> NoDup (map fst (properties t)) ->
  find_property k (properties t) = Some (pr, t') ->
  run K t (VObj o) = Returned out ->
  exists o',
    out = VObj o'
    /\ match lookup k o with
       | Some x => exists x', run K t' x = Returned x' /\ lookup k o' = Some x'
       | None =>
           lookup k o' = match pr with defaultable d => Some d | _ => None end
       end.
Proof.
  induction t as [| | | | | | lit | a b IHa IHb | u props IH | t f IHt]
    using type_induction; intros o out k pr t'; cbn [properties morphs_return];
    try discriminate.
  - intros _ Hnd Hf Hr. apply run_object in Hr. destruct Hr as (o' & Ep & ->).
    exists (keep u props o'). split; [reflexivity|].
    rewrite lookup_keep
      by exact (declares_In _ _ _ _ (find_property_In _ _ _ _ Hf)).
    exact (run_key _ _ _ _ _ _ _ Hnd Ep Hf).
  - intros [Hm Hid] Hnd Hf Hr. apply run_pipe in Hr.
    destruct Hr as (mid & Hr & Hout). apply Hid in Hout. subst out.
    now apply (IHt o mid k pr t').
Qed.

Lemma run_default path : forall t v out d,
  default_at t path = Some d -> transparent t path ->
  lacks path v = true ->
  run K t v = Returned out ->
  at_path path out = Some d.
Proof.
  induction path as [|k rest IH]; intros t v out d; [discriminate|].
  cbn [default_at transparent lacks].
  destruct (find_property k (properties t)) as [[pr t']|] eqn:Hf;
    [|discriminate].
  destruct v as [| | | | |items|o]; try discriminate.
  intros Hd (Hm & Hnd & Ht) Hl Hr.
  destruct (run_properties _ _ _ _ _ _ Hm Hnd Hf Hr) as (o' & -> & Hk).
  cbn [at_path].
  destruct (lookup k o) as [x|] eqn:Hx.
  - destruct rest as [|k2 rest]; [discriminate|].
    destruct Hk as (x' & Hrx & ->).
    exact (IH _ _ _ _ Hd Ht Hl Hrx).
  - destruct rest as [|k2 rest]; [|discriminate].
    rewrite Hk. destruct pr; try discriminate. now injection Hd as ->.
Qed.

End ByPath.

Lemma required_fields_required K :
  forallb (requires (headplaneConfig K)) required_fields = true.
Proof. reflexivity. Qed.

Lemma schema_defaults_transparent K path d :
  In (path, d) schema_defaults ->
  default_at (headplaneConfig K) path = Some d
  /\ transparent (headplaneConfig K) path.
Proof.
  intros Hin. cbn in Hin.
  repeat (destruct Hin as [[= <- <-]|Hin];
          [split; [reflexivity|];
           cbn; repeat split; try distinct_keys; intros v out;
           repeat (destruct (Bool.eqb _ _); [discriminate|]);
           now intros [= <-]|]).
  destruct Hin.
Qed.

(** X18. A document that lacks a key that [schema.ts] requires, at
    the root or in a section that is there, is not accepted: the first
    pass names the key as missing at its path, and the call gives the
    errors of the first pass, unless a morph at a path that no error
    touches throws, and then one of the four exceptions of
    [schema.ts]. So a document that is nothing but a server section
    with a cookie secret of five characters lacks [headscale], and the
    exception about the secret escapes. *)
Theorem missing_required_key (K : Keywords) (doc : value)
    (path : list string) :
  In path required_fields ->
  lacks path doc = true ->
  In (path, Missing) (check K (headplaneConfig K) [] doc)
  /\ (validate K (headplaneConfig K) doc
      = Errors (check K (headplaneConfig K) [] doc)
      \/ exists msg,
           validate K (headplaneConfig K) doc = Throws msg
           /\ run_beside K (check K (headplaneConfig K) [] doc)
                (headplaneConfig K) [] doc = Thrown msg
           /\ In msg schema_messages)
  /\ lacks ["headscale"] (VObj [("server", Cases.short_secret)]) = true
  /\ validate K (headplaneConfig K) (VObj [("server", Cases.short_secret)])
     = Throws "cookie_secret must be exactly 32 characters long".
Proof.
  intros Hin Hl.
  assert (Hshort :
            validate K (headplaneConfig K)
              (VObj [("server", Cases.short_secret)])
            = Throws "cookie_secret must be exactly 32 characters long").
  { unfold validate. cbn.
    destruct (string_ip K "0.0.0.0"); reflexivity. }
  match goal with
  | |- ?A /\ ?B /\ _ =>
      cut (A /\ B);
        [intros [Ha Hb]; repeat split; [exact Ha|exact Hb|exact Hshort]|]
  end.
  clear Hshort.
  assert (Hreq : requires (headplaneConfig K) path = true).
  { pose proof (required_fields_required K) as Hall.
    rewrite forallb_forall in Hall. now apply Hall. }
  pose proof (check_requires K path (headplaneConfig K) [] doc Hreq Hl) as He.
  cbn [app] in He. split; [exact He|].
  assert (Hne : check K (headplaneConfig K) [] doc <> []).
  { intros E. rewrite E in He. destruct He. }
  pose proof (validate_errors K _ _ Hne) as Hv.
  destruct (run_beside K (check K (headplaneConfig K) [] doc)
              (headplaneConfig K) [] doc) as [out|msg] eqn:Er.
  - now left.
  - right. exists msg. repeat split; auto.
    exact (run_beside_throws K _ _ _ (headplaneConfig_throws K) _ _ _ Er).
Qed.

Lemma missing_required_key_witness :
  In (["integration"; "docker"; "container_name"], Missing)
    (check keywords (headplaneConfig keywords) []
       (with_section "integration"
          (VObj [("docker", VObj [("enabled", VBool true)])])))
  /\ (validate keywords (headplaneConfig keywords)
        (with_section "integration"
           (VObj [("docker", VObj [("enabled", VBool true)])]))
      = Errors
          (check keywords (headplaneConfig keywords) []
             (with_section "integration"
                (VObj [("docker", VObj [("enabled", VBool true)])])))
      \/ exists msg,
           validate keywords (headplaneConfig keywords)
             (with_section "integration"
                (VObj [("docker", VObj [("enabled", VBool true)])]))
           = Throws msg
           /\ run_beside keywords
                (check keywords (headplaneConfig keywords) []
                   (with_section "integration"
                      (VObj [("docker", VObj [("enabled", VBool true)])])))
                (headplaneConfig keywords) []
                (with_section "integration"
                   (VObj [("docker", VObj [("enabled", VBool true)])]))
              = Thrown msg
           /\ In msg schema_messages)
  /\ lacks ["headscale"] (VObj [("server", Cases.short_secret)]) = true
  /\ validate keywords (headplaneConfig keywords)
       (VObj [("server", Cases.short_secret)])
     = Throws "cookie_secret must be exactly 32 characters long".
Proof.
  apply (missing_required_key keywords
           (with_section "integration"
              (VObj [("docker", VObj [("enabled", VBool true)])]))
           ["integration"; "docker"; "container_name"]).
  - cbn. tauto.
  - reflexivity.
Defined.

(** The two outcomes for a document without the [headscale] section:
    the errors, and the exception of a cookie secret of five
    characters, whose morph runs beside the error. *)
Lemma missing_headscale :
  validate keywords (headplaneConfig keywords)
    (VObj [("debug", VBool false); ("server", server)])
  = Errors [(["headscale"], Missing)]
  /\ validate keywords (headplaneConfig keywords)
       (VObj [("debug", VBool false);
              ("server",
                VObj [("host", VStr "0.0.0.0"); ("port", VNum (Int 3000));
                      ("cookie_secret", VStr "short");
                      ("cookie_secure", VBool true)])])
     = Throws "cookie_secret must be exactly 32 characters long"
  /\ validate keywords (headplaneConfig keywords)
       (VObj [("debug", VBool false);
              ("server",
                VObj [("host", VStr "not an address");
                      ("port", VNum (Int 3000));
                      ("cookie_secret", VStr cookie32);
                      ("cookie_secret_path", VStr "/run/cookie");
                      ("cookie_secure", VBool true)]);
              ("headscale", headscale "https://hs.example.com")])
     = Errors [(["server"; "host"], Expected "an IP address")].
Proof. repeat split. Qed.

(** X19. A key with a default that a document lacks, in a section or
    an object that is there, holds its default after validation: the
    agent settings, the user storage file, strict validation and the
    Docker socket. *)
Theorem defaults_are_filled (K : Keywords) (doc out : value)
    (path : list string) (d : value) :
  In (path, d) schema_defaults ->
  lacks path doc = true ->
  validate K (headplaneConfig K) doc = Valid out ->
  at_path path out = Some d.
Proof.
  intros Hin Hl Hv. apply validate_Valid in Hv. destruct Hv as [_ Hr].
  destruct (schema_defaults_transparent K path d Hin) as [Hd Ht].
  exact (run_default K path _ _ _ _ Hd Ht Hl Hr).
Qed.

Lemma defaults_are_filled_witness :
  at_path ["integration"; "docker"; "socket"]
    (VObj [("debug", VBool false);
           ("server",
             VObj [("host", VStr "0.0.0.0"); ("port", VNum (Int 3000));
                   ("cookie_secret", VStr cookie32);
                   ("cookie_secure", VBool true);
                   ("agent", agent_defaults)]);
           ("integration",
             VObj [("docker",
                    VObj [("enabled", VBool true);
                          ("container_name", VStr "headscale");
                          ("socket", VStr "unix:///var/run/docker.sock")])]);
           ("headscale",
             VObj [("url", VStr "https://hs.example.com");
                   ("config_strict", VBool true)])])
  = Some (VStr "unix:///var/run/docker.sock").
Proof.
  apply (defaults_are_filled keywords
           (with_section "integration" (docker []))).
  - cbn. tauto.
  - reflexivity.
  - reflexivity.
Defined.

(** ** Fields of a valid document *)

Section Conformance.
Variable K : Keywords.

Lemma check_properties_nil t prefix o k pr t' x :
  find_property k (properties t) = Some (pr, t') ->
  lookup k o = Some x ->
  check K t prefix (VObj o) = [] ->
  check K t' (prefix ++ [k]) x = [].
Proof.
  intros Hf Hk Hc.
  destruct (check K t' (prefix ++ [k]) x) as [|e es] eqn:Hx; [reflexivity|].
  assert (Hin : In e (check K t prefix (VObj o))).
  { apply check_properties.
    apply (check_props_first _ _ _ _ _ _ _ _ _ Hf Hk).
    rewrite Hx. now left. }
  rewrite Hc in Hin. destruct Hin.
Qed.

Lemma check_field path : forall t prefix v t' x,
  field_type path t = Some t' -> at_path path v = Some x ->
  check K t prefix v = [] ->
  check K t' (prefix ++ path) x = [].
Proof.
  induction path as [|k rest IH]; intros t prefix v t' x;
    cbn [field_type at_path].
  - intros [= <-] [= <-]. now rewrite app_nil_r.
  - destruct (find_property k (properties t)) as [[pr t1]|] eqn:Hf;
      [|discriminate].
    destruct v as [| | | | |items|o]; try discriminate.
    destruct (lookup k o) as [y|] eqn:Hk; [|discriminate].
    intros Ht Hx Hc.
    replace (prefix ++ k :: rest) with ((prefix ++ [k]) ++ rest)
      by now rewrite <- app_assoc.
    apply (IH t1 _ y); try assumption.
    exact (check_properties_nil _ _ _ _ _ _ _ Hf Hk Hc).
Qed.

End Conformance.

(** X20. Every field that a valid document holds at a declared path
    passes the type that [schema.ts] declares for the path. So the
    method of client authentication, when given, is one of the three
    named ones, and the TTL of the agent an integer. *)
Theorem valid_fields_conform (K : Keywords) (doc out : value) :
  validate K (headplaneConfig K) doc = Valid out ->
  (forall path t x,
      field_type path (headplaneConfig K) = Some t ->
      at_path path doc = Some x ->
      check K t path x = [])
  /\ (forall x,
        at_path ["oidc"; "token_endpoint_auth_method"] doc = Some x ->
        x = VStr "client_secret_basic" \/ x = VStr "client_secret_post"
        \/ x = VStr "client_secret_jwt")
  /\ (forall x,
        at_path ["server"; "agent"; "ttl"] doc = Some x ->
        exists z, x = VNum (Int z)).
Proof.
  intros Hv. apply validate_Valid in Hv. destruct Hv as [Hc _].
  assert (Hall : forall path t x,
             field_type path (headplaneConfig K) = Some t ->
             at_path path doc = Some x -> check K t path x = []).
  { intros path t x Ht Hx.
    exact (check_field K path _ [] _ _ _ Ht Hx Hc). }
  split; [exact Hall|]. split.
  - intros x Hx.
    specialize (Hall ["oidc"; "token_endpoint_auth_method"] _ _ eq_refl Hx).
    destruct x; try discriminate. cbn in Hall.
    destruct (String.eqb s "client_secret_basic") eqn:E1;
      [apply String.eqb_eq in E1; subst; now left|].
    destruct (String.eqb s "client_secret_post") eqn:E2;
      [apply String.eqb_eq in E2; subst; right; now left|].
    destruct (String.eqb s "client_secret_jwt") eqn:E3;
      [apply String.eqb_eq in E3; subst; right; now right|].
    cbn in Hall. discriminate.
  - intros x Hx.
    specialize (Hall ["server"; "agent"; "ttl"] _ _ eq_refl Hx).
    destruct x as [| | |[z| |]| | |]; try discriminate. now exists z.
Qed.

Lemma valid_fields_conform_witness :
  check keywords auth_method ["oidc"; "token_endpoint_auth_method"]
    (VStr "client_secret_basic") = [].
Proof.
  refine (proj1
            (valid_fields_conform keywords
               (with_section "oidc" (oidc [("headscale_api_key", VStr "key")]))
               (match validate keywords (headplaneConfig keywords)
                        (with_section "oidc"
                           (oidc [("headscale_api_key", VStr "key")])) with
                | Valid out => out
                | _ => VUndef
                end) _)
            ["oidc"; "token_endpoint_auth_method"] auth_method
            (VStr "client_secret_basic") _ _); reflexivity.
Defined.

(** ** Warnings of the parser, and the log *)

Lemma alike_ret A (a : A) : alike (ret a) (ret a).
Proof. intros p q He. now split. Qed.

Lemma alike_exit A code : alike (@exit A code) (@exit A code).
Proof. intros p q He. now split. Qed.

Lemma alike_throw A msg : alike (@throw A msg) (@throw A msg).
Proof. intros p q He. now split. Qed.

Lemma alike_emit e e' : alike (emit e) (emit e').
Proof. intros p q He. now split. Qed.

Lemma alike_log lvl format args :
  alike (log lvl format args) (log lvl format args).
Proof. apply alike_emit. Qed.

Lemma alike_getenv name : alike (getenv name) (getenv name).
Proof. intros p q He. unfold getenv. cbn. rewrite He. now split. Qed.

Lemma alike_bind A B (m1 m2 : M A) (f1 f2 : A -> M B) :
  alike m1 m2 -> (forall a, alike (f1 a) (f2 a)) ->
  alike (Loader.bind m1 f1) (Loader.bind m2 f2).
Proof.
  intros Hm Hf p q He. unfold Loader.bind.
  destruct (Hm p q He) as [H1 H2].
  destruct (m1 p) as [[a|code|msg] p1]; destruct (m2 q) as [[b|code'|msg'] q1];
    cbn [fst snd] in *; try discriminate.
  - injection H1 as <-. now apply Hf.
  - injection H1 as <-. now split.
  - injection H1 as <-. now split.
Qed.

(** Takes apart two computations of the same shape. *)
Ltac alike_steps :=
  repeat first
    [ apply alike_ret | apply alike_exit | apply alike_throw
    | apply alike_log | apply alike_getenv | apply alike_emit
    | apply alike_bind; [|intros ?]
    | match goal with
      | |- alike (match ?x with _ => _ end) _ => destruct x
      | |- alike (if ?b then _ else _) _ => destruct b
      end ].

Section Alike.
Variable K : Keywords.
Variable H : Host.
Variable rootKeys : list string.

Lemma alike_interpolate ms : forall resolved,
  alike (interpolate ms resolved) (interpolate ms resolved).
Proof.
  induction ms as [|m ms IH]; intros resolved; cbn [interpolate].
  - apply alike_ret.
  - alike_steps. apply IH.
Qed.

Lemma alike_loadSecretFromFile path secretName requiredLength :
  alike (loadSecretFromFile H path secretName requiredLength)
        (loadSecretFromFile H path secretName requiredLength).
Proof.
  unfold loadSecretFromFile, readFile.
  apply alike_bind; [apply alike_interpolate|]. intros resolved.
  alike_steps.
Qed.

Lemma alike_log_each lvl lines : alike (log_each lvl lines) (ret tt).
Proof.
  induction lines as [|line lines IH]; cbn [log_each].
  - apply alike_ret.
  - intros p q He. unfold Loader.bind at 1. rewrite log_run.
    apply IH. exact He.
Qed.

Lemma alike_log_errors errs : forall number,
  alike (log_errors number errs) (log_errors number errs).
Proof.
  induction errs as [|[path what] errs IH]; intros number;
    cbn [log_errors]; alike_steps. apply IH.
Qed.

Lemma alike_validateConfig config :
  alike (validateConfig K config) (validateConfig K config).
Proof.
  unfold validateConfig. apply alike_bind; [apply alike_log|]. intros _.
  destruct (validate K (headplaneConfig K) config); alike_steps.
  apply alike_log_errors.
Qed.

Lemma alike_coalesceConfig config :
  alike (coalesceConfig K config) (coalesceConfig K config).
Proof.
  unfold coalesceConfig. apply alike_bind; [apply alike_log|]. intros _.
  destruct (validate K (partialHeadplaneConfig K) config); alike_steps.
  apply alike_log_errors.
Qed.

Lemma alike_resolveSecret section path_field field secretName
      requiredLength config :
  alike
    (resolveSecret H section path_field field secretName requiredLength config)
    (resolveSecret H section path_field field secretName requiredLength
       config).
Proof.
  unfold resolveSecret.
  destruct (prop (prop config section) path_field); try apply alike_ret.
  destruct (truthy (VStr s)); [|apply alike_ret].
  apply alike_bind; [apply alike_loadSecretFromFile|]. intros secret.
  alike_steps.
Qed.

Lemma alike_assign_from vars : forall before envConfig,
  alike (assign_from (without_warnings H) before vars envConfig)
        (assign_from H before vars envConfig).
Proof.
  induction vars as [|[key value] vars IH]; intros before envConfig;
    cbn [assign_from].
  - apply alike_ret.
  - apply alike_bind; [apply alike_log|]. intros _.
    destruct (assign_path (configPath key) value envConfig).
    + apply IH.
    + apply alike_throw.
    + apply alike_bind; [|intros _; apply IH].
      unfold walk_builtins. cbn [without_warnings builtins].
      apply alike_bind; [apply alike_emit|]. intros _.
      destruct (builtins H before path value);
        [apply alike_throw|apply alike_ret].
Qed.

Lemma alike_coalesceEnv config :
  alike (coalesceEnv K (without_warnings H) rootKeys config)
        (coalesceEnv K H rootKeys config).
Proof.
  unfold coalesceEnv, assign_vars.
  apply alike_bind.
  { intros p q He. unfold entries. cbn. rewrite He. now split. }
  intros all.
  apply alike_bind; [apply alike_log|]. intros _.
  apply alike_bind; [apply alike_assign_from|]. intros envConfig.
  apply alike_bind; [apply alike_coalesceConfig|]. intros toMerge.
  destruct toMerge; apply alike_ret.
Qed.

Lemma alike_loadConfigFile path :
  alike (loadConfigFile (without_warnings H) path) (loadConfigFile H path).
Proof.
  unfold loadConfigFile, readFile.
  apply alike_bind; [apply alike_log|]. intros _.
  apply alike_bind; [alike_steps|]. intros read.
  destruct read as [data|]; [|alike_steps].
  cbn [without_warnings parseDocument errors warnings toJSON].
  destruct (errors (parseDocument H data)) as [|e es].
  - apply alike_bind; [|intros []; apply alike_ret].
    destruct (warnings (parseDocument H data)) as [|w ws];
      [apply alike_ret|].
    intros p q He. unfold Loader.bind. rewrite log_run.
    destruct (alike_log_each warn (w :: ws)
                {| env := env q;
                   trace := trace q
                            ++ [Log warn
                                  "Warnings while parsing configuration file at %s"
                                  [VStr path]] |} p) as [H1 H2];
      [now symmetry|].
    split; [now rewrite H1|now rewrite H2].
  - apply alike_bind; [apply alike_log|]. intros _.
    apply alike_bind; [|intros _; apply alike_ret].
    intros p q He.
    destruct (alike_log_each error (e :: es) p q He) as [H1 H2].
    destruct (alike_log_each error (e :: es) q q eq_refl) as [H3 H4].
    split; congruence.
Qed.

Lemma alike_loadConfig loadEnv path :
  alike (loadConfig K (without_warnings H) rootKeys loadEnv path)
        (loadConfig K H rootKeys loadEnv path).
Proof.
  unfold loadConfig, loadBase, validateConfigPath.
  cbn [without_warnings readable debugEnabled].
  apply alike_bind.
  - apply alike_bind; [apply alike_log|]. intros _.
    apply alike_bind; [alike_steps|]. intros valid.
    destruct (negb valid); [apply alike_exit|].
    apply alike_bind; [apply alike_loadConfigFile|]. intros data.
    destruct (negb (truthy data)); [apply alike_exit|].
    apply alike_bind; [apply alike_validateConfig|]. intros config.
    destruct config as [config|]; [|apply alike_exit].
    apply alike_bind; [apply alike_resolveSecret|]. intros c1.
    apply alike_bind; [apply alike_resolveSecret|]. intros c2.
    apply alike_resolveSecret.
  - intros config. destruct loadEnv; cbn [negb].
    + apply alike_bind; [apply alike_log|]. intros _.
      apply alike_bind.
      { intros p q He. unfold configDotenv. cbn. rewrite He. now split. }
      intros _.
      apply alike_bind; [apply alike_coalesceEnv|]. intros merged.
      destruct merged; [apply alike_ret|apply alike_exit].
    + alike_steps.
Qed.

End Alike.

(** X21. Warnings of the YAML parser are logged and change nothing
    else: [loadConfig] ends in the same way, with the same document and
    the same environment, as with a parser that gives the same document
    without warnings. Nor does what was logged before play a part: two
    runs from the same environment end alike. *)
Theorem warnings_are_not_fatal (K : Keywords) (H : Host)
    (rootKeys : list string) (loadEnv : bool) (path : string)
    (p : process) :
  fst (loadConfig K (without_warnings H) rootKeys loadEnv path p)
  = fst (loadConfig K H rootKeys loadEnv path p)
  /\ env (snd (loadConfig K (without_warnings H) rootKeys loadEnv path p))
     = env (snd (loadConfig K H rootKeys loadEnv path p))
  /\ (forall events,
        fst (loadConfig K H rootKeys loadEnv path
               {| env := env p; trace := events |})
        = fst (loadConfig K H rootKeys loadEnv path p)).
Proof.
  split; [|split].
  - now apply (alike_loadConfig K H rootKeys loadEnv path p p).
  - now apply (alike_loadConfig K H rootKeys loadEnv path p p).
  - intros events.
    destruct (alike_loadConfig K H rootKeys loadEnv path
                {| env := env p; trace := events |} p eq_refl) as [H1 _].
    destruct (alike_loadConfig K H rootKeys loadEnv path
                {| env := env p; trace := events |}
                {| env := env p; trace := events |} eq_refl) as [H2 _].
    congruence.
Qed.

(** ** Overrides on top of the file *)










(** ** Documents that do not pass, and secrets that do not load *)

Lemma log_errors_run errs : forall number p,
  exists p1,
    log_errors number errs p = (Done tt, p1)
    /\ reads (trace p1) = reads (trace p) /\ env p1 = env p.
Proof.
  induction errs as [|[path what] errs IH]; intros number p;
    cbn [log_errors].
  - exists p. now split.
  - unfold Loader.bind at 1. rewrite log_run.
    match goal with
    | |- context [log_errors (S number) errs ?q] =>
        destruct (IH (S number) q) as (p1 & -> & Ht & He)
    end.
    exists p1. split; [reflexivity|]. cbn in Ht, He.
    rewrite reads_snoc, app_nil_r in Ht. now split.
Qed.

Lemma validateConfig_run K doc p :
  exists p1,
    validateConfig K doc p
    = (match validate K (headplaneConfig K) doc with
       | Valid out => Done (Some out)
       | Errors _ => Done None
       | Throws msg => Uncaught msg
       end, p1)
    /\ reads (trace p1) = reads (trace p) /\ env p1 = env p.
Proof.
  unfold validateConfig. unfold Loader.bind at 1. rewrite log_run.
  destruct (validate K (headplaneConfig K) doc) as [out|errs|msg].
  - eexists. split; [reflexivity|]. cbn.
    rewrite reads_snoc, app_nil_r. now split.
  - unfold Loader.bind at 1. rewrite log_run. unfold Loader.bind at 1.
    match goal with
    | |- context [log_errors 0 errs ?q] =>
        destruct (log_errors_run errs 0 q) as (p1 & -> & Ht & He)
    end.
    exists p1. split; [reflexivity|]. cbn in Ht, He.
    rewrite !reads_snoc, !app_nil_r in Ht. now split.
  - eexists. split; [reflexivity|]. cbn.
    rewrite reads_snoc, app_nil_r. now split.
Qed.

Section AfterTheFile.
Variable K : Keywords.
Variable H : Host.
Variable rootKeys : list string.

(** [loadBase] on a file that is there and parses to a truthy
    document: what is left is validation and the secrets. *)
Lemma loadBase_parsed path data p :
  readable H path = true ->
  contents H path = Some data ->
  errors (parseDocument H data) = [] ->
  truthy (toJSON (parseDocument H data)) = true ->
  exists p2,
    reads (trace p2) = reads (trace p) ++ [path] /\ env p2 = env p
    /\ loadBase K H path p
       = Loader.bind
           (validateConfig K
              (VObj (set "debug" (VBool (debugEnabled H))
                       (spread (toJSON (parseDocument H data))))))
           (fun config =>
              match config with
              | None => exit 1
              | Some config =>
                  Loader.bind
                    (resolveSecret H "server" "cookie_secret_path"
                       "cookie_secret" "cookie secret" (Some (Int 32)) config)
                    (fun config =>
                       Loader.bind
                         (resolveSecret H "oidc" "client_secret_path"
                            "client_secret" "OIDC client secret" None config)
                         (fun config =>
                            resolveSecret H "oidc" "headscale_api_key_path"
                              "headscale_api_key" "headscale API key" None
                              config))
              end) p2.
Proof.
  intros Hr Hc He Ht.
  unfold loadBase. unfold Loader.bind at 1. rewrite log_run.
  match goal with
  | |- context [Loader.bind (validateConfigPath H path) _ ?q] =>
      destruct (validateConfigPath_run H path q) as (p1 & Hv & Ht1 & He1)
  end.
  cbn in Ht1, He1. rewrite reads_snoc, app_nil_r in Ht1.
  rewrite (bind_eq _ _ _ _ _ _ _ Hv). rewrite Hr. cbn [negb].
  destruct (loadConfigFile_run H path p1) as (p2 & Hf & Ht2 & He2).
  rewrite (bind_eq _ _ _ _ _ _ _ Hf). rewrite Hc, He, Ht. cbn [negb].
  exists p2. split; [congruence|]. split; [congruence|]. reflexivity.
Qed.

End AfterTheFile.

(** X23. A document whose configuration file is there and parses, but
    that the full schema does not accept, ends [loadConfig] before any
    secret is read: with the code 1 when validation reports errors, and
    with the exception itself when a morph of the schema throws. *)
Theorem loadConfig_on_a_rejected_document (K : Keywords) (H : Host)
    (rootKeys : list string) (loadEnv : bool) (path data : string)
    (p : process) :
  readable H path = true ->
  contents H path = Some data ->
  errors (parseDocument H data) = [] ->
  truthy (toJSON (parseDocument H data)) = true ->
  is_valid
    (validate K (headplaneConfig K)
       (VObj (set "debug" (VBool (debugEnabled H))
                (spread (toJSON (parseDocument H data)))))) = false ->
  fst (loadConfig K H rootKeys loadEnv path p)
  = match validate K (headplaneConfig K)
            (VObj (set "debug" (VBool (debugEnabled H))
                     (spread (toJSON (parseDocument H data))))) with
    | Throws msg => Uncaught msg
    | _ => Exit 1
    end
  /\ reads (trace (snd (loadConfig K H rootKeys loadEnv path p)))
     = reads (trace p) ++ [path]
  /\ env (snd (loadConfig K H rootKeys loadEnv path p)) = env p.
Proof.
  intros Hr Hc He Ht Hv.
  destruct (loadBase_parsed K H path data p Hr Hc He Ht)
    as (p2 & Ht2 & He2 & Hbase).
  match type of Hbase with
  | context [validateConfig K ?doc] =>
      destruct (validateConfig_run K doc p2) as (p3 & Hrun & Ht3 & He3)
  end.
  unfold Loader.bind at 1 in Hbase. rewrite Hrun in Hbase.
  assert (Hl : loadConfig K H rootKeys loadEnv path p
               = (match validate K (headplaneConfig K)
                          (VObj (set "debug" (VBool (debugEnabled H))
                                   (spread (toJSON (parseDocument H data)))))
                  with
                  | Throws msg => Uncaught msg
                  | _ => Exit 1
                  end, p3)).
  { unfold loadConfig, Loader.bind at 1. rewrite Hbase.
    destruct (validate K (headplaneConfig K) _) as [out|errs|msg];
      [discriminate| |]; reflexivity. }
  rewrite Hl. cbn [fst snd]. repeat split; congruence.
Qed.

Lemma loadConfig_on_a_rejected_document_witness :
  fst (loadConfig keywords Cases.rejecting_host roots false config_file
         (started []))
  = Exit 1.
Proof.
  refine (proj1
            (loadConfig_on_a_rejected_document keywords Cases.rejecting_host
               roots false config_file "server: ..." (started [])
               _ _ _ _ _)); reflexivity.
Defined.

(** Three documents that the file may hold. Without the [headscale]
    section and with a cookie secret of five characters, the morph of
    the secret runs beside the error and its exception escapes; without
    the section only, the errors are logged and the process exits; with
    an empty array in the place of [integration], which lacks no
    required key, the document is returned. *)
Lemma loadConfig_on_three_documents :
  fst (loadConfig keywords
         (Cases.host_of (VObj [("server", Cases.short_secret)]))
         roots false config_file (started []))
  = Uncaught "cookie_secret must be exactly 32 characters long"
  /\ fst (loadConfig keywords (Cases.host_of (VObj [("server", server)]))
            roots false config_file (started []))
     = Exit 1
  /\ fst (loadConfig keywords
            (Cases.host_of (with_section "integration" (VArr [])))
            roots false config_file (started []))
     = Done (VObj [("debug", VBool false);
                   ("server",
                    VObj [("host", VStr "0.0.0.0");
                          ("port", VNum (Int 3000));
                          ("cookie_secret", VStr cookie32);
                          ("cookie_secure", VBool true);
                          ("agent", agent_defaults)]);
                   ("integration", VArr []);
                   ("headscale", headscale "https://hs.example.com")]).
Proof. repeat split. Qed.

(** ** A cookie secret of the wrong length *)

Lemma run_props_some r k pr t ps acc x :
  lookup k acc = Some x ->
  run_props r ((k, (pr, t)) :: ps) acc
  = match r t x with
    | Returned x' => run_props r ps (set k x' acc)
    | Thrown msg => inr msg
    end.
Proof. intros Hk. cbn [run_props]. now rewrite Hk. Qed.

Lemma run_stringToBool K v : run K stringToBool v = Returned (VBool (truthy v)).
Proof. cbn. destruct (allows K t_string v); reflexivity. Qed.

(** X24. A cookie secret given inline that is not 32 characters long
    is not reported as a validation error: the document passes the
    first pass and the morph of [cookie_secret] throws. *)
Theorem cookie_secret_of_another_length (K : Keywords) (doc : value)
    (s : string) :
  check K (headplaneConfig K) [] doc = [] ->
  prop (prop doc "server") "cookie_secret" = VStr s ->
  length s <> 32 ->
  validate K (headplaneConfig K) doc
  = Throws "cookie_secret must be exactly 32 characters long".
Proof.
  intros Hc Hs Hlen. unfold validate. rewrite Hc.
  apply check_object_nil in Hc; [|reflexivity]. destruct Hc as (o & -> & Hc & _).
  pose proof (check_key _ _ _ _ "debug" _ _ Hc eq_refl) as Hd.
  pose proof (check_key _ _ _ _ "server" _ _ Hc eq_refl) as Hsv.
  destruct (lookup "debug" o) as [d|] eqn:Ld; [|exfalso; now apply Hd].
  destruct (lookup "server" o) as [x|] eqn:Lx; [|exfalso; now apply Hsv].
  rewrite check_pipe in Hsv.
  apply check_object_nil in Hsv; [|reflexivity]. destruct Hsv as (sv & -> & Hsv & _).
  pose proof (check_key _ _ _ _ "host" _ _ Hsv eq_refl) as Hh.
  pose proof (check_key _ _ _ _ "port" _ _ Hsv eq_refl) as Hp.
  cbn [prop] in Hs. unfold get in Hs. rewrite Lx in Hs. cbn [prop] in Hs.
  unfold get in Hs.
  destruct (lookup "host" sv) as [h|] eqn:Lh; [|exfalso; now apply Hh].
  destruct (lookup "port" sv) as [pt|] eqn:Lp; [|exfalso; now apply Hp].
  destruct (lookup "cookie_secret" sv) as [c|] eqn:Lc; [|discriminate].
  subst c.
  assert (Hrs : run K (onDeepUndeclaredKey delete (serverConfig K)) (VObj sv)
                = Thrown "cookie_secret must be exactly 32 characters long").
  { unfold serverConfig.
    cbn [onDeepUndeclaredKey type_ map fst snd req opt default run].
    rewrite (run_props_some _ _ _ _ _ _ _ Lh). cbn [run].
    rewrite (run_props_some _ _ _ _ _ _ pt)
      by (rewrite lookup_set_other by discriminate; exact Lp).
    cbn [run]. destruct (allows K t_string pt); cbn [run Ark.bind];
      (rewrite (run_props_some _ _ _ _ _ _ (VStr s))
        by (rewrite !lookup_set_other by discriminate; exact Lc));
      cbn [run]; destruct (allows K t_string (VStr s)); cbn [run Ark.bind];
      (destruct (Nat.eqb (length s) 32) eqn:E;
       [apply Nat.eqb_eq in E; contradiction|reflexivity]). }
  unfold headplaneConfig.
  cbn [onDeepUndeclaredKey type_ map fst snd req opt default run].
  rewrite (run_props_some _ _ _ _ _ _ _ Ld), run_stringToBool.
  rewrite (run_props_some _ _ _ _ _ _ (VObj sv))
    by (rewrite lookup_set_other by discriminate; exact Lx).
  now rewrite Hrs.
Qed.

Lemma cookie_secret_of_another_length_witness :
  validate keywords (headplaneConfig keywords)
    (VObj [("debug", VBool false);
           ("server",
             VObj [("host", VStr "0.0.0.0"); ("port", VStr "8080");
                   ("cookie_secret", VStr "too short");
                   ("cookie_secure", VStr "true")]);
           ("headscale", headscale "https://hs.example.com")])
  = Throws "cookie_secret must be exactly 32 characters long".
Proof.
  apply (cookie_secret_of_another_length keywords _ "too short");
    [reflexivity | reflexivity | discriminate].
Defined.

(** ** A secret file that yields nothing *)

Lemma valid_cookie_secret_path K doc out file :
  validate K (headplaneConfig K) doc = Valid out ->
  prop (prop doc "server") "cookie_secret_path" = VStr file ->
  prop (prop out "server") "cookie_secret_path" = VStr file.
Proof.
  intros Hv.
  destruct (valid_server K _ _ Hv) as (sv & sv' & -> & -> & Hc & Ep).
  cbn [prop]. unfold get. rewrite lookup_keep by reflexivity.
  pose proof (fun Hnd =>
                run_key _ _ _ _ "cookie_secret_path" _ _ Hnd Ep eq_refl)
    as Hp.
  specialize (Hp ltac:(distinct_keys)).
  destruct (lookup "cookie_secret_path" sv) as [y|]; [|discriminate].
  intros ->. destruct Hp as (y' & Hy & ->). cbn in Hy. now injection Hy as <-.
Qed.

(** X25. When the document of the configuration file is valid and
    names a file for the cookie secret, and reading that file yields
    no secret (a variable of its path is unset, the file cannot be
    read, is empty, or does not hold 32 characters), [loadConfig]
    ends the process with the code 1. *)
Theorem loadConfig_without_the_cookie_secret (K : Keywords) (H : Host)
    (rootKeys : list string) (loadEnv : bool) (path data file : string)
    (p : process) :
  readable H path = true ->
  contents H path = Some data ->
  errors (parseDocument H data) = [] ->
  truthy (toJSON (parseDocument H data)) = true ->
  is_valid
    (validate K (headplaneConfig K)
       (VObj (set "debug" (VBool (debugEnabled H))
                (spread (toJSON (parseDocument H data)))))) = true ->
  prop (prop (VObj (set "debug" (VBool (debugEnabled H))
                      (spread (toJSON (parseDocument H data)))))
          "server") "cookie_secret_path" = VStr file ->
  file <> "" ->
  fst (loadSecretFromFile H file "cookie secret" (Some (Int 32)) p)
  = Done None ->
  fst (loadConfig K H rootKeys loadEnv path p) = Exit 1.
Proof.
  intros Hr Hc He Ht Hv Hfile Hne Hsecret.
  destruct (loadBase_parsed K H path data p Hr Hc He Ht)
    as (p2 & Ht2 & He2 & Hbase).
  match type of Hbase with
  | context [validateConfig K ?doc] =>
      destruct (validateConfig_run K doc p2) as (p3 & Hrun & Ht3 & He3)
  end.
  unfold Loader.bind at 1 in Hbase. rewrite Hrun in Hbase.
  destruct (validate K (headplaneConfig K) _) as [c0|errs|msg] eqn:Hval;
    try discriminate.
  pose proof (valid_cookie_secret_path K _ _ _ Hval Hfile) as Hout.
  unfold Loader.bind at 1 in Hbase. unfold resolveSecret at 1 in Hbase.
  rewrite Hout in Hbase. cbn [truthy] in Hbase.
  apply String.eqb_neq in Hne. rewrite Hne in Hbase. cbn [negb] in Hbase.
  unfold Loader.bind at 1 in Hbase.
  destruct (alike_loadSecretFromFile H file "cookie secret" (Some (Int 32))
              p3 p) as [Hfst _]; [congruence|].
  rewrite Hsecret in Hfst.
  destruct (loadSecretFromFile H file "cookie secret" (Some (Int 32)) p3)
    as [r p4].
  cbn [fst] in Hfst. subst r. cbn [of_option truthy negb exit] in Hbase.
  unfold loadConfig, Loader.bind at 1. now rewrite Hbase.
Qed.

Lemma loadConfig_without_the_cookie_secret_witness :
  fst (loadConfig keywords host roots false config_file (started []))
  = Exit 1.
Proof.
  apply (loadConfig_without_the_cookie_secret keywords host roots false
           config_file "server: ..." "${CREDENTIALS_DIRECTORY}/cookie"
           (started []));
    try reflexivity.
  discriminate.
Defined.

(** ** The secrets of the [oidc] section of a loaded document *)

Lemma valid_oidc_secrets K doc out :
  validate K (headplaneConfig K) doc = Valid out ->
  prop out "oidc" = VUndef
  \/ exists oo,
       prop out "oidc" = VObj oo
       /\ (exists key, get "headscale_api_key" oo = VStr key)
       /\ get "headscale_api_key_path" oo = VUndef
       /\ ((exists s,
              get "client_secret" oo = VStr s
              /\ get "client_secret_path" oo = VUndef)
           \/ (get "client_secret" oo = VNull
               /\ exists file, get "client_secret_path" oo = VStr file)).
Proof.
  intros Hv.
  pose proof (fun Hnd => validate_key K _ _ _ _ "oidc" _ _ Hnd Hv eq_refl eq_refl)
    as Hk.
  destruct (Hk ltac:(distinct_keys)) as (o & o' & -> & -> & Hs). clear Hk.
  cbn [prop]. unfold get at 1 2.
  destruct (lookup "oidc" o) as [x|] eqn:Ex;
    [|destruct Hs as [_ ->]; now left].
  right.
  destruct Hs as (Hc & x' & Hr & ->).
  rewrite check_pipe in Hc.
  apply check_object_nil in Hc; [|reflexivity]. destruct Hc as (oi & -> & Hc & _).
  apply run_pipe in Hr. destruct Hr as (mid & Hr & Hf).
  apply run_object in Hr. destruct Hr as (oi' & Ep & ->).
  pose proof (fun k pr t Hf Hnd => run_key _ _ _ _ k pr t Hnd Ep Hf) as Hrun.
  pose proof (fun k pr t Hf => check_key _ _ _ _ k pr t Hc Hf) as Hchk.
  pose proof (Hrun "client_secret" _ _ eq_refl ltac:(distinct_keys)) as Rs.
  pose proof (Hrun "client_secret_path" _ _ eq_refl ltac:(distinct_keys))
    as Rp.
  pose proof (Hrun "headscale_api_key" _ _ eq_refl ltac:(distinct_keys))
    as Rk.
  pose proof (Hrun "headscale_api_key_path" _ _ eq_refl ltac:(distinct_keys))
    as Rq.
  pose proof (Hchk "client_secret" _ _ eq_refl) as Cs.
  pose proof (Hchk "client_secret_path" _ _ eq_refl) as Cp.
  pose proof (Hchk "headscale_api_key" _ _ eq_refl) as Ck.
  pose proof (Hchk "headscale_api_key_path" _ _ eq_refl) as Cq.
  clear Hrun Hchk.
  match type of Hf with
  | context [VObj ?kept] => set (oo := kept) in *
  end.
  assert (Lk : forall k,
             In k ["client_secret"; "client_secret_path";
                   "headscale_api_key"; "headscale_api_key_path"] ->
             get k oo = match lookup k oi' with
                        | Some v => v
                        | None => VUndef
                        end).
  { intros k Hin. unfold oo, get. rewrite lookup_keep; [reflexivity|].
    cbn in Hin.
    destruct Hin as [<-|[<-|[<-|[<-|[]]]]]; reflexivity. }
  cbn [prop] in Hf.
  rewrite !Lk in Hf by (cbn; tauto).
  destruct (lookup "client_secret" oi) as [z|]; [|exfalso; now apply Cs].
  destruct Rs as (z' & Hz & Lz). rewrite Lz in Hf.
  assert (Hzz : z' = z).
  { simpl in Hz. destruct (allows K t_string z); simpl in Hz; congruence. }
  subst z'.
  destruct (lookup "headscale_api_key" oi) as [a|]; [|exfalso; now apply Ck].
  destruct Rk as (a' & Ha & La). rewrite La in Hf.
  simpl in Ck. destruct a; try discriminate.
  simpl in Ha. injection Ha as <-.
  destruct (lookup "headscale_api_key_path" oi) as [q|].
  { exfalso. destruct Rq as (q' & Hq & Lq). rewrite Lq in Hf.
    simpl in Cq. destruct q; try discriminate.
    simpl in Hq. injection Hq as <-. cbn in Hf.
    destruct (Bool.eqb _ _) in Hf; discriminate. }
  rewrite Rq in Hf.
  assert (Hshape : (exists s0, z = VStr s0) \/ z = VNull).
  { destruct z; simpl in Cs; try discriminate; eauto. }
  destruct (lookup "client_secret_path" oi) as [y|].
  - destruct Rp as (y' & Hy & Ly). rewrite Ly in Hf.
    simpl in Cp. destruct y; try discriminate.
    simpl in Hy. injection Hy as <-.
    destruct Hshape as [(s1 & ->)| ->].
    + exfalso. simpl in Hf. discriminate.
    + simpl in Hf. injection Hf as <-.
      exists oo. split; [reflexivity|].
      rewrite !Lk by (cbn; tauto). rewrite Lz, La, Rq, Ly.
      split; [now exists s|]. split; [reflexivity|].
      right. split; [reflexivity|]. now eexists.
  - rewrite Rp in Hf.
    destruct Hshape as [(s1 & ->)| ->].
    + simpl in Hf. injection Hf as <-.
      exists oo. split; [reflexivity|].
      rewrite !Lk by (cbn; tauto). rewrite Lz, La, Rq, Rp.
      split; [now exists s|]. split; [reflexivity|].
      left. now exists s1.
    + exfalso. simpl in Hf. discriminate.
Qed.

(** X26. The [oidc] section of the document [loadConfig] returns when
    overrides are off, when there is one: the API key of headscale is
    the string given inline and no file is named for it, so the block
    that would read one never runs; the client secret is the string
    given inline, or the trimmed content, not empty, of a file that was
    read for a path that is not empty, or [null] when the path is the
    empty string. *)
Theorem loadConfig_oidc_secrets (K : Keywords) (H : Host)
    (rootKeys : list string) (path : string) (p p' : process)
    (config : value) :
  loadConfig K H rootKeys false path p = (Done config, p') ->
  prop config "oidc" = VUndef
  \/ ((exists key, prop (prop config "oidc") "headscale_api_key" = VStr key)
      /\ prop (prop config "oidc") "headscale_api_key_path" = VUndef
      /\ ((exists s,
             prop (prop config "oidc") "client_secret" = VStr s
             /\ prop (prop config "oidc") "client_secret_path" = VUndef)
          \/ (exists s file resolved content,
                prop (prop config "oidc") "client_secret" = VStr s
                /\ s <> ""
                /\ prop (prop config "oidc") "client_secret_path" = VStr file
                /\ file <> ""
                /\ In resolved (reads (trace p'))
                /\ contents H resolved = Some content
                /\ s = trim content)
          \/ (prop (prop config "oidc") "client_secret" = VNull
              /\ prop (prop config "oidc") "client_secret_path" = VStr ""))).
Proof.
  intros Hl.
  unfold loadConfig in Hl. apply bind_Done in Hl.
  destruct Hl as (c3 & p1 & Hb & Hl). cbn [negb] in Hl.
  apply bind_Done in Hl. destruct Hl as (u2 & p2 & Hl2 & Hl).
  apply bind_Done in Hl. destruct Hl as (u3 & p3 & Hl3 & Hl).
  unfold ret in Hl. injection Hl as E1 E2. subst c3 p3.
  rewrite log_run in Hl2, Hl3. injection Hl2 as Eu2 Ep2.
  injection Hl3 as Eu3 Ep3. subst p2. subst p'.
  unfold loadBase in Hb.
  apply bind_Done in Hb. destruct Hb as (u0 & q1 & _ & Hb).
  apply bind_Done in Hb. destruct Hb as (valid & q2 & _ & Hb).
  destruct (negb valid); [discriminate|].
  apply bind_Done in Hb. destruct Hb as (data & q3 & _ & Hb).
  destruct (negb (truthy data)); [discriminate|].
  apply bind_Done in Hb. destruct Hb as (c0 & q4 & Hv & Hb).
  destruct c0 as [c0|]; [|discriminate].
  apply validateConfig_Done in Hv.
  apply bind_Done in Hb. destruct Hb as (c1 & q5 & H1 & Hb).
  apply bind_Done in Hb. destruct Hb as (c2 & q6 & H2 & H3).
  assert (Hoidc : prop c1 "oidc" = prop c0 "oidc").
  { apply (resolveSecret_Done _ _ _ _ _ _ _ _ _ _ "oidc" H1). discriminate. }
  destruct (valid_oidc_secrets K _ _ Hv)
    as [Hnone|(oo & Hoo & (key & Hkey) & Hnopath & Hsecret)].
  - (* no section *)
    left. rewrite Hnone in Hoidc.
    apply resolveSecret_cases in H2.
    destruct H2 as [(-> & -> & _)|(file & secret & Hfile & _)];
      [|rewrite Hoidc in Hfile; discriminate].
    apply resolveSecret_cases in H3.
    destruct H3 as [(-> & -> & _)|(file & secret & Hfile & _)];
      [exact Hoidc|rewrite Hoidc in Hfile; discriminate].
  - right. rewrite Hoo in Hoidc.
    apply resolveSecret_cases in H2.
    destruct H2
      as [(-> & -> & Hempty)|(file & secret & Hfile & Hne & Hload & ->)].
    + apply resolveSecret_cases in H3.
      destruct H3 as [(-> & -> & _)|(file & secret & Hfile & _)];
        [|rewrite Hoidc in Hfile; cbn [prop] in Hfile; congruence].
      rewrite Hoidc. cbn [prop].
      split; [now exists key|]. split; [exact Hnopath|].
      destruct Hsecret as [(s & Hs & Hp)|(Hs & file & Hp)].
      * left. now exists s.
      * right. right. split; [exact Hs|]. rewrite Hp. f_equal.
        apply Hempty. rewrite Hoidc. exact Hp.
    + pose proof (prop_set_field_same "oidc" "client_secret" (VStr secret)
                    _ _ Hoidc) as Hset.
      apply resolveSecret_cases in H3.
      destruct H3 as [(-> & -> & _)|(file' & secret' & Hfile' & _)].
      2:{ rewrite Hset in Hfile'. cbn [prop] in Hfile'.
          rewrite get_set_other in Hfile' by discriminate. congruence. }
      rewrite Hset. cbn [prop].
      rewrite get_set_same, !get_set_other by discriminate.
      split; [now exists key|]. split; [exact Hnopath|].
      right. left.
      rewrite Hoidc in Hfile. cbn [prop] in Hfile.
      destruct (loadSecretFromFile_run H file "OIDC client secret" None q5)
        as (r & q' & Hrun & _ & Hsome).
      rewrite Hload in Hrun. injection Hrun as <- <-.
      destruct (Hsome secret eq_refl)
        as (resolved & content & Hc & Hs & Hnes & Ht & _).
      exists secret, file, resolved, content. repeat split; auto.
      cbn [trace]. rewrite !reads_snoc, !app_nil_r, Ht.
      apply in_or_app. right. now left.
Qed.

Lemma loadConfig_oidc_secrets_witness :
  prop Cases.oidc_loaded "oidc" = VUndef
  \/ ((exists key,
         prop (prop Cases.oidc_loaded "oidc") "headscale_api_key" = VStr key)
      /\ prop (prop Cases.oidc_loaded "oidc") "headscale_api_key_path"
         = VUndef
      /\ ((exists s,
             prop (prop Cases.oidc_loaded "oidc") "client_secret" = VStr s
             /\ prop (prop Cases.oidc_loaded "oidc") "client_secret_path"
                = VUndef)
          \/ (exists s file resolved content,
                prop (prop Cases.oidc_loaded "oidc") "client_secret" = VStr s
                /\ s <> ""
                /\ prop (prop Cases.oidc_loaded "oidc") "client_secret_path"
                   = VStr file
                /\ file <> ""
                /\ In resolved
                     (reads (trace (snd (loadConfig keywords Cases.oidc_host
                                           roots false config_file
                                           (started [])))))
                /\ contents Cases.oidc_host resolved = Some content
                /\ s = trim content)
          \/ (prop (prop Cases.oidc_loaded "oidc") "client_secret" = VNull
              /\ prop (prop Cases.oidc_loaded "oidc") "client_secret_path"
                 = VStr ""))).
Proof.
  apply (loadConfig_oidc_secrets keywords Cases.oidc_host roots config_file
           (started [])).
  reflexivity.
Defined.

(** ** A document without secret files *)

(** X27. When the configuration file is there and parses to a truthy
    document that the full schema accepts, and the validated document
    names no file for the cookie secret nor for the client secret,
    [loadConfig] with overrides off returns the validated document as
    it is, having called [readFile] for the configuration file only,
    and leaves the environment as it was. *)
Theorem loadConfig_returns_the_validated_document (K : Keywords) (H : Host)
    (rootKeys : list string) (path data : string) (p : process)
    (validated : value) :
  readable H path = true ->
  contents H path = Some data ->
  errors (parseDocument H data) = [] ->
  truthy (toJSON (parseDocument H data)) = true ->
  validate K (headplaneConfig K)
    (VObj (set "debug" (VBool (debugEnabled H))
             (spread (toJSON (parseDocument H data)))))
  = Valid validated ->
  prop (prop validated "server") "cookie_secret_path" = VUndef ->
  prop (prop validated "oidc") "client_secret_path" = VUndef ->
  fst (loadConfig K H rootKeys false path p) = Done validated
  /\ reads (trace (snd (loadConfig K H rootKeys false path p)))
     = reads (trace p) ++ [path]
  /\ env (snd (loadConfig K H rootKeys false path p)) = env p.
Proof.
  intros Hr Hc He Ht Hv Hcookie Hclient.
  destruct (loadBase_parsed K H path data p Hr Hc He Ht)
    as (p2 & Ht2 & He2 & Hbase).
  match type of Hbase with
  | context [validateConfig K ?doc] =>
      destruct (validateConfig_run K doc p2) as (p3 & Hrun & Ht3 & He3)
  end.
  rewrite Hv in Hrun.
  assert (Hkey : prop (prop validated "oidc") "headscale_api_key_path"
                 = VUndef).
  { destruct (valid_oidc_secrets K _ _ Hv) as [->|(oo & -> & _ & Hn & _)];
      [reflexivity|exact Hn]. }
  unfold Loader.bind at 1 in Hbase. rewrite Hrun in Hbase.
  unfold Loader.bind at 1 in Hbase. unfold resolveSecret at 1 in Hbase.
  rewrite Hcookie in Hbase. unfold ret at 1 in Hbase.
  unfold Loader.bind at 1 in Hbase. unfold resolveSecret at 1 in Hbase.
  rewrite Hclient in Hbase. unfold ret at 1 in Hbase.
  unfold resolveSecret in Hbase. rewrite Hkey in Hbase. unfold ret in Hbase.
  assert (Hl : loadConfig K H rootKeys false path p
               = (Done validated,
                  {| env := env p3;
                     trace := (trace p3
                               ++ [Log debug
                                     "Environment variable overrides are disabled"
                                     []])
                              ++ [Log debug
                                    "This also disables the loading of a .env file"
                                    []] |})).
  { unfold loadConfig, Loader.bind at 1. rewrite Hbase. reflexivity. }
  rewrite Hl. cbn [fst snd env trace].
  rewrite !reads_snoc, !app_nil_r. repeat split; congruence.
Qed.

Lemma loadConfig_returns_the_validated_document_witness :
  fst (loadConfig keywords Cases.minimal_host roots false config_file
         (started []))
  = Done
      (VObj [("debug", VBool true);
             ("server",
               VObj [("host", VStr "0.0.0.0"); ("port", VNum (Int 3000));
                     ("cookie_secret", VStr cookie32);
                     ("cookie_secure", VBool true);
                     ("agent", agent_defaults)]);
             ("headscale",
               VObj [("url", VStr "https://hs.example.com");
                     ("config_strict", VBool true)])]).
Proof.
  refine (proj1
            (loadConfig_returns_the_validated_document keywords
               Cases.minimal_host roots config_file "server: ..." (started [])
               _ _ _ _ _ _ _ _)); reflexivity.
Defined.

(** ** An override that cannot pass *)

Lemma at_path_string_on_the_way path : forall v w,
  path <> [] -> at_path path v = Some (VStr w) ->
  string_on_the_way path v = true.
Proof.
  induction path as [|k rest IH]; intros v w Hne; [congruence|].
  cbn [at_path string_on_the_way].
  destruct v as [| | | | |items|o]; try discriminate.
  destruct (lookup k o) as [x|]; [|discriminate].
  destruct rest as [|k2 rest].
  - cbn [at_path]. now intros [= ->].
  - intros Hx. destruct x; try discriminate; try reflexivity.
    apply (IH _ w); [discriminate|exact Hx].
Qed.

Lemma assign_path_keeps_strings q' : forall q value (current : obj),
  string_on_the_way q (VObj current) = true ->
  match assign_path q' value current with
  | Assigned current' | Outside current' _ =>
      string_on_the_way q (VObj current') = true
  | Stuck => True
  end.
Proof.
  induction q' as [|k' rest' IH]; intros q value current Hq.
  - cbn [assign_path].
    destruct q as [|k rest]; [discriminate|].
    cbn [string_on_the_way] in Hq |- *.
    destruct (String.eqb k "undefined") eqn:E.
    + apply String.eqb_eq in E. subst k. now rewrite lookup_set_same.
    + apply String.eqb_neq in E. now rewrite lookup_set_other.
  - cbn [assign_path]. destruct rest' as [|k2 rest'].
    + destruct q as [|k rest]; [discriminate|].
      cbn [string_on_the_way] in Hq |- *.
      destruct (String.eqb k k') eqn:E.
      * apply String.eqb_eq in E. subst k. now rewrite lookup_set_same.
      * apply String.eqb_neq in E. now rewrite lookup_set_other.
    + cbv zeta.
      set (cur := if has k' current then current
                  else set k' (VObj []) current).
      destruct q as [|k rest]; [discriminate|].
      cbn [string_on_the_way] in Hq.
      destruct (lookup k current) as [x|] eqn:Hk; [|discriminate].
      assert (Hcur : lookup k cur = Some x).
      { unfold cur, has. destruct (String.eqb_spec k k') as [->|Hne].
        - now rewrite Hk.
        - destruct (lookup k' current); [exact Hk|].
          destruct (inherits k'); [exact Hk|].
          now rewrite lookup_set_other. }
      destruct (lookup k' cur) as [y|] eqn:Hy.
      2: { cbn [string_on_the_way]. now rewrite Hcur. }
      destruct y as [| | | | |items|next]; try exact I.
      pose proof (IH rest value next) as IHn. revert IHn.
      destruct (assign_path (k2 :: rest') value next)
        as [next'| |next' away]; intros IHn; try exact I;
        cbn [string_on_the_way];
        (destruct (String.eqb_spec k k') as [->|Hne];
         [ rewrite lookup_set_same; rewrite Hcur in Hy;
           injection Hy as ->; now apply IHn
         | rewrite lookup_set_other by assumption; now rewrite Hcur ]).
Qed.

Lemma assign_from_strings H vars :
  forall before envConfig p result p' key value,
    assign_from H before vars envConfig p = (Done result, p') ->
    forallb (fun name => negb (inherits name)) (removelast (configPath key))
    = true ->
    In (key, value) vars
    \/ string_on_the_way (configPath key) (VObj envConfig) = true ->
    string_on_the_way (configPath key) (VObj result) = true.
Proof.
  induction vars as [|[k v] vars IH];
    intros before envConfig p result p' key value.
  - cbn [assign_from]. unfold ret. intros [= <- _] _ [[]|Hs]. exact Hs.
  - intros Hrun Hinside Hcase.
    pose proof (assign_path_keeps_strings (configPath k) (configPath key) v
                  envConfig) as Hkeep.
    apply assign_from_cons in Hrun.
    destruct Hrun as [(next & p1 & Ea & Hrun)|(next & away & p1 & Ea & Hrun)];
      rewrite Ea in Hkeep;
      apply (IH _ _ _ _ _ key value Hrun Hinside);
      (destruct Hcase as [[[= -> ->]|Hin]|Hs];
       [ | now left | right; now apply Hkeep ]).
    + right. apply (at_path_string_on_the_way _ _ value).
      * apply configPath_not_nil.
      * exact (assign_path_written _ _ _ _ (configPath_not_nil key) Ea).
    + destruct (assign_path_inside _ _ _ _ _ Hinside Ea).
Qed.

Lemma assign_vars_strings H vars envConfig p result p' key value :
  assign_vars H vars envConfig p = (Done result, p') ->
  forallb (fun name => negb (inherits name)) (removelast (configPath key))
  = true ->
  In (key, value) vars
  \/ string_on_the_way (configPath key) (VObj envConfig) = true ->
  string_on_the_way (configPath key) (VObj result) = true.
Proof. apply assign_from_strings. Qed.

Lemma ttl_string_is_rejected K envConfig :
  string_on_the_way ["server"; "agent"; "ttl"] (VObj envConfig) = true ->
  check K (partialHeadplaneConfig K) [] (VObj envConfig) <> [].
Proof.
  cbn [string_on_the_way]. intros Hs Hc.
  apply check_VObj_nil in Hc. destruct Hc as (Hc & _).
  pose proof (check_key _ _ _ _ "server" _ _ Hc eq_refl) as Hserver.
  destruct (lookup "server" envConfig) as [x|]; [|discriminate].
  destruct x as [| | | |s| |sv]; try discriminate.
  apply check_VObj_nil in Hserver. destruct Hserver as (H1 & _).
  pose proof (check_key _ _ _ _ "agent" _ _ H1 eq_refl) as Hagent.
  destruct (lookup "agent" sv) as [y|]; [|discriminate].
  destruct y as [| | | |s| |ag]; try discriminate.
  apply check_VObj_nil in Hagent. destruct Hagent as (H2 & _).
  pose proof (check_key _ _ _ _ "ttl" _ _ H2 eq_refl) as Httl.
  destruct (lookup "ttl" ag) as [z|]; [|discriminate].
  destruct z; discriminate.
Qed.

Lemma no_exit_bind A B (m : M A) (f : A -> M B) :
  (forall p code, fst (m p) <> Exit code) ->
  (forall a p code, fst (f a p) <> Exit code) ->
  forall p code, fst (Loader.bind m f p) <> Exit code.
Proof.
  intros Hm Hf p code. unfold Loader.bind. specialize (Hm p).
  destruct (m p) as [[a|c|msg] p1]; cbn [fst] in *.
  - apply Hf.
  - now destruct (Hm c).
  - discriminate.
Qed.

Lemma no_exit_log_errors errs : forall number p code,
  fst (log_errors number errs p) <> Exit code.
Proof.
  induction errs as [|[path what] errs IH]; intros number; cbn [log_errors].
  - discriminate.
  - apply no_exit_bind; [discriminate|]. intros _. apply IH.
Qed.

Lemma no_exit_assign_from H vars : forall before envConfig p code,
  fst (assign_from H before vars envConfig p) <> Exit code.
Proof.
  induction vars as [|[key value] vars IH]; intros before envConfig;
    cbn [assign_from].
  - discriminate.
  - apply no_exit_bind; [discriminate|]. intros _.
    destruct (assign_path (configPath key) value envConfig).
    + apply IH.
    + discriminate.
    + apply no_exit_bind; [|intros _; apply IH].
      unfold walk_builtins. apply no_exit_bind; [discriminate|]. intros _.
      destruct (builtins H before path value); discriminate.
Qed.

Lemma no_exit_coalesceEnv K H rootKeys config p code :
  fst (coalesceEnv K H rootKeys config p) <> Exit code.
Proof.
  revert p code. unfold coalesceEnv.
  apply no_exit_bind; [discriminate|]. intros all.
  apply no_exit_bind; [discriminate|]. intros _.
  apply no_exit_bind; [apply no_exit_assign_from|]. intros envConfig.
  apply no_exit_bind.
  - unfold coalesceConfig.
    apply no_exit_bind; [discriminate|]. intros _.
    destruct (validate K (partialHeadplaneConfig K) (VObj envConfig)).
    + discriminate.
    + apply no_exit_bind; [discriminate|]. intros _.
      apply no_exit_bind; [apply no_exit_log_errors|]. discriminate.
    + discriminate.
  - intros toMerge. destruct toMerge; discriminate.
Qed.

(** X28. The TTL of the agent cannot be set from the environment: a
    variable whose path is [server.agent.ttl] brings a string where
    the partial schema wants an integer, so [coalesceEnv] never returns
    a document when there is one; it returns nothing, or stops with
    the [TypeError] of an override whose walk cannot go on. *)
Theorem agent_ttl_cannot_be_overridden (K : Keywords) (H : Host)
    (rootKeys : list string) (config : value) (p : process)
    (key value : string) :
  In (key, value) (env p) ->
  is_override rootKeys (key, value) = true ->
  configPath key = ["server"; "agent"; "ttl"] ->
  fst (coalesceEnv K H rootKeys config p) = Done None
  \/ fst (coalesceEnv K H rootKeys config p) = Uncaught "TypeError".
Proof.
  intros Hin Ho Hpath.
  pose proof (ends_coalesceEnv K H rootKeys ["TypeError"] config
                (or_introl eq_refl) p) as Hend.
  pose proof (no_exit_coalesceEnv K H rootKeys config p) as Hexit.
  destruct (coalesceEnv K H rootKeys config p)
    as [[[out|]|code|msg] p'] eqn:Hrun; cbn [fst] in *.
  - exfalso.
    destruct (coalesceEnv_Done _ _ _ _ _ _ _ Hrun)
      as (envConfig & toMerge & p1 & p2 & Ha & Hv & _).
    apply validate_Valid in Hv. destruct Hv as [Hc _].
    apply (ttl_string_is_rejected K envConfig); [|exact Hc].
    rewrite <- Hpath.
    apply (assign_vars_strings _ _ _ _ _ _ key value Ha).
    + now rewrite Hpath.
    + left. apply filter_In. now split.
  - now left.
  - now destruct (Hexit code).
  - right. destruct Hend as [<-|[]]. reflexivity.
Qed.

Lemma agent_ttl_cannot_be_overridden_witness :
  fst (coalesceEnv keywords host roots (minimal "https://hs.example.com")
         (started [("HEADPLANE_DEBUG", "1");
                   ("HEADPLANE_SERVER__COOKIE_SECURE", "1");
                   ("HEADPLANE_SERVER__AGENT__TTL", "60000");
                   ("HEADPLANE_HEADSCALE__CONFIG_STRICT", "1")]))
  = Done None
  \/ fst (coalesceEnv keywords host roots
            (minimal "https://hs.example.com")
            (started [("HEADPLANE_DEBUG", "1");
                      ("HEADPLANE_SERVER__COOKIE_SECURE", "1");
                      ("HEADPLANE_SERVER__AGENT__TTL", "60000");
                      ("HEADPLANE_HEADSCALE__CONFIG_STRICT", "1")]))
     = Uncaught "TypeError".
Proof.
  apply (agent_ttl_cannot_be_overridden keywords host roots
           (minimal "https://hs.example.com")
           (started [("HEADPLANE_DEBUG", "1");
                     ("HEADPLANE_SERVER__COOKIE_SECURE", "1");
                     ("HEADPLANE_SERVER__AGENT__TTL", "60000");
                     ("HEADPLANE_HEADSCALE__CONFIG_STRICT", "1")])
           "HEADPLANE_SERVER__AGENT__TTL" "60000").
  - cbn. tauto.
  - reflexivity.
  - reflexivity.
Defined.

